(** * Scalar command-line interface: a shallow embedding of [scalar.c]

    The development follows the source file top to bottom: C string
    helpers, the streaming JSON visitor and its callbacks, the process
    environment (subprocesses, file system, configuration store) as
    explicit oracles and explicit state, then the commands themselves
    ([set_recommended_config], [get_cache_key], [remote_default_branch],
    [cmd_clone], [cmd_reconfigure], [cmd_delete] and the other commands)
    and finally the
    properties established about them. *)

From stdpp Require Import gmap strings list.
From Stdlib Require Import ZArith Ascii String DecimalString Lia.
From Stdlib Require DecimalPos.

Open Scope string_scope.
Open Scope Z_scope.

(** ** C strings *)

Module CString.

(** [tolower] of git-compat-util.h: only the ASCII capitals change. *)
Definition is_upper (c : ascii) : bool :=
  let n := N_of_ascii c in ((65 <=? n) && (n <=? 90))%N.

Definition tolower (c : ascii) : ascii :=
  if is_upper c then ascii_of_N (N_of_ascii c + 32) else c.

(** [strbuf_tolower]. *)
Fixpoint strbuf_tolower (s : string) : string :=
  match s with
  | EmptyString => EmptyString
  | String c s' => String (tolower c) (strbuf_tolower s')
  end.

(** [starts_with(str, prefix)]. *)
Fixpoint starts_with (str prefix : string) {struct prefix} : bool :=
  match prefix with
  | EmptyString => true
  | String p prefix' =>
      match str with
      | EmptyString => false
      | String c str' => if Ascii.eqb c p then starts_with str' prefix' else false
      end
  end.

(** [skip_prefix(str, prefix, &out)]: [Some out] when it returns 1. *)
Fixpoint skip_prefix (str prefix : string) {struct prefix} : option string :=
  match prefix with
  | EmptyString => Some str
  | String p prefix' =>
      match str with
      | EmptyString => None
      | String c str' => if Ascii.eqb c p then skip_prefix str' prefix' else None
      end
  end.

(** [skip_iprefix(str, prefix, &out)]: as [skip_prefix], comparing
    through [tolower]. *)
Fixpoint skip_iprefix (str prefix : string) {struct prefix} : option string :=
  match prefix with
  | EmptyString => Some str
  | String p prefix' =>
      match str with
      | EmptyString => None
      | String c str' =>
          if Ascii.eqb (tolower c) (tolower p) then skip_iprefix str' prefix' else None
      end
  end.

(** [!strcasecmp(a, b)]: equality up to ASCII case. *)
Definition strcaseeq (a b : string) : bool :=
  String.eqb (strbuf_tolower a) (strbuf_tolower b).

(** The first [n] characters ([xstrndup], [%.*s]) and what follows
    them. *)
Fixpoint take_chars (n : nat) (s : string) : string :=
  match n, s with
  | S n', String c s' => String c (take_chars n' s')
  | _, _ => EmptyString
  end.

Fixpoint drop_chars (n : nat) (s : string) : string :=
  match n, s with
  | S n', String _ s' => drop_chars n' s'
  | _, _ => s
  end.

(** [strip_suffix(str, suffix, &len)]: the string without the suffix
    when it ends with it. *)
Definition strip_suffix (str suffix : string) : option string :=
  let n := (String.length str - String.length suffix)%nat in
  if (String.length suffix <=? String.length str)%nat
     && String.eqb (drop_chars n str) suffix
  then Some (take_chars n str)
  else None.

Definition newline : ascii := ascii_of_N 10.
Definition tab : ascii := ascii_of_N 9.

(** The lines of a buffer as the loop of [remote_default_branch] meets
    them: each runs up to the next newline (the source's [strchrnul]) and
    the walk ends where the buffer does. *)
Fixpoint split_lines (s : string) : list string :=
  match s with
  | EmptyString => []
  | String c s' =>
      if Ascii.eqb c newline then EmptyString :: split_lines s'
      else match split_lines s' with
           | [] => [String c EmptyString]
           | l :: ls => String c l :: ls
           end
  end.

(** [strbuf_trim_trailing_dir_sep], for a given [is_dir_sep]. *)
Fixpoint trim_trailing (is_sep : ascii -> bool) (s : string) : string :=
  match s with
  | EmptyString => EmptyString
  | String c s' =>
      match trim_trailing is_sep s' with
      | EmptyString => if is_sep c then EmptyString else String c EmptyString
      | r => String c r
      end
  end.

(** What follows the last separator ([find_last_dir_sep(s) + 1]), when
    there is a separator. *)
Fixpoint after_last_sep (is_sep : ascii -> bool) (s : string) : option string :=
  match s with
  | EmptyString => None
  | String c s' =>
      match after_last_sep is_sep s' with
      | Some r => Some r
      | None => if is_sep c then Some s' else None
      end
  end.

(** What precedes the last separator, when there is one. *)
Fixpoint before_last_sep (is_sep : ascii -> bool) (s : string) : option string :=
  match s with
  | EmptyString => None
  | String c s' =>
      match before_last_sep is_sep s' with
      | Some r => Some (String c r)
      | None => if is_sep c then Some EmptyString else None
      end
  end.

(** [isspace] of git-compat-util.h: space, tab, newline, carriage
    return. *)
Definition isspace (c : ascii) : bool :=
  let n := N_of_ascii c in
  ((n =? 32) || (n =? 9) || (n =? 10) || (n =? 13))%N.

Fixpoint ltrim (s : string) : string :=
  match s with
  | String c s' => if isspace c then ltrim s' else s
  | EmptyString => EmptyString
  end.

Fixpoint rtrim (s : string) : string :=
  match s with
  | EmptyString => EmptyString
  | String c s' =>
      match rtrim s' with
      | EmptyString => if isspace c then EmptyString else String c EmptyString
      | r => String c r
      end
  end.

(** [strbuf_trim]. *)
Definition strbuf_trim (s : string) : string := ltrim (rtrim s).

(** [strtol(p, &q, 10)] on a 64-bit [long]: white space (the C
    locale's [isspace], which also has vertical tab and form feed), an
    optional sign, decimal digits; the value saturates.  The third
    component tells whether a conversion took place, that is whether
    [p != q]; without one, [q] is [p] itself. *)
Definition LONG_MAX : Z := 9223372036854775807.
Definition LONG_MIN : Z := -9223372036854775808.

Definition c_isspace (c : ascii) : bool :=
  let n := N_of_ascii c in ((n =? 32) || ((9 <=? n) && (n <=? 13)))%N.

Definition digit_of (c : ascii) : option Z :=
  let n := N_of_ascii c in
  if ((48 <=? n) && (n <=? 57))%N then Some (Z.of_N n - 48) else None.

Fixpoint skip_space (s : string) : string :=
  match s with
  | String c s' => if c_isspace c then skip_space s' else s
  | EmptyString => EmptyString
  end.

Fixpoint digits (acc : Z) (s : string) : Z * string :=
  match s with
  | String c s' =>
      match digit_of c with
      | Some d => digits (acc * 10 + d) s'
      | None => (acc, s)
      end
  | EmptyString => (acc, EmptyString)
  end.

Definition has_digit (s : string) : bool :=
  match s with
  | String c _ => match digit_of c with Some _ => true | None => false end
  | EmptyString => false
  end.

Definition strtol (p : string) : Z * string * bool :=
  let s := skip_space p in
  let '(neg, s1) :=
    match s with
    | String "-" s' => (true, s')
    | String "+" s' => (false, s')
    | _ => (false, s)
    end in
  if has_digit s1 then
    let '(v, q) := digits 0 s1 in
    let v' := if neg then Z.max LONG_MIN (- v) else Z.min LONG_MAX v in
    (v', q, true)
  else (0, p, false).

(** [printf("%ld", l)]. *)
Definition fmt_ld (l : Z) : string := NilZero.string_of_int (Z.to_int l).

End CString.

Import CString.

(** ** The streaming JSON visitor (json-parser.h) *)

Inductive json_type :=
| JSON_NULL | JSON_FALSE | JSON_TRUE | JSON_NUMBER | JSON_STRING
| JSON_ARRAY | JSON_OBJECT.

(** What a callback sees of [struct json_iterator] at one value: its
    type tag, its dotted and bracketed key path ([it->key]) and, for a
    string, its contents ([it->string_value]). *)
Record json_iterator := {
  it_type : json_type;
  it_key : string;
  it_string_value : string;
}.

(** A document as the visitor meets it: the values in depth-first
    order, and whether the text was well-formed to its end. *)
Record json_document := {
  doc_values : list json_iterator;
  doc_well_formed : bool;
}.

(** Modelled from the spec: [iterate_json] (json-parser.c is not part
    of these sources).  A depth-first visitor invoked once per JSON value
    with its full key path and type tag; the handler may request early
    termination (a non-zero return) once its match is found.  A syntax
    error is reported as a negative result when the walk reaches it; a
    walk that the handler ended early is not an error.  [D] is the
    handler's [fn_data].  The document is what the walk meets: for the
    first walk of an iterator set up with [JSON_ITERATOR_INIT], the
    values of the text; for a later walk of the same iterator, what
    json-parser.c makes of the position that the earlier walk left, which
    neither these sources nor the specification tell (see
    [json_parse_again] below). *)
Fixpoint visit_values {D : Type} (fn : json_iterator -> D -> Z * D)
  (vs : list json_iterator) (d : D) : Z * D :=
  match vs with
  | [] => (0, d)
  | v :: vs' =>
      let '(r, d') := fn v d in
      if r =? 0 then visit_values fn vs' d' else (r, d')
  end.

Definition iterate_json {D : Type} (fn : json_iterator -> D -> Z * D)
  (doc : json_document) (d : D) : Z * D :=
  let '(r, d') := visit_values fn (doc_values doc) d in
  if r =? 0 then ((if doc_well_formed doc then 0 else -1), d') else (0, d').

(** Where a walk leaves the iterator: the number of values that the
    handler was shown, and whether the handler ended the walk. *)
Fixpoint values_shown {D : Type} (fn : json_iterator -> D -> Z * D)
  (vs : list json_iterator) (d : D) : nat * bool :=
  match vs with
  | [] => (O, false)
  | v :: vs' =>
      let '(r, d') := fn v d in
      if r =? 0 then
        let '(n, ended) := values_shown fn vs' d' in (S n, ended)
      else (1%nat, true)
  end.

Definition json_type_eqb (a b : json_type) : bool :=
  match a, b with
  | JSON_NULL, JSON_NULL | JSON_FALSE, JSON_FALSE | JSON_TRUE, JSON_TRUE
  | JSON_NUMBER, JSON_NUMBER | JSON_STRING, JSON_STRING
  | JSON_ARRAY, JSON_ARRAY | JSON_OBJECT, JSON_OBJECT => true
  | _, _ => false
  end.

(** The test that [list_cache_server_urls] and [get_cache_server_index]
    share: the key is .CacheServers[N] followed by the given tail, for a
    number N that [strtol] reads as non-negative; the result is N. *)
Definition cache_server_index_of (key tail : string) : option Z :=
  match skip_iprefix key ".CacheServers[" with
  | Some p =>
      let '(l, q, converted) := strtol p in
      if (0 <=? l) && converted && strcaseeq q tail then Some l else None
  | None => None
  end.

(** Find N for which .CacheServers[N].GlobalDefault == true *)
Definition get_cache_server_index (it : json_iterator) (l0 : Z) : Z * Z :=
  if json_type_eqb (it_type it) JSON_TRUE then
    match cache_server_index_of (it_key it) "].GlobalDefault" with
    | Some l => (1, l)
    | None => (0, l0)
    end
  else (0, l0).

Record cache_server_url_data := {
  data_key : string;
  data_url : option string;
}.

(** Get .CacheServers[N].Url *)
Definition get_cache_server_url (it : json_iterator) (data : cache_server_url_data)
  : Z * cache_server_url_data :=
  if json_type_eqb (it_type it) JSON_STRING && strcaseeq (data_key data) (it_key it)
  then (1, {| data_key := data_key data; data_url := Some (it_string_value it) |})
  else (0, data).

Definition get_repository_id (it : json_iterator) (id : option string)
  : Z * option string :=
  if json_type_eqb (it_type it) JSON_STRING && strcaseeq ".repository.id" (it_key it)
  then (1, Some (it_string_value it))
  else (0, id).

(** ** The process and its surroundings *)

(** The fields of [struct repository] that [scalar.c] reads or writes. *)
Record repository := {
  worktree : option string;
  gitdir : string;
  commondir : string;
}.

(** [chdir] either succeeds, or fails with [errno == ENOENT], or fails
    with another [errno]. *)
Inductive chdir_result := CHDIR_OK | CHDIR_ENOENT | CHDIR_EOTHER.

(** The results of [discover_git_directory_reason] that the source
    names; every other value of the enumeration is [GIT_DIR_OTHER] and
    reaches the [default] label of the switch. *)
Inductive discovery_result :=
| GIT_DIR_DISCOVERED
| GIT_DIR_INVALID_OWNERSHIP
| GIT_DIR_INVALID_GITFILE
| GIT_DIR_INVALID_FORMAT
| GIT_DIR_OTHER.

(** What the process does to the outside, in program order. *)
Inductive event :=
| EvRunGit (argv : list string) (statuses : list Z)
| EvPipe (argv : list string) (status : Z)
| EvConfigSet (key : string) (value : option string) (status : Z)
| EvConfigAdd (key value : string) (status : Z)
| EvConfigParam (parameter : string)
| EvConfigClear
| EvChdir (path : string) (result : chdir_result)
| EvSetupGitDirectory
| EvRemoveDir (path : string) (status : Z)
| EvCreateLeadingDirs (path : string) (ok : bool)
| EvWriteFile (path contents : string)
| EvCloseObjectStore
| EvTrace2 (key value : string)
| EvStdout (text : string)
| EvStderr (text : string)
| EvWarning (msg : string)
| EvError (msg : string).

(** The configuration visible to the process: every key with its
    values, oldest first. *)
Abbreviation config_store := (gmap string (list string)).

(** The state the program threads through its calls: the repository
    context ([the_repository]), the configuration it sees, the static
    [git_retries], and the record of what was done so far. *)
Record world := {
  the_repository : repository;
  config : config_store;
  git_retries : nat;
  log : list event;
}.

Definition add_log (e : event) (w : world) : world :=
  {| the_repository := the_repository w; config := config w;
     git_retries := git_retries w; log := (log w ++ [e])%list |}.

Definition with_config (c : config_store) (w : world) : world :=
  {| the_repository := the_repository w; config := c;
     git_retries := git_retries w; log := log w |}.

Definition with_repository (r : repository) (w : world) : world :=
  {| the_repository := r; config := config w;
     git_retries := git_retries w; log := log w |}.

Inductive platform := WIN32 | APPLE | OTHER_UNIX.

(** [struct git_hash_algo], as far as [get_cache_key] uses it: the name,
    the digest size in bytes, and the digest as a function of the bytes
    fed between [init_fn] and [final_fn]. *)
Record git_hash_algo := {
  algo_name : string;
  rawsz : nat;
  digest_hex : string -> string;
}.

(** Everything [scalar.c] obtains from outside itself.  A subprocess, a
    system call or a probe answers as a function of the world at the
    time of the call, so that later answers may depend on what was done
    before. *)
Record env := {
  (* build configuration *)
  target : platform;
  (* environment variables *)
  git_env_bool : string -> bool;
  getenv : string -> option string;
  isatty_stderr : bool;
  (* subprocesses: exit status of the n-th attempt of a command; status
     and captured standard output of a piped command *)
  run_command : world -> list string -> nat -> Z;
  pipe_command : world -> list string -> Z * string;
  json_parse : string -> json_document;
  (* what a second [iterate_json] on the same iterator meets, given the
     text, the number of values the first walk showed its handler and
     whether the handler ended that walk *)
  json_parse_again : string -> nat -> bool -> json_document;
  (* the configuration store: the status with which a write is answered,
     0 when it is made and one of the error codes of config.h, negative
     or positive, when it is refused *)
  config_write_status : config_store -> string -> option string -> Z;
  config_append_status : config_store -> string -> string -> Z;
  load_config : world -> repository -> config_store;
  repo_default_branch_name : world -> string;
  (* the file system *)
  is_directory : world -> string -> bool;
  chdir : world -> string -> chdir_result;
  getcwd : world -> option string;
  absolute_path : world -> string -> string;
  realpath_forgiving : world -> string -> string;
  is_nonbare_repository_dir : world -> string -> bool;
  setup_git_directory : world -> option repository;
  discover_git_directory_reason : world -> discovery_result * string * string;
  remove_dir_recursively : world -> string -> Z;
  safe_create_leading_directories : world -> string -> bool;
  git_path : world -> string -> string;
  ignore_case : world -> bool;
  is_absolute_path : string -> bool;
  strip_last_path_component : string -> string;
  offset_1st_component : string -> nat;
  (* the file-system monitor *)
  fsmonitor_ipc__is_supported : bool;
  fsm_settings__reason_ok : repository -> bool;
  fsmonitor_ipc__listening : world -> bool;
  (* hash algorithms *)
  hash_algos : list git_hash_algo;
  hash_algo_by_name : string -> Z;
  the_hash_algo : git_hash_algo;
}.

(** ** A monad for state and process exit *)

(** A call either returns a value or ends the process ([die],
    [usage_with_options]). *)
Inductive outcome (A : Type) :=
| Ret (a : A)
| Exit (msg : string).
Arguments Ret {A} a.
Arguments Exit {A} msg.

Definition M (A : Type) : Type := world -> outcome A * world.

Definition ret {A : Type} (a : A) : M A := fun w => (Ret a, w).

Definition bind {A B : Type} (m : M A) (k : A -> M B) : M B :=
  fun w =>
    match m w with
    | (Ret a, w') => k a w'
    | (Exit msg, w') => (Exit msg, w')
    end.

Notation "x <- c1 ;; c2" := (bind c1 (fun x => c2))
  (at level 100, c1 at next level, right associativity).
Notation "c1 ;; c2" := (bind c1 (fun _ => c2))
  (at level 100, right associativity).

Definition emit (e : event) : M unit := fun w => (Ret tt, add_log e w).
Definition ask {A : Type} (f : world -> A) : M A := fun w => (Ret (f w), w).
Definition die {A : Type} (msg : string) : M A := fun w => (Exit msg, w).
Definition warning (msg : string) : M unit := emit (EvWarning msg).
(** [error()] prints and returns -1. *)
Definition error (msg : string) : M Z := emit (EvError msg) ;; ret (-1).
Definition trace2_data_string (key value : string) : M unit := emit (EvTrace2 key value).
Definition trace2_data_intmax (key : string) (value : Z) : M unit :=
  emit (EvTrace2 key (fmt_ld value)).

(** C truth of an [int]. *)
Definition truthy (z : Z) : bool := negb (z =? 0).

(** ** The configuration store *)

(** Keys name a section, an optional subsection and a variable; the
    section and the variable are compared without regard to case. *)
Fixpoint has_dot (s : string) : bool :=
  match s with
  | EmptyString => false
  | String c s' => if Ascii.eqb c "." then true else has_dot s'
  end.

Fixpoint canon_after_section (s : string) : string :=
  match s with
  | EmptyString => EmptyString
  | String c s' =>
      if Ascii.eqb c "." || has_dot s'
      then String c (canon_after_section s')
      else String (tolower c) (canon_after_section s')
  end.

Fixpoint config_key (s : string) : string :=
  match s with
  | EmptyString => EmptyString
  | String c s' =>
      if Ascii.eqb c "." then String c (canon_after_section s')
      else String (tolower c) (config_key s')
  end.

Definition store_get (c : config_store) (key : string) : option string :=
  c !! config_key key ≫= last.

Definition store_set (c : config_store) (key : string) (value : option string)
  : config_store :=
  match value with
  | Some v => <[config_key key := [v]]> c
  | None => delete (config_key key) c
  end.

Definition store_append (c : config_store) (key value : string) : config_store :=
  <[config_key key := (default [] (c !! config_key key) ++ [value])%list]> c.

Section Model.

Variable E : env.

(** Modelled from the spec: [git_config_get_string] (config.c is not
    part of these sources).  The current value of a key, if one exists;
    for a multi-valued key, the last one. *)
Definition git_config_get_string (key : string) : M (option string) :=
  ask (fun w => store_get (config w) key).

(** Modelled from the spec: [git_config_get_ulong]; found or not. *)
Definition git_config_get_ulong (key : string) : M (option string) :=
  git_config_get_string key.

(** Modelled from the spec: [git_config_set_gently].  Sets the key to
    the one value, or removes the key when the value is [NULL], and
    returns 0; a write that the store refuses leaves the store as it was
    and returns the store's status, which is not zero and may be of
    either sign (the callers test some results with [< 0] and others for
    being non-zero). *)
Definition git_config_set_gently (key : string) (value : option string) : M Z :=
  fun w =>
    let status := config_write_status E (config w) key value in
    if status =? 0
    then (Ret 0, add_log (EvConfigSet key value 0)
                   (with_config (store_set (config w) key value) w))
    else (Ret status, add_log (EvConfigSet key value status) w).

(** Modelled from the spec: [git_config_set_multivar_gently] with
    [CONFIG_REGEX_NONE] and no replacement: an append-style set, with
    the same results. *)
Definition git_config_set_multivar_gently (key value : string) : M Z :=
  fun w =>
    let status := config_append_status E (config w) key value in
    if status =? 0
    then (Ret 0, add_log (EvConfigAdd key value 0)
                   (with_config (store_append (config w) key value) w))
    else (Ret status, add_log (EvConfigAdd key value status) w).

Definition git_config_push_parameter (parameter : string) : M unit :=
  emit (EvConfigParam parameter).

Definition is_unattended : bool := git_env_bool E "Scalar_UNATTENDED".

(** The loop of [run_git]: [n] attempts remain, [res] is the result so
    far.  Returns the final result and the status of every attempt made. *)
Fixpoint run_git_loop (run : nat -> Z) (n attempts : nat) (res : Z) : Z * list Z :=
  match n with
  | O => (res, [])
  | S n' =>
      if truthy res then
        let r := run attempts in
        let '(res', statuses) := run_git_loop run n' (S attempts) r in
        (res', r :: statuses)
      else (res, [])
  end.

Definition run_git (argv : list string) : M Z :=
  fun w =>
    let '(res, statuses) := run_git_loop (run_command E w argv) (git_retries w) 0 1 in
    (Ret res, add_log (EvRunGit argv statuses) w).

Record scalar_config := {
  key : string;
  value : string;
  overwrite_on_reconfigure : bool;
}.

Definition set_scalar_config (cfg : scalar_config) (reconfigure : bool) : M Z :=
  current <- (if reconfigure && overwrite_on_reconfigure cfg
              then ret None
              else git_config_get_string (key cfg)) ;;
  if (reconfigure && overwrite_on_reconfigure cfg)
     || match current with None => true | Some _ => false end
  then
    trace2_data_string (key cfg) "created" ;;
    git_config_set_gently (key cfg) (Some (value cfg))
  else
    trace2_data_string (key cfg) "exists" ;;
    ret 0.

Definition have_fsmonitor_support : M bool :=
  ask (fun w => fsmonitor_ipc__is_supported E
                && fsm_settings__reason_ok E (the_repository w)).

Definition required (k v : string) : scalar_config :=
  {| key := k; value := v; overwrite_on_reconfigure := true |}.
Definition optional (k v : string) : scalar_config :=
  {| key := k; value := v; overwrite_on_reconfigure := false |}.

(** The table of [set_recommended_config], up to its terminator. *)
Definition recommended_config : list scalar_config :=
  ([ required "am.keepCR" "true";
    required "core.FSCache" "true";
    required "core.multiPackIndex" "true";
    required "core.preloadIndex" "true";
    required "core.untrackedCache" "true";
    required "core.logAllRefUpdates" "true";
    required "credential.https://dev.azure.com.useHttpPath" "true";
    required "credential.validate" "false";
    required "gc.auto" "0";
    required "gui.GCWarning" "false";
    required "index.skipHash" "false";
    required "index.threads" "true";
    required "index.version" "4";
    required "merge.stat" "false";
    required "merge.renames" "true";
    required "pack.useBitmaps" "false";
    required "pack.useSparse" "true";
    required "receive.autoGC" "false";
    required "feature.manyFiles" "false";
    required "feature.experimental" "false";
    required "fetch.unpackLimit" "1";
    required "fetch.writeCommitGraph" "false" ]
  ++ match target E with
     | WIN32 => [ required "http.sslBackend" "schannel" ]
     | _ => []
     end
  ++ [ optional "status.aheadBehind" "false";
       optional "commitGraph.generationVersion" "1";
       optional "core.autoCRLF" "false";
       optional "core.safeCRLF" "false";
       optional "fetch.showForcedUpdates" "false";
       optional "core.configWriteLockTimeoutMS" "150" ])%list.

Definition could_not_configure (k v : string) : string :=
  "could not configure " ++ k ++ "=" ++ v.

(** The [for] loop over the table: 0 when it ran to the end, otherwise
    the value the function returns from inside it. *)
Fixpoint set_scalar_configs (table : list scalar_config) (reconfigure : bool) : M Z :=
  match table with
  | [] => ret 0
  | cfg :: table' =>
      res <- set_scalar_config cfg reconfigure ;;
      if truthy res
      then error (could_not_configure (key cfg) (value cfg))
      else set_scalar_configs table' reconfigure
  end.

(** The migration of the deprecated core.usebuiltinfsmonitor. *)
Definition migrate_usebuiltinfsmonitor : M Z :=
  old <- git_config_get_string "core.usebuiltinfsmonitor" ;;
  match old with
  | Some v =>
      dummy <- git_config_get_string "core.fsmonitor" ;;
      r1 <- match dummy with
            | None => git_config_set_gently "core.fsmonitor" (Some v)
            | Some _ => ret 0
            end ;;
      if r1 <? 0 then error (could_not_configure "core.fsmonitor" v)
      else
        r2 <- git_config_set_gently "core.usebuiltinfsmonitor" None ;;
        if r2 <? 0 then error (could_not_configure "core.useBuiltinFSMonitor" "NULL")
        else ret 0
  | None => ret 0
  end.

Definition configure_fsmonitor (reconfigure : bool) : M Z :=
  fsm <- have_fsmonitor_support ;;
  if fsm then
    res <- set_scalar_config (optional "core.fsmonitor" "true") reconfigure ;;
    if truthy res then error (could_not_configure "core.fsmonitor" "true")
    else ret 0
  else ret 0.

(** The log.excludeDecoration setting is special because it allows for
    multiple values. *)
Definition configure_exclude_decoration : M Z :=
  current <- git_config_get_string "log.excludeDecoration" ;;
  match current with
  | None =>
      trace2_data_string "log.excludeDecoration" "created" ;;
      res <- git_config_set_multivar_gently "log.excludeDecoration" "refs/prefetch/*" ;;
      if truthy res then error "could not configure log.excludeDecoration"
      else ret 0
  | Some _ =>
      trace2_data_string "log.excludeDecoration" "exists" ;;
      ret 0
  end.

(** [set_recommended_config]: the migration, the table, the
    file-system monitor, the decoration filter; the first failure is
    returned. *)
Definition set_recommended_config (reconfigure : bool) : M Z :=
  r <- migrate_usebuiltinfsmonitor ;;
  if truthy r then ret r else
  r <- set_scalar_configs recommended_config reconfigure ;;
  if truthy r then ret r else
  r <- configure_fsmonitor reconfigure ;;
  if truthy r then ret r else
  configure_exclude_decoration.

Definition toggle_maintenance (enable : bool) : M Z :=
  ul <- git_config_get_ulong "core.configWriteLockTimeoutMS" ;;
  match ul with
  | None => git_config_push_parameter "core.configWriteLockTimeoutMS=150"
  | Some _ => ret tt
  end ;;
  run_git (if enable then ["maintenance"; "start"]
           else ["maintenance"; "unregister"; "--force"]).

Definition require_worktree : M string :=
  r <- ask the_repository ;;
  match worktree r with
  | Some wt => ret wt
  | None => die "Scalar enlistments require a worktree"
  end.

Definition add_or_remove_enlistment (add : bool) : M Z :=
  wt <- require_worktree ;;
  ul <- git_config_get_ulong "core.configWriteLockTimeoutMS" ;;
  match ul with
  | None => git_config_push_parameter "core.configWriteLockTimeoutMS=150"
  | Some _ => ret tt
  end ;;
  res <- run_git ["config"; "--global"; "--get"; "--fixed-value"; "scalar.repo"; wt] ;;
  (* If we want to add and the setting is already there, then do nothing.
     If we want to remove and the setting is not there, then do nothing. *)
  if (add && negb (truthy res)) || (negb add && truthy res) then ret 0
  else
    run_git ["config"; "--global"; (if add then "--add" else "--unset");
             (if add then "--no-fixed-value" else "--fixed-value");
             "scalar.repo"; wt].

Definition start_fsmonitor_daemon : M Z :=
  listening <- ask (fsmonitor_ipc__listening E) ;;
  if negb listening then run_git ["fsmonitor--daemon"; "start"] else ret 0.

Definition stop_fsmonitor_daemon : M Z :=
  listening <- ask (fsmonitor_ipc__listening E) ;;
  if listening then run_git ["fsmonitor--daemon"; "stop"] else ret 0.

Definition register_dir : M Z :=
  r <- add_or_remove_enlistment true ;;
  if truthy r then error "could not add enlistment" else
  r <- set_recommended_config false ;;
  if truthy r then error "could not set recommended config" else
  r <- toggle_maintenance true ;;
  (if truthy r then warning "could not turn on maintenance" else ret tt) ;;
  fsm <- have_fsmonitor_support ;;
  r <- (if fsm then start_fsmonitor_daemon else ret 0) ;;
  if truthy r then error "could not start the FSMonitor daemon" else
  ret 0.

Definition unregister_dir : M Z :=
  r1 <- toggle_maintenance false ;;
  res1 <- (if truthy r1 then error "could not turn off maintenance" else ret 0) ;;
  r2 <- add_or_remove_enlistment false ;;
  if truthy r2 then error "could not remove enlistment" else ret res1.

(** Split at the first [=]: the key, and the value when there is one. *)
Fixpoint split_assignment (s : string) : string * option string :=
  match s with
  | EmptyString => (EmptyString, None)
  | String c s' =>
      if Ascii.eqb c "=" then (EmptyString, Some s')
      else let '(k, v) := split_assignment s' in (String c k, v)
  end.

(** printf-style interface, expects `<key>=<value>` argument; the
    argument here is the formatted string. *)
Definition set_config (assignment : string) : M Z :=
  let '(k, v) := split_assignment assignment in
  git_config_set_gently k v.

(** [list_cache_server_urls]; its data is the world, for [printf]. *)
Definition list_cache_server_urls (it : json_iterator) (w : world) : Z * world :=
  if json_type_eqb (it_type it) JSON_STRING then
    match cache_server_index_of (it_key it) "].Url" with
    | Some l =>
        (0, add_log (EvStdout ("#" ++ fmt_ld l ++ ": " ++ it_string_value it
                                 ++ String newline EmptyString)) w)
    | None => (0, w)
    end
  else (0, w).

Definition can_url_support_gvfs (url : string) : bool :=
  starts_with url "https://"
  || (git_env_bool E "GIT_TEST_ALLOW_GVFS_VIA_HTTP" && starts_with url "http://").

Definition pipe (argv : list string) : M (Z * string) :=
  fun w =>
    let '(status, out) := pipe_command E w argv in
    (Ret (status, out), add_log (EvPipe argv status) w).

(** [supports_gvfs_protocol(url, cache_server_url)].  [want_url] tells
    whether [cache_server_url] is non-NULL; when it is NULL the list is
    printed to standard output.  The second component of the result is
    what was stored through [cache_server_url], if anything was. *)
Definition supports_gvfs_protocol (url : string) (want_url : bool)
  : M (Z * option (option string)) :=
  if negb (can_url_support_gvfs url) then ret (0, None) else
  piped <- pipe ["gvfs-helper"; "--remote"; url; "config"] ;;
  let '(status, out) := piped in
  if negb (truthy status) then
    let doc := json_parse E out in
    if negb want_url then
      r <- (fun w => let '(r, w') := iterate_json list_cache_server_urls doc w in
                     (Ret r, w')) ;;
      if r <? 0 then
        e <- error "JSON parse error" ;; ret (e, None)
      else ret (0, None)
    else
      let '(r, l) := iterate_json get_cache_server_index doc 0 in
      if r <? 0 then
        e <- error "JSON parse error" ;; ret (e, None)
      else
        let data := {| data_key := ".CacheServers[" ++ fmt_ld l ++ "].Url";
                       data_url := None |} in
        (* the same iterator, with another handler and other data *)
        let '(shown, ended) :=
          values_shown get_cache_server_index (doc_values doc) 0 in
        let again := json_parse_again E out shown ended in
        let '(r, data) := iterate_json get_cache_server_url again data in
        if r <? 0 then
          e <- error "JSON parse error" ;; ret (e, None)
        else ret (1, Some (data_url data))
  else
    (* error out quietly, unless we wanted to list URLs *)
    if want_url then ret (0, None)
    else e <- error "Could not access gvfs/config endpoint" ;; ret (e, None).

Definition default_cache_root (root : string) : option string :=
  if is_unattended then
    Some (strip_last_path_component E root ++ "/.scalarCache")
  else
    match target E with
    | WIN32 =>
        Some (take_chars (offset_1st_component E root) root ++ ".scalarCache")
    | APPLE =>
        match getenv E "HOME" with
        | Some (String c home) => Some (String c home ++ "/.scalarCache")
        | _ => None
        end
    | OTHER_UNIX =>
        match getenv E "XDG_CACHE_HOME" with
        | Some (String c xdg) => Some (String c xdg ++ "/scalar")
        | _ =>
            match getenv E "HOME" with
            | Some (String c home) => Some (String c home ++ "/.cache/scalar")
            | _ => None
            end
        end
    end.

(** The algorithm [get_cache_key] hashes with.  An index outside the
    table is undefined behaviour in C; the model reads [the_hash_algo]
    there. *)
Definition cache_key_hash_algo : git_hash_algo :=
  let hash_algo_index := hash_algo_by_name E "sha1" in
  if hash_algo_index <? 0 then the_hash_algo E
  else nth (Z.to_nat hash_algo_index) (hash_algos E) (the_hash_algo E).

(** The branch of [get_cache_key] taken when no key was obtained from
    the remote. *)
Definition url_cache_key (url : string) : string :=
  let hash_algo := cache_key_hash_algo in
  let downcased := strbuf_tolower url in
  "url_" ++ digest_hex hash_algo downcased.

(** Needs to run this in a worktree; gvfs-helper requires a Git repository *)
Definition get_cache_key (url : string) : M string :=
  cache_key <-
    (if negb (git_env_bool E "SCALAR_TEST_SKIP_VSTS_INFO") && can_url_support_gvfs url
     then
       piped <- pipe ["gvfs-helper"; "--remote"; url; "endpoint"; "vsts/info"] ;;
       let '(status, out) := piped in
       if negb (truthy status) then
         let '(r, id) := iterate_json get_repository_id (json_parse E out) None in
         if r <? 0 then
           warning ("JSON parse error (" ++ out ++ ")") ;; ret None
         else
           match id with
           | Some id => ret (Some ("id_" ++ id))
           | None => ret None
           end
       else ret None
     else ret None) ;;
  match cache_key with
  | Some k => ret k
  | None => ret (url_cache_key url)
  end.

(** One turn of the loop of [remote_default_branch] on the line at hand:
    [None] to go on with the next line, otherwise what the function
    returns.  [p] and [p'] are the source's [p] within the line, [len] is
    the line's length once the suffix is stripped, so that [eol - p] is
    [len] less the offset of [p]. *)
Definition symref_line (line : string) : option (M (option string)) :=
  match skip_prefix line "ref: ", strip_suffix line (String tab "HEAD") with
  | Some p, Some stripped =>
      let len := String.length stripped in
      match skip_prefix p "refs/heads/" with
      | Some p' =>
          let branch :=
            take_chars (len - (String.length line - String.length p')) p' in
          Some (ret (Some branch))
      | None =>
          let shown :=
            take_chars (len - (String.length line - String.length p)) p in
          Some (error ("remote HEAD is not a branch: '" ++ shown ++ "'") ;; ret None)
      end
  | _, _ => None
  end.

Fixpoint scan_symref (lines : list string) : option (M (option string)) :=
  match lines with
  | [] => None
  | line :: lines' =>
      match symref_line line with
      | Some r => Some r
      | None => scan_symref lines'
      end
  end.

Definition remote_default_branch (url : string) : M (option string) :=
  piped <- pipe ["ls-remote"; "--symref"; url; "HEAD"] ;;
  let '(status, out) := piped in
  match (if negb (truthy status) then scan_symref (split_lines out) else None) with
  | Some r => r
  | None =>
      warning "failed to get default branch name from remote; using local default" ;;
      piped <- pipe ["symbolic-ref"; "--short"; "HEAD"] ;;
      let '(status, out) := piped in
      if negb (truthy status) then ret (Some (strbuf_trim out))
      else error "failed to get default branch name" ;; ret None
  end.

Definition is_dir_sep (c : ascii) : bool :=
  Ascii.eqb c "/" ||
  match target E with WIN32 => Ascii.eqb c "\" | _ => false end.

Definition cmp_icase_eq (icase : bool) (a b : ascii) : bool :=
  Ascii.eqb a b || (icase && Ascii.eqb (tolower a) (tolower b)).

(** Modelled from the spec: [dir_inside_of] (dir.c is not part of these
    sources).  For two normalised paths, -1 when [subdir] is outside
    [dir]; otherwise, when [subdir] is equal to or contained within
    [dir], the offset in [subdir] of its part relative to [dir].  [prev]
    is the pair of characters just stepped over. *)
Fixpoint dir_inside_of_from (icase : bool) (prev : option (ascii * ascii))
  (offset : Z) (subdir dir : string) : Z :=
  match dir, subdir with
  | String d dir', String s subdir' =>
      if cmp_icase_eq icase d s
      then dir_inside_of_from icase (Some (d, s)) (offset + 1) subdir' dir'
      else -1
  | String _ _, EmptyString => -1
  | EmptyString, EmptyString => offset
  | EmptyString, String s _ =>
      match prev with
      | Some (d1, s1) =>
          if is_dir_sep d1 then (if is_dir_sep s1 then offset else -1)
          else if is_dir_sep s then offset + 1 else -1
      | None => -1
      end
  end.

Definition dir_inside_of (subdir dir : string) : M Z :=
  icase <- ask (ignore_case E) ;;
  ret (dir_inside_of_from icase None 0 subdir dir).

Definition do_chdir (path : string) : M chdir_result :=
  fun w => let r := chdir E w path in (Ret r, add_log (EvChdir path r) w).

Definition chdir_failed (r : chdir_result) : bool :=
  match r with CHDIR_OK => false | _ => true end.

Definition do_remove_dir_recursively (path : string) : M Z :=
  fun w =>
    let r := remove_dir_recursively E w path in
    (Ret r, add_log (EvRemoveDir path r) w).

(** [git_config(fn, data)] and the first read after [git_config_clear]:
    the configuration of the current repository context is read anew. *)
Definition git_config_load : M unit :=
  fun w => (Ret tt, with_config (load_config E w (the_repository w)) w).

Definition do_setup_git_directory : M unit :=
  fun w =>
    match setup_git_directory E w with
    | Some r =>
        let w' := with_repository r (add_log EvSetupGitDirectory w) in
        (Ret tt, with_config (load_config E w' r) w')
    | None => (Exit "not a git repository", add_log EvSetupGitDirectory w)
    end.

Definition ensure_absolute_path (path : string) : M string :=
  if is_absolute_path E path then ret path
  else ask (fun w => realpath_forgiving E w path).

Definition delete_enlistment (enlistment : string) : M Z :=
  r <- unregister_dir ;;
  if truthy r then error "failed to unregister repository" else
  r <- match target E with
       | WIN32 =>
           (* Change the current directory to one outside of the enlistment
              so that we may delete everything underneath it. *)
           let offset := offset_1st_component E enlistment in
           let tail := drop_chars offset enlistment in
           let parent :=
             match before_last_sep is_dir_sep tail with
             | Some before => take_chars offset enlistment ++ before
             | None => take_chars offset enlistment
             end in
           cd <- do_chdir parent ;;
           if chdir_failed cd then error ("could not switch to '" ++ parent ++ "'")
           else ret 0
       | _ => ret 0
       end ;;
  if truthy r then ret r else
  fsm <- have_fsmonitor_support ;;
  r <- (if fsm then stop_fsmonitor_daemon else ret 0) ;;
  if truthy r then error "failed to stop the FSMonitor daemon" else
  r <- do_remove_dir_recursively enlistment ;;
  if truthy r then error "failed to delete enlistment directory" else
  ret 0.

Definition init_shared_object_cache (url local_cache_root : string) : M Z :=
  cache_key <- get_cache_key url ;;
  let shared_cache_path := local_cache_root ++ "/" ++ cache_key in
  r <- set_config ("gvfs.sharedCache=" ++ shared_cache_path) ;;
  if truthy r then error "could not configure shared cache" else
  let buf := shared_cache_path ++ "/pack" in
  ok <- (fun w => let ok := safe_create_leading_directories E w buf in
                  (Ret ok, add_log (EvCreateLeadingDirs buf ok) w)) ;;
  if negb ok then error ("could not initialize '" ++ buf ++ "'") else
  path <- ask (fun w => git_path E w "objects/info/alternates") ;;
  emit (EvWriteFile path (shared_cache_path ++ String newline EmptyString)) ;;
  ret 0.

(** *** [cmd_clone] *)

(** The variables [parse_options] fills for [scalar clone], and the
    arguments it leaves. *)
Record clone_options := {
  opt_branch : option string;
  opt_full_clone : bool;
  opt_single_branch : bool;
  opt_src : bool;
  opt_cache_server_url : option string;
  opt_local_cache_root : option string;
  clone_args : list string;
}.

Definition strip_git_suffix (s : string) : string :=
  match strip_suffix s ".git" with
  | Some s' => s'
  | None => s
  end.

(** The URL and the enlistment, from the arguments. *)
Definition clone_target (args : list string) : M (string * string) :=
  match args with
  | [url; enlistment] => ret (url, enlistment)
  | [url] =>
      (* Strip trailing slashes, if any; strip suffix `.git`, if any *)
      let buf := strip_git_suffix (trim_trailing is_dir_sep url) in
      match after_last_sep is_dir_sep buf with
      | None => die ("cannot deduce worktree name from '" ++ url ++ "'")
      | Some enlistment => ret (url, enlistment)
      end
  | _ => die "You must specify a repository to clone."
  end.

(** The check that the local cache is not inside the new worktree. *)
Definition clone_cache_root_guard (local_cache_root dir enlistment : string) : M unit :=
  inside <- dir_inside_of local_cache_root dir ;;
  if 0 <=? inside then
    cd <- do_chdir "../.." ;;
    (if chdir_failed cd then
       die ("'--local-cache-path' cannot be inside the src folder;" ++
            String newline ("Could not remove '" ++ enlistment ++ "'"))
     else
       r <- do_remove_dir_recursively enlistment ;;
       if r <? 0 then
         die ("'--local-cache-path' cannot be inside the src folder;" ++
              String newline ("Could not remove '" ++ enlistment ++ "'"))
       else ret tt) ;;
    die "'--local-cache-path' cannot be inside the src folder"
  else ret tt.

(** [gvfs_protocol], and the default cache server when one was found. *)
Definition clone_negotiate (cache_server_url : option string) (url : string)
  : M (bool * option string) :=
  match cache_server_url with
  | Some _ => ret (true, None)
  | None =>
      r <- supports_gvfs_protocol url true ;;
      let '(res, stored) := r in
      ret (truthy res, match stored with Some u => u | None => None end)
  end.

Definition fetch_argv (show_progress : bool) : list string :=
  ["fetch"; "--quiet"; (if show_progress then "--progress" else "--no-progress");
   "origin"].

(** The fetch, its fallback, and then the rest of the clone [k]. *)
Definition clone_fetch (gvfs_protocol show_progress : bool) (k : M Z) : M Z :=
  res <- run_git (fetch_argv show_progress) ;;
  if truthy res then
    if gvfs_protocol then error "failed to prefetch commits and trees"
    else
      warning "partial clone failed; attempting full clone" ;;
      r1 <- set_config "remote.origin.promisor" ;;
      r2 <- (if truthy r1 then ret r1 else set_config "remote.origin.partialCloneFilter") ;;
      if truthy r2 then error "could not configure for full clone"
      else
        res <- run_git (fetch_argv show_progress) ;;
        if truthy res then ret res else k
  else k.

(** From the branch configuration to the registration. *)
Definition clone_finish (branch : string) : M Z :=
  res <- set_config ("branch." ++ branch ++ ".remote=origin") ;;
  if truthy res then ret res else
  res <- set_config ("branch." ++ branch ++ ".merge=refs/heads/" ++ branch) ;;
  if truthy res then ret res else
  res <- run_git ["checkout"; "-f"; "-t"; "origin/" ++ branch] ;;
  if truthy res then ret res else
  register_dir.

(** The [set_config] calls of a condition joined by [||]: they run in
    order up to the first that fails. *)
Fixpoint set_config_all (assignments : list string) : M Z :=
  match assignments with
  | [] => ret 0
  | a :: rest =>
      r <- set_config a ;;
      if truthy r then ret r else set_config_all rest
  end.

(** From the negotiation on. *)
Definition clone_configure_and_fetch (o : clone_options)
  (url dir local_cache_root branch : string) : M Z :=
  negotiated <- clone_negotiate (opt_cache_server_url o) url ;;
  let '(gvfs_protocol, default_cache_server_url) := negotiated in
  res <-
    (if gvfs_protocol then
       res <- init_shared_object_cache url local_cache_root ;;
       if truthy res then ret res else
       let cache_server_url :=
         match opt_cache_server_url o with
         | Some u => Some u
         | None => default_cache_server_url
         end in
       r <- set_config_all ["core.useGVFSHelper=true"; "core.gvfs=150";
                            "http.version=HTTP/1.1"] ;;
       if truthy r then error "could not turn on GVFS helper" else
       match cache_server_url with
       | Some u =>
           r <- set_config ("gvfs.cache-server=" ++ u) ;;
           if truthy r then error "could not configure cache server" else
           emit (EvStderr ("Cache server URL: " ++ u ++ String newline EmptyString)) ;;
           ret 0
       | None => ret 0
       end
     else
       r <- set_config_all ["core.useGVFSHelper=false"; "remote.origin.promisor=true";
                            "remote.origin.partialCloneFilter=blob:none"] ;;
       if truthy r then error ("could not configure partial clone in '" ++ dir ++ "'")
       else ret 0) ;;
  if truthy res then ret res else
  res <- (if negb (opt_full_clone o)
          then run_git ["sparse-checkout"; "init"; "--cone"]
          else ret 0) ;;
  if truthy res then ret res else
  r <- set_recommended_config false ;;
  if truthy r then error ("could not configure '" ++ dir ++ "'") else
  clone_fetch gvfs_protocol (isatty_stderr E) (clone_finish branch).

(** [cmd_clone] once inside the new repository: from the check of the
    cache root on. *)
Definition clone_in_repository (o : clone_options)
  (url enlistment dir local_cache_root : string) : M Z :=
  (* This dir_inside_of() call relies on git_config() having parsed the
     newly-initialized repository config's core.ignoreCase value. *)
  clone_cache_root_guard local_cache_root dir enlistment ;;
  (* common-main already logs argv *)
  trace2_data_intmax "unattended" (if is_unattended then 1 else 0) ;;
  branch <- match opt_branch o with
            | Some b => ret (Some b)
            | None => remote_default_branch url
            end ;;
  match branch with
  | None => error ("failed to get default branch for '" ++ url ++ "'")
  | Some branch =>
      r <- set_config_all
             ["remote.origin.url=" ++ url;
              "remote.origin.fetch=+refs/heads/"
                ++ (if opt_single_branch o then branch else "*")
                ++ ":refs/remotes/origin/"
                ++ (if opt_single_branch o then branch else "*")] ;;
      if truthy r then error ("could not configure remote in '" ++ dir ++ "'") else
      r <- set_config "credential.https://dev.azure.com.useHttpPath=true" ;;
      if truthy r then error "could not configure credential.useHttpPath" else
      clone_configure_and_fetch o url dir local_cache_root branch
  end.

(** [cmd_clone] once the enlistment, the worktree [dir] and the local
    cache root are known: the repository is initialised and entered. *)
Definition clone_into (o : clone_options)
  (url enlistment dir local_cache_root : string) : M Z :=
  buf <- match opt_branch o with
         | Some b => ret ("init.defaultBranch=" ++ b)
         | None =>
             b <- ask (repo_default_branch_name E) ;;
             ret ("init.defaultBranch=" ++ b)
         end ;;
  res <- run_git ["-c"; buf; "init"; "--"; dir] ;;
  if truthy res then ret res else
  cd <- do_chdir dir ;;
  if chdir_failed cd then error ("could not switch to '" ++ dir ++ "'") else
  do_setup_git_directory ;;
  git_config_load ;;
  clone_in_repository o url enlistment dir local_cache_root.

Definition cmd_clone (o : clone_options) : M Z :=
  target <- clone_target (clone_args o) ;;
  let '(url, enlistment) := target in
  exists_already <- ask (fun w => is_directory E w enlistment) ;;
  if exists_already then die ("directory '" ++ enlistment ++ "' exists already") else
  enlistment <- ensure_absolute_path enlistment ;;
  let dir := if opt_src o then enlistment ++ "/src" else enlistment in
  local_cache_root <-
    match opt_local_cache_root o with
    | None => ret (default_cache_root enlistment)
    | Some path => abs <- ensure_absolute_path path ;; ret (Some abs)
    end ;;
  match local_cache_root with
  | None => die "could not determine local cache root"
  | Some local_cache_root => clone_into o url enlistment dir local_cache_root
  end.

(** *** [cmd_reconfigure] *)

Definition remove_deleted_enlistment (path : string) : M Z :=
  path <- ask (fun w => realpath_forgiving E w path) ;;
  r1 <- run_git ["config"; "--global"; "--unset"; "--fixed-value"; "scalar.repo"; path] ;;
  let res := if r1 <? 0 then -1 else 0 in
  r2 <- run_git ["config"; "--global"; "--unset"; "--fixed-value"; "maintenance.repo"; path] ;;
  let res := if r2 <? 0 then -1 else res in
  ret res.

Definition how_to_unregister (dir : string) : string :=
  "to unregister this repository from Scalar, run" ++ String newline
    (String tab ("git config --global --unset --fixed-value scalar.repo " ++
                 String (ascii_of_N 34) (dir ++ String (ascii_of_N 34) EmptyString))).

(** The body of the loop over the registered enlistments, up to the
    label [loop_end]: the value of [succeeded] there. *)
Definition reconfigure_one (dir : string) : M bool :=
  cd <- do_chdir dir ;;
  match cd with
  | CHDIR_EOTHER =>
      warning ("could not switch to '" ++ dir ++ "'") ;;
      ret false
  | CHDIR_ENOENT =>
      r <- remove_deleted_enlistment dir ;;
      if truthy r then
        error ("could not remove stale scalar.repo '" ++ dir ++ "'") ;;
        ret false
      else
        warning ("removed stale scalar.repo '" ++ dir ++ "'") ;;
        ret true
  | CHDIR_OK =>
      found <- ask (discover_git_directory_reason E) ;;
      let '(reason, commondir_buf, gitdir_buf) := found in
      let configure (succeeded : bool) : M bool :=
        emit EvConfigClear ;;
        (fun w =>
           let r := {| worktree := None; gitdir := gitdir_buf;
                       commondir := commondir_buf |} in
           let w' := with_repository r w in
           (Ret tt, with_config (load_config E w' r) w')) ;;
        r1 <- set_recommended_config true ;;
        let succeeded := if 0 <=? r1 then true else succeeded in
        r2 <- toggle_maintenance true ;;
        let succeeded := if 0 <=? r2 then true else succeeded in
        ret succeeded in
      match reason with
      | GIT_DIR_INVALID_OWNERSHIP =>
          warning ("repository at '" ++ dir ++ "' has different owner") ;;
          ret false
      | GIT_DIR_INVALID_GITFILE
      | GIT_DIR_INVALID_FORMAT =>
          warning ("repository at '" ++ dir ++ "' has a format issue") ;;
          ret false
      | GIT_DIR_DISCOVERED =>
          configure true
      | GIT_DIR_OTHER =>
          warning ("repository not found in '" ++ dir ++ "'") ;;
          configure false
      end
  end.

(** The loop itself: [res] is the result so far. *)
Fixpoint reconfigure_all (scalar_repos : list string) (res : Z) : M Z :=
  match scalar_repos with
  | [] => ret res
  | dir :: rest =>
      succeeded <- reconfigure_one dir ;;
      res <- (if negb succeeded then
                warning (how_to_unregister dir) ;; ret (-1)
              else ret res) ;;
      reconfigure_all rest res
  end.

(** [git_config(get_scalar_repos, &scalar_repos)]: every value of
    scalar.repo. *)
Definition get_scalar_repos : M (list string) :=
  ask (fun w => default [] (config w !! "scalar.repo")).

(** *** Locating the enlistment *)

Definition setup_enlistment_directory (args : list string) : M string :=
  match args with
  | _ :: _ :: _ => die "usage"
  | _ =>
      path <- match args with
              | arg :: _ =>
                  path <- ask (fun w => absolute_path E w arg) ;;
                  isdir <- ask (fun w => is_directory E w path) ;;
                  if negb isdir then die ("'" ++ path ++ "' does not exist") else
                  cd <- do_chdir path ;;
                  if chdir_failed cd then die ("could not switch to '" ++ path ++ "'")
                  else ret path
              | [] =>
                  cwd <- ask (getcwd E) ;;
                  match cwd with
                  | Some path => ret path
                  | None => die "need a working directory"
                  end
              end ;;
      let path := trim_trailing is_dir_sep path in
      (* check if currently in enlistment root with src/ workdir *)
      let src := path ++ "/src" in
      nonbare <- ask (fun w => is_nonbare_repository_dir E w src) ;;
      (if nonbare then
         cd <- do_chdir src ;;
         if chdir_failed cd then die ("could not switch to '" ++ src ++ "'")
         else ret tt
       else ret tt) ;;
      do_setup_git_directory ;;
      wt <- require_worktree ;;
      ret (if nonbare then path else wt)
  end.

Definition cmd_reconfigure (all : bool) (args : list string) : M Z :=
  if negb all then
    setup_enlistment_directory args ;;
    set_recommended_config true
  else
    match args with
    | _ :: _ => die "--all or <enlistment>, but not both"
    | [] =>
        scalar_repos <- get_scalar_repos ;;
        reconfigure_all scalar_repos 0
    end.

(** *** [cmd_delete] *)


End Model.

(** ** The other commands *)

(** The commands below take what [parse_options] leaves of the command
    line, as [cmd_clone] and [cmd_reconfigure] do; [cmd_list] does not
    call it and takes its [argv] whole. *)

(** [struct remote], as far as [cmd_cache_server] reads it. *)
Record remote := {
  remote_url : list string;
}.

Section Commands.

Variable E : env.

(** [remote_get(name)]: the remote of that name, or the default remote
    for [NULL]; remote.c is not part of these sources, so the lookup is
    passed in. *)
Variable remote_get : world -> option string -> option remote.




Definition cmd_list (argv : list string) : M Z :=
  match argv with
  | [_] =>
      r <- run_git E ["config"; "--global"; "--get-all"; "scalar.repo"] ;;
      if r <? 0 then ret (-1) else ret 0
  | _ => die "`scalar list` does not take arguments"
  end.

Definition cmd_register (args : list string) : M Z :=
  setup_enlistment_directory E args ;;
  register_dir E.

(** The table of [cmd_run], up to its terminator: the argument and the
    maintenance task it stands for. *)
Definition tasks : list (string * option string) :=
  [ ("config", None);
    ("commit-graph", Some "commit-graph");
    ("fetch", Some "prefetch");
    ("loose-objects", Some "loose-objects");
    ("pack-files", Some "incremental-repack") ].

Definition run_usage : string :=
  fold_left (fun buf t => buf ++ String tab (fst t ++ String newline EmptyString))
    tasks
    ("scalar run <task> [<enlistment>]" ++ String newline
       ("Tasks:" ++ String newline EmptyString)).

(** The search loop of [cmd_run]: the index at which it stops, counted
    from [i]. *)
Fixpoint find_task (table : list (string * option string)) (arg : string) (i : nat)
  : nat :=
  match table with
  | [] => i
  | t :: table' => if String.eqb (fst t) arg then i else find_task table' arg (S i)
  end.

(** [run_git("maintenance", "run", "--task", task, NULL)]: a [NULL]
    task ends the argument list. *)
Definition maintenance_run (task : option string) : M Z :=
  run_git E (["maintenance"; "run"; "--task"]
             ++ match task with Some t => [t] | None => [] end)%list.

(** The last loop of [cmd_run], over the entries that follow the
    first. *)
Fixpoint run_tasks (table : list (string * option string)) : M Z :=
  match table with
  | [] => ret 0
  | t :: table' =>
      r <- maintenance_run (snd t) ;;
      if truthy r then ret (-1) else run_tasks table'
  end.

Definition cmd_run (args : list string) : M Z :=
  match args with
  | [] => die run_usage
  | arg :: rest =>
      i <- (if String.eqb "all" arg then ret (-1)
            else
              let i := find_task tasks arg 0 in
              match nth_error tasks i with
              | None =>
                  if (0 <? i)%nat then
                    error ("no such task: '" ++ arg ++ "'") ;;
                    die run_usage
                  else ret (Z.of_nat i)
              | Some _ => ret (Z.of_nat i)
              end) ;;
      setup_enlistment_directory E rest ;;
      if i =? 0 then register_dir E
      else if 0 <? i then
        maintenance_run (match nth_error tasks (Z.to_nat i) with
                         | Some t => snd t
                         | None => None
                         end)
      else
        r <- register_dir E ;;
        if truthy r then ret (-1) else run_tasks (tl tasks)
  end.

Definition strbuf_strip_suffix (s suffix : string) : string :=
  match strip_suffix s suffix with
  | Some s' => s'
  | None => s
  end.

Definition cmd_unregister (args : list string) : M Z :=
  (* Be forgiving when the enlistment or worktree does not even exist any
     longer; This can be the case if a user deleted the worktree by
     mistake and _still_ wants to unregister the thing. *)
  forgiven <-
    match args with
    | [arg] =>
        let src_path := arg ++ "/src/.git" in
        let workdir_path := arg ++ "/.git" in
        missing <- ask (fun w => negb (is_directory E w src_path)
                                 && negb (is_directory E w workdir_path)) ;;
        if missing then
          (* remove possible matching registrations *)
          let res := -1 in
          r <- remove_deleted_enlistment E (strbuf_strip_suffix src_path "/.git") ;;
          let res := if truthy r && truthy res then 1 else 0 in
          r <- remove_deleted_enlistment E (strbuf_strip_suffix workdir_path "/.git") ;;
          let res := if truthy r && truthy res then 1 else 0 in
          ret (Some res)
        else ret None
    | _ => ret None
    end ;;
  match forgiven with
  | Some res => ret res
  | None =>
      setup_enlistment_directory E args ;;
      unregister_dir E
  end.

Definition cmd_help (args : list string) : M Z :=
  match args with
  | [] => run_git E ["help"; "scalar"]
  | _ => die "usage"
  end.

Fixpoint strchr (s : string) (c : ascii) : bool :=
  match s with
  | EmptyString => false
  | String c' s' => Ascii.eqb c' c || strchr s' c
  end.

(** [cmd_cache_server]: [get], [set] and [list] are the variables that
    [parse_options] fills; [list] is [Some None] when --list was given
    without a remote, which the source recognises by the address of
    [default_remote]. *)
Definition cmd_cache_server (args : list string) (get : bool) (set : option string)
  (list : option (option string)) : M Z :=
  if 1 <? (if get then 1 else 0)
          + match set with Some _ => 1 | None => 0 end
          + match list with Some _ => 1 | None => 0 end
  then die "--get/--set/--list are mutually exclusive" else
  setup_enlistment_directory E args ;;
  match list, set with
  | Some list, _ =>
      let name := match list with Some l => l | None => "(default)" end in
      let lookup :=
        match list with
        | None => true
        | Some l => negb (strchr l "/")
        end in
      found <-
        (if lookup then
           (* Look up remote *)
           r <- ask (fun w => remote_get w list) ;;
           match r with
           | None =>
               error ("no such remote: '" ++ name ++ "'") ;;
               ret (inl 1)
           | Some r =>
               match remote_url r with
               | [] =>
                   e <- error ("remote '" ++ name ++ "' has no URLs") ;;
                   ret (inl e)
               | url :: _ => ret (inr url)
               end
           end
         else ret (inr name)) ;;
      match found with
      | inl res => ret res
      | inr url =>
          r <- supports_gvfs_protocol E url false ;;
          ret (if truthy (fst r) then 1 else 0)
      end
  | None, Some url =>
      res <- set_config E ("gvfs.cache-server=" ++ url) ;;
      ret (if truthy res then 1 else 0)
  | None, None =>
      url <- git_config_get_string "gvfs.cache-server" ;;
      emit (EvStdout ("Using cache server: "
                      ++ match url with Some u => u | None => "(undefined)" end
                      ++ String newline EmptyString)) ;;
      ret 0
  end.

End Commands.

(** * Vocabulary of the properties *)

(** ** Configuration states *)

(** A key has a value. *)
Definition present (c : config_store) (k : string) : Prop :=
  is_Some (store_get c k).


Definition same_store (w1 w2 : world) : Prop :=
  the_repository w2 = the_repository w1 ∧ config w2 = config w1.

Definition legacy_key : string := "core.usebuiltinfsmonitor".



(** Sequencing as the source does: go on only after a zero result. *)
Definition and_then (f g : M Z) : M Z :=
  r <- f ;; if truthy r then ret r else g.



(** What follows the migration in [set_recommended_config]. *)
Definition after_migration (E : env) (reconfigure : bool) : M Z :=
  and_then (set_scalar_configs E (recommended_config E) reconfigure)
    (and_then (configure_fsmonitor E reconfigure) (configure_exclude_decoration E)).

(** ** Documents and the helper's replies *)

(** The string at a key path: the contents of the first string value
    whose path is the given one up to case. *)
Definition string_at (doc : json_document) (path : string) : option string :=
  it_string_value <$>
    find (λ it, json_type_eqb (it_type it) JSON_STRING && strcaseeq path (it_key it))
         (doc_values doc).

(** No value of the document is a boolean true at a path
    .CacheServers[N].GlobalDefault. *)
Definition no_global_default (doc : json_document) : Prop :=
  Forall (λ it, it_type it = JSON_TRUE →
                cache_server_index_of (it_key it) "].GlobalDefault" = None)
         (doc_values doc).

(** What the second walk of [supports_gvfs_protocol] meets: the reply,
    as json-parser.c presents it to the iterator that has just been
    used to look for the default server. *)
Definition after_index_search (E : env) (out : string) : json_document :=
  let '(shown, ended) :=
    values_shown get_cache_server_index (doc_values (json_parse E out)) 0 in
  json_parse_again E out shown ended.

Definition vsts_info_argv (url : string) : list string :=
  ["gvfs-helper"; "--remote"; url; "endpoint"; "vsts/info"].

Definition gvfs_config_argv (url : string) : list string :=
  ["gvfs-helper"; "--remote"; url; "config"].

(** The remote-identity query is made, the helper succeeds, and its
    reply carries the identity [id]. *)
Definition identity_query_succeeds (E : env) (url : string) (w : world) (id : string)
  : Prop :=
  git_env_bool E "SCALAR_TEST_SKIP_VSTS_INFO" = false
  ∧ can_url_support_gvfs E url = true
  ∧ fst (pipe_command E w (vsts_info_argv url)) = 0
  ∧ string_at (json_parse E (snd (pipe_command E w (vsts_info_argv url))))
      ".repository.id" = Some id.

(** The query is not made: disabled for testing, or the URL's scheme
    does not qualify. *)
Definition identity_query_skipped (E : env) (url : string) : Prop :=
  git_env_bool E "SCALAR_TEST_SKIP_VSTS_INFO" = true
  ∨ can_url_support_gvfs E url = false.

(** The query gives no identity: the helper fails, or its reply has no
    identity (a reply that is not well-formed included). *)
Definition identity_query_fails (E : env) (url : string) (w : world) : Prop :=
  fst (pipe_command E w (vsts_info_argv url)) ≠ 0
  ∨ string_at (json_parse E (snd (pipe_command E w (vsts_info_argv url))))
      ".repository.id" = None.

(** ** Letter case *)

(** [b] is the lower-case form of the capital [a]. *)
Definition case_pair (a b : ascii) : Prop := is_upper a = true ∧ b = tolower a.

(** Two strings that differ only in letter case. *)
Inductive same_up_to_case : string → string → Prop :=
| same_case_nil : same_up_to_case EmptyString EmptyString
| same_case_cons (a b : ascii) (s t : string) :
    a = b ∨ case_pair a b ∨ case_pair b a →
    same_up_to_case s t →
    same_up_to_case (String a s) (String b t).

(** ** Hash algorithms *)

(** An algorithm of the table with the largest digest. *)
Definition strongest_available (E : env) (a : git_hash_algo) : Prop :=
  a ∈ hash_algos E ∧ ∀ b, b ∈ hash_algos E → (rawsz b ≤ rawsz a)%nat.

(** ** The remote's HEAD *)

Definition ls_remote_argv (url : string) : list string :=
  ["ls-remote"; "--symref"; url; "HEAD"].

Definition symbolic_ref_argv : list string := ["symbolic-ref"; "--short"; "HEAD"].

(** The target of a line [ref: <target>], a tab, [HEAD]. *)
Definition symref_target (line : string) : option string :=
  match skip_prefix line "ref: " with
  | Some p => strip_suffix p (String tab "HEAD")
  | None => None
  end.

(** The target of the first such line. *)
Fixpoint first_symref (lines : list string) : option string :=
  match lines with
  | [] => None
  | line :: lines' =>
      match symref_target line with
      | Some target => Some target
      | None => first_symref lines'
      end
  end.

(** What the remote says of its HEAD: the target of the first symbolic
    reference line of a successful reply. *)
Definition remote_head (E : env) (url : string) (w : world) : option string :=
  let reply := pipe_command E w (ls_remote_argv url) in
  if fst reply =? 0 then first_symref (split_lines (snd reply)) else None.

(** What a symbolic reference to [target] makes [remote_default_branch]
    return. *)
Definition answer_for (target : string) : M (option string) :=
  match skip_prefix target "refs/heads/" with
  | Some name => ret (Some name)
  | None => error ("remote HEAD is not a branch: '" ++ target ++ "'") ;; ret None
  end.

(** ** What a command does to the outside *)

(** Every event that [f] adds to the record satisfies [P]. *)
Definition emits {A : Type} (P : event → Prop) (f : M A) : Prop :=
  ∀ w o w', f w = (o, w') → ∃ evs, log w' = (log w ++ evs)%list ∧ Forall P evs.

(** The events of registration and reconciliation: configuration
    writes, traces, errors, and the git commands config, maintenance and
    fsmonitor--daemon. *)
Definition housekeeping (e : event) : Prop :=
  match e with
  | EvRunGit (cmd :: _) _ =>
      cmd = "config" ∨ cmd = "maintenance" ∨ cmd = "fsmonitor--daemon"
  | EvConfigSet _ _ _ | EvConfigAdd _ _ _ | EvConfigParam _ | EvConfigClear
  | EvTrace2 _ _ | EvError _ => True
  | EvWarning msg => msg = "could not turn on maintenance"
  | _ => False
  end.

(** A fetch: a [run_git] whose command is fetch. *)
Definition is_fetch (e : event) : bool :=
  match e with
  | EvRunGit (cmd :: _) _ => String.eqb cmd "fetch"
  | _ => false
  end.


(** ** The clone *)

Definition nested_cache_msg : string :=
  "'--local-cache-path' cannot be inside the src folder".

Definition nested_cache_unremoved_msg (enlistment : string) : string :=
  "'--local-cache-path' cannot be inside the src folder;" ++
  String newline ("Could not remove '" ++ enlistment ++ "'").

Definition init_argv (E : env) (o : clone_options) (w : world) (dir : string)
  : list string :=
  ["-c";
   "init.defaultBranch=" ++ match opt_branch o with
                            | Some b => b
                            | None => repo_default_branch_name E w
                            end;
   "init"; "--"; dir].

(** The world once [setup_git_directory] has found the repository [r]
    and its configuration has been read. *)
Definition entered (E : env) (r : repository) (w : world) : world :=
  let w' := with_repository r (add_log EvSetupGitDirectory w) in
  let w'' := with_config (load_config E w' r) w' in
  with_config (load_config E w'' r) w''.

(** What [cmd_clone] has worked out when it runs [git init]: the URL,
    the absolute path of the enlistment, the worktree [dir] and the
    local cache root; nothing when the command has ended before that. *)
Definition clone_plan (E : env) (o : clone_options) (w : world)
  : option (string * string * string * string) :=
  let resolve path :=
    if is_absolute_path E path then path else realpath_forgiving E w path in
  match clone_target E (clone_args o) w with
  | (Ret (url, enlistment), _) =>
      if is_directory E w enlistment then None
      else
        let enlistment := resolve enlistment in
        let dir := if opt_src o then enlistment ++ "/src" else enlistment in
        match opt_local_cache_root o with
        | None =>
            match default_cache_root E enlistment with
            | Some root => Some (url, enlistment, dir, root)
            | None => None
            end
        | Some path => Some (url, enlistment, dir, resolve path)
        end
  | (Exit _, _) => None
  end.

Definition partial_clone_warning : event :=
  EvWarning "partial clone failed; attempting full clone".

(** The result of [run_git], from the statuses of its attempts: the
    status of the last one, and 1 when no attempt was made. *)
Definition run_git_result (statuses : list Z) : Z := List.last statuses 1.

(** The fetch of [cmd_clone], with the statuses of its attempts. *)
Definition fetch_event (E : env) (statuses : list Z) : event :=
  EvRunGit (fetch_argv (isatty_stderr E)) statuses.

(** The switch between the two ways of cloning, once written. *)
Definition helper_switch (value : string) : event :=
  EvConfigSet "core.useGVFSHelper" (Some value) 0.

(** The record shows a clone configured for the accelerated path: the
    helper has been turned on. *)
Definition configured_accelerated (evs : list event) : Prop :=
  helper_switch "true" ∈ evs.

(** The record shows a clone configured as a partial clone: the helper
    has been turned off, and the promisor and the filter written. *)
Definition configured_partial (evs : list event) : Prop :=
  helper_switch "false" ∈ evs
  ∧ EvConfigSet "remote.origin.promisor" (Some "true") 0 ∈ evs
  ∧ EvConfigSet "remote.origin.partialCloneFilter" (Some "blob:none") 0 ∈ evs.

Definition is_helper_switch (e : event) : bool :=
  match e with
  | EvConfigSet k _ _ => String.eqb k "core.useGVFSHelper"
  | _ => false
  end.

(** Neither a fetch nor a write of the switch. *)
Definition quiet (e : event) : Prop :=
  is_fetch e = false ∧ is_helper_switch e = false.

(** Neither a fetch nor the switch set to [value]. *)
Definition avoids (value : string) (e : event) : Prop :=
  is_fetch e = false ∧ e ≠ helper_switch value.

Definition full_clone_error : event :=
  EvError "could not configure for full clone".

(** What follows the failed first fetch of a partial clone, with the
    result of the clone: the warning, then the removal of the promisor
    and of the filter; the clone fails at the first of the two that the
    store refuses; when both are removed the fetch is run once more,
    and the clone fails with its status if that is not zero, and goes on
    otherwise, without another fetch. *)
Inductive fallback (E : env) : outcome Z → list event → Prop :=
| fallback_promisor_kept (s : Z) :
    s ≠ 0 →
    fallback E (Ret (-1))
      [partial_clone_warning; EvConfigSet "remote.origin.promisor" None s;
       full_clone_error]
| fallback_filter_kept (s : Z) :
    s ≠ 0 →
    fallback E (Ret (-1))
      [partial_clone_warning; EvConfigSet "remote.origin.promisor" None 0;
       EvConfigSet "remote.origin.partialCloneFilter" None s; full_clone_error]
| fallback_second_fetch (statuses : list Z) (out : outcome Z) (rest : list event) :
    Forall (λ e, is_fetch e = false) rest →
    (run_git_result statuses ≠ 0 → out = Ret (run_git_result statuses) ∧ rest = []) →
    fallback E out
      ([partial_clone_warning; EvConfigSet "remote.origin.promisor" None 0;
        EvConfigSet "remote.origin.partialCloneFilter" None 0;
        fetch_event E statuses] ++ rest)%list.

(** The record up to its first fetch, and from there on. *)
Fixpoint before_fetch (evs : list event) : list event :=
  match evs with
  | [] => []
  | e :: rest => if is_fetch e then [] else e :: before_fetch rest
  end.

Fixpoint after_fetch (evs : list event) : list event :=
  match evs with
  | [] => []
  | e :: rest => if is_fetch e then rest else after_fetch rest
  end.

(** The configuration of the way of cloning, by [gvfs_protocol]. *)
Definition clone_configure_path (E : env) (o : clone_options)
  (url dir local_cache_root : string) (gvfs_protocol : bool)
  (default_cache_server_url : option string) : M Z :=
  if gvfs_protocol then
    res <- init_shared_object_cache E url local_cache_root ;;
    if truthy res then ret res else
    let cache_server_url :=
      match opt_cache_server_url o with
      | Some u => Some u
      | None => default_cache_server_url
      end in
    r <- set_config_all E ["core.useGVFSHelper=true"; "core.gvfs=150";
                           "http.version=HTTP/1.1"] ;;
    if truthy r then error "could not turn on GVFS helper" else
    match cache_server_url with
    | Some u =>
        r <- set_config E ("gvfs.cache-server=" ++ u) ;;
        if truthy r then error "could not configure cache server" else
        emit (EvStderr ("Cache server URL: " ++ u ++ String newline EmptyString)) ;;
        ret 0
    | None => ret 0
    end
  else
    r <- set_config_all E ["core.useGVFSHelper=false"; "remote.origin.promisor=true";
                           "remote.origin.partialCloneFilter=blob:none"] ;;
    if truthy r then error ("could not configure partial clone in '" ++ dir ++ "'")
    else ret 0.

(** What follows it, up to the end of the clone. *)
Definition clone_after_path (E : env) (o : clone_options) (dir branch : string)
  (gvfs_protocol : bool) : M Z :=
  res <- (if negb (opt_full_clone o)
          then run_git E ["sparse-checkout"; "init"; "--cone"]
          else ret 0) ;;
  if truthy res then ret res else
  r <- set_recommended_config E false ;;
  if truthy r then error ("could not configure '" ++ dir ++ "'") else
  clone_fetch E gvfs_protocol (isatty_stderr E) (clone_finish E branch).

(** A part of [cmd_clone] that ends the clone without a fetch, or
    comes to the fetch with the way of cloning configured. *)
Definition fetch_stage (E : env) (m : M Z) : Prop :=
  ∀ w out w', m w = (out, w') →
    (∃ evs, log w' = (log w ++ evs)%list ∧ Forall (λ e, is_fetch e = false) evs)
    ∨ (∃ (gvfs : bool) branch w1 pre,
         log w1 = (log w ++ pre)%list
         ∧ Forall (avoids (if gvfs then "false" else "true")) pre
         ∧ (if gvfs then configured_accelerated pre else configured_partial pre)
         ∧ clone_fetch E gvfs (isatty_stderr E) (clone_finish E branch) w1 = (out, w')).

(** The same once the way of cloning is known and configured. *)
Definition fetch_stage_of (E : env) (gvfs : bool) (branch : string) (m : M Z) : Prop :=
  ∀ w out w', m w = (out, w') →
    (∃ evs, log w' = (log w ++ evs)%list ∧ Forall (λ e, is_fetch e = false) evs)
    ∨ (∃ w1 pre,
         log w1 = (log w ++ pre)%list
         ∧ Forall quiet pre
         ∧ clone_fetch E gvfs (isatty_stderr E) (clone_finish E branch) w1 = (out, w')).

(** [f] always returns: it never ends the process. *)
Definition returns {A : Type} (f : M A) : Prop :=
  ∀ w, ∃ a w', f w = (Ret a, w').

(** ** The bulk reconfiguration *)

Definition unset_argv (key path : string) : list string :=
  ["config"; "--global"; "--unset"; "--fixed-value"; key; path].

(** The world in which an item is configured: the configuration cache
    has been cleared and [the_repository] points at the directories that
    discovery has found. *)
Definition reconfigure_context (E : env) (commondir_buf gitdir_buf : string)
  (w : world) : world :=
  let r := {| worktree := None; gitdir := gitdir_buf; commondir := commondir_buf |} in
  let w' := with_repository r (add_log EvConfigClear w) in
  with_config (load_config E w' r) w'.

(** The outcome of every item of the loop, in order: [true] where
    [succeeded] was set when the item reached [loop_end]. *)
Fixpoint item_results (E : env) (scalar_repos : list string) (w : world)
  : list bool :=
  match scalar_repos with
  | [] => []
  | dir :: rest =>
      match reconfigure_one E dir w with
      | (Ret succeeded, w1) =>
          succeeded ::
          item_results E rest
            (if succeeded then w1 else add_log (EvWarning (how_to_unregister dir)) w1)
      | (Exit _, _) => []
      end
  end.

(** Whether an item of the bulk reconfiguration fails, from what it
    meets.  It fails when its directory cannot be entered for a reason
    other than its absence; when the directory is absent and one of the
    two [git config] commands that remove its registrations returns a
    negative status; when its repository has another owner or a format
    issue; and when no repository is found and the configuration and the
    maintenance both return a negative status.  An item whose repository
    is discovered does not fail, whatever the configuration and the
    maintenance return. *)
Definition item_fails (E : env) (dir : string) (w : world) : bool :=
  let cd := chdir E w dir in
  let w1 := add_log (EvChdir dir cd) w in
  match cd with
  | CHDIR_EOTHER => true
  | CHDIR_ENOENT =>
      let path := realpath_forgiving E w1 dir in
      match run_git E (unset_argv "scalar.repo" path) w1 with
      | (Ret r1, w2) =>
          match run_git E (unset_argv "maintenance.repo" path) w2 with
          | (Ret r2, _) => (r1 <? 0) || (r2 <? 0)
          | (Exit _, _) => true
          end
      | (Exit _, _) => true
      end
  | CHDIR_OK =>
      let found := discover_git_directory_reason E w1 in
      match fst (fst found) with
      | GIT_DIR_DISCOVERED => false
      | GIT_DIR_INVALID_OWNERSHIP | GIT_DIR_INVALID_GITFILE
      | GIT_DIR_INVALID_FORMAT => true
      | GIT_DIR_OTHER =>
          let w2 :=
            reconfigure_context E (snd (fst found)) (snd found)
              (add_log (EvWarning ("repository not found in '" ++ dir ++ "'")) w1) in
          match set_recommended_config E true w2 with
          | (Ret r1, w3) =>
              match toggle_maintenance E true w3 with
              | (Ret r2, _) => (r1 <? 0) && (r2 <? 0)
              | (Exit _, _) => true
              end
          | (Exit _, _) => true
          end
      end
  end.

(** The world after an item: a failed item is followed by the hint. *)
Definition after_item (E : env) (dir : string) (w : world) : world :=
  let w1 := snd (reconfigure_one E dir w) in
  if item_fails E dir w then add_log (EvWarning (how_to_unregister dir)) w1 else w1.

(** Which of the items fail, in order, each one in the world that the
    items before it have left. *)
Fixpoint item_verdicts (E : env) (scalar_repos : list string) (w : world)
  : list bool :=
  match scalar_repos with
  | [] => []
  | dir :: rest => item_fails E dir w :: item_verdicts E rest (after_item E dir w)
  end.

(** How an item shows in the record: the directory that was entered,
    or the hint printed for a failed item. *)
Definition marker_view (e : event) : option (string + string) :=
  match e with
  | EvChdir path _ => Some (inl path)
  | EvWarning msg =>
      if starts_with msg "to unregister this repository" then Some (inr msg) else None
  | _ => None
  end.

(** The markers of a run over the given directories with the given
    outcomes. *)
Fixpoint expected_markers (scalar_repos : list string) (results : list bool)
  : list (string + string) :=
  match scalar_repos, results with
  | dir :: rest, ok :: results' =>
      (inl dir :: (if ok then [] else [inr (how_to_unregister dir)])
       ++ expected_markers rest results')%list
  | _, _ => []
  end.

(** ** More vocabulary *)


Definition list_argv : list string :=
  ["config"; "--global"; "--get-all"; "scalar.repo"].

(** An unset of a global registration, as [remove_deleted_enlistment]
    runs it. *)
Definition is_unset_command (e : event) : Prop :=
  ∃ key path statuses, e = EvRunGit (unset_argv key path) statuses.

Definition maintenance_argv (task : option string) : list string :=
  (["maintenance"; "run"; "--task"] ++ match task with Some t => [t] | None => [] end)%list.

(** The events of a run of maintenance tasks: one [run_git] for each
    task, with the statuses of its attempts. *)
Definition task_events (table : list (string * option string))
  (attempts : list (list Z)) : list event :=
  zip_with (λ t statuses, EvRunGit (maintenance_argv (snd t)) statuses) table attempts.

(** The result of a [run_git] that made the given attempts. *)
Definition final_status (statuses : list Z) : Z := List.last statuses 1.

(** What [delete_enlistment] may do to the disk and to the
    configuration: remove the enlistment, and nothing else; it writes no
    file and sets no configuration value itself. *)
Definition removes_only (enlistment : string) (e : event) : Prop :=
  match e with
  | EvRemoveDir path _ => path = enlistment
  | EvCreateLeadingDirs _ _ | EvWriteFile _ _
  | EvConfigSet _ _ _ | EvConfigAdd _ _ _ => False
  | _ => True
  end.

(** The records that [add_log] adds, one after the other. *)
Definition add_logs (evs : list event) (w : world) : world :=
  fold_left (λ w e, add_log e w) evs w.

(** The line that [list_cache_server_urls] prints for a value, if it
    prints one. *)
Definition server_line (it : json_iterator) : option string :=
  if json_type_eqb (it_type it) JSON_STRING then
    match cache_server_index_of (it_key it) "].Url" with
    | Some l => Some ("#" ++ fmt_ld l ++ ": " ++ it_string_value it
                        ++ String newline EmptyString)
    | None => None
    end
  else None.

Definition listing (doc : json_document) : list string :=
  omap server_line (doc_values doc).

Definition using_cache_server (url : option string) : event :=
  EvStdout ("Using cache server: "
            ++ match url with Some u => u | None => "(undefined)" end
            ++ String newline EmptyString).

(** The number that a string of decimal digits stands for, read from
    the left with [acc] as the value so far. *)
Fixpoint uint_value (acc : Z) (d : Decimal.uint) : Z :=
  match d with
  | Decimal.Nil => acc
  | Decimal.D0 l => uint_value (acc * 10 + 0) l
  | Decimal.D1 l => uint_value (acc * 10 + 1) l
  | Decimal.D2 l => uint_value (acc * 10 + 2) l
  | Decimal.D3 l => uint_value (acc * 10 + 3) l
  | Decimal.D4 l => uint_value (acc * 10 + 4) l
  | Decimal.D5 l => uint_value (acc * 10 + 5) l
  | Decimal.D6 l => uint_value (acc * 10 + 6) l
  | Decimal.D7 l => uint_value (acc * 10 + 7) l
  | Decimal.D8 l => uint_value (acc * 10 + 8) l
  | Decimal.D9 l => uint_value (acc * 10 + 9) l
  end.


Definition server_url_key (l : Z) : string := ".CacheServers[" ++ fmt_ld l ++ "].Url".

(** No entry of the table that a bulk run forces has the key [k]. *)
Definition not_forced (E : env) (k : string) : Prop :=
  Forall (λ cfg, overwrite_on_reconfigure cfg = true →
                 config_key (key cfg) ≠ config_key k)
    (recommended_config E).

(** Every character of the string satisfies [p]. *)
Fixpoint all_chars (p : ascii → bool) (s : string) : bool :=
  match s with
  | EmptyString => true
  | String c s' => p c && all_chars p s'
  end.

(** [f] does not change the value [v] that the key [k] has. *)
Definition keeps {A : Type} (k v : string) (f : M A) : Prop :=
  ∀ w o w', f w = (o, w') →
            store_get (config w) k = Some v → store_get (config w') k = Some v.

(** The refspec that [cmd_clone] configures for origin. *)
Definition origin_refspec (single_branch : bool) (branch : string) : string :=
  "+refs/heads/" ++ (if single_branch then branch else "*")
    ++ ":refs/remotes/origin/" ++ (if single_branch then branch else "*").

(** * Example environments *)

(** The digest functions of the example environments are stand-ins: a
    positional checksum of the bytes, printed in decimal.  Nothing that
    is proved below depends on them. *)
Fixpoint checksum (modulus acc : Z) (s : string) : Z :=
  match s with
  | EmptyString => acc
  | String c s' => checksum modulus ((acc * 31 + Z.of_N (N_of_ascii c)) mod modulus) s'
  end.

Definition unknown_algo : git_hash_algo :=
  {| algo_name := EmptyString; rawsz := 0; digest_hex := λ _, EmptyString |}.
Definition sha1_algo : git_hash_algo :=
  {| algo_name := "sha1"; rawsz := 20; digest_hex := λ s, fmt_ld (checksum 1000003 7 s) |}.
Definition sha256_algo : git_hash_algo :=
  {| algo_name := "sha256"; rawsz := 32; digest_hex := λ s, fmt_ld (checksum 998244353 11 s) |}.

Definition no_repository : repository :=
  {| worktree := None; gitdir := EmptyString; commondir := EmptyString |}.

Definition initial_world (c : config_store) : world :=
  {| the_repository := no_repository; config := c; git_retries := 3; log := [] |}.

(** An environment on a Unix system, given the answers of its
    subprocesses, of the JSON parser and of [chdir], the result of
    repository discovery, the current directory, the repository that
    [setup_git_directory] finds, and the directories that exist.  Configuration
    writes succeed, a second walk of a JSON iterator meets the document
    from its start, relative paths are taken from the current directory,
    directories can be created and removed, and there is no file-system
    monitor. *)
Definition example_env
  (flags : string → bool)
  (run : world → list string → nat → Z)
  (piped : list string → Z * string)
  (parse : string → json_document)
  (cd : string → chdir_result)
  (discover : discovery_result)
  (cwd : string)
  (repo : option repository)
  (dirs : string → bool) : env :=
  {| target := OTHER_UNIX;
     git_env_bool := flags;
     getenv := λ name, if String.eqb name "HOME" then Some "/home/user" else None;
     isatty_stderr := false;
     run_command := run;
     pipe_command := λ _ argv, piped argv;
     json_parse := parse;
     json_parse_again := λ out _ _, parse out;
     config_write_status := λ _ _ _, 0;
     config_append_status := λ _ _ _, 0;
     load_config := λ w _, config w;
     repo_default_branch_name := λ _, "main";
     is_directory := λ _ path, dirs path;
     chdir := λ _ path, cd path;
     getcwd := λ _, Some cwd;
     absolute_path := λ _ path, path;
     realpath_forgiving := λ _ path,
       if starts_with path "/" then path else cwd ++ "/" ++ path;
     is_nonbare_repository_dir := λ _ _, false;
     setup_git_directory := λ _, repo;
     discover_git_directory_reason := λ _, (discover, "/repo/.git", "/repo/.git");
     remove_dir_recursively := λ _ _, 0;
     safe_create_leading_directories := λ _ _, true;
     git_path := λ _ path, ".git/" ++ path;
     ignore_case := λ _, false;
     is_absolute_path := λ path, starts_with path "/";
     strip_last_path_component := λ path,
       default path (before_last_sep (λ c, Ascii.eqb c "/") path);
     offset_1st_component := λ path, if starts_with path "/" then 1%nat else 0%nat;
     fsmonitor_ipc__is_supported := false;
     fsm_settings__reason_ok := λ _, true;
     fsmonitor_ipc__listening := λ _, false;
     hash_algos := [unknown_algo; sha1_algo; sha256_algo];
     hash_algo_by_name := λ name,
       if String.eqb name "sha1" then 1
       else if String.eqb name "sha256" then 2 else 0;
     the_hash_algo := sha1_algo |}.

Definition no_flags : string → bool := λ _, false.
Definition always_ok : world → list string → nat → Z := λ _ _ _, 0.
Definition no_document : string → json_document :=
  λ _, {| doc_values := []; doc_well_formed := false |}.
Definition chdir_ok : string → chdir_result := λ _, CHDIR_OK.

Definition head_line (target : string) : string :=
  "ref: " ++ target ++ String tab ("HEAD" ++ String newline EmptyString).

Definition argv_eqb (a b : list string) : bool := bool_decide (a = b).

Definition repo_at (dir : string) : repository :=
  {| worktree := Some dir; gitdir := dir ++ "/.git"; commondir := dir ++ "/.git" |}.

(** A remote without the helper's endpoints, whose HEAD is the branch
    main, and which refuses partial clones: a fetch fails as long as the
    partial-clone filter is configured. *)
Definition plain_remote_pipes (argv : list string) : Z * string :=
  match argv with
  | "ls-remote" :: _ => (0, head_line "refs/heads/main")
  | "symbolic-ref" :: _ => (0, "main" ++ String newline EmptyString)
  | _ => (1, EmptyString)
  end.

Definition fetch_needs_full_clone (w : world) (argv : list string) (attempt : nat) : Z :=
  match argv with
  | "fetch" :: _ =>
      match store_get (config w) "remote.origin.partialCloneFilter" with
      | Some _ => 128
      | None => 0
      end
  | _ => 0
  end.

Definition no_directories : string → bool := λ _, false.

Definition no_filter_env : env :=
  example_env no_flags fetch_needs_full_clone plain_remote_pipes no_document
    chdir_ok GIT_DIR_DISCOVERED "/work" (Some (repo_at "/work/repo/src"))
    no_directories.

Definition clone_of (args : list string) (cache_root : option string) : clone_options :=
  {| opt_branch := None; opt_full_clone := false; opt_single_branch := false;
     opt_src := true; opt_cache_server_url := None;
     opt_local_cache_root := cache_root; clone_args := args |}.

(** A repository configured for a partial clone. *)
Definition partial_clone_world : world :=
  initial_world (<["remote.origin.promisor" := ["true"]]>
                   (<["remote.origin.partialclonefilter" := ["blob:none"]]> ∅)).

(** Three registered enlistments, of which the second no longer exists. *)
Definition registered_world : world :=
  initial_world (<["scalar.repo" := ["/repos/a"; "/repos/b"; "/repos/c"]]> ∅).

Definition second_is_gone (path : string) : chdir_result :=
  if String.eqb path "/repos/b" then CHDIR_ENOENT else CHDIR_OK.

Definition stale_env : env :=
  example_env no_flags always_ok plain_remote_pipes no_document
    second_is_gone GIT_DIR_DISCOVERED "/work" None no_directories.

(** A remote whose helper answers the identity query. *)
Definition string_value (path contents : string) : json_iterator :=
  {| it_type := JSON_STRING; it_key := path; it_string_value := contents |}.
Definition object_value (path : string) : json_iterator :=
  {| it_type := JSON_OBJECT; it_key := path; it_string_value := EmptyString |}.
Definition array_value (path : string) : json_iterator :=
  {| it_type := JSON_ARRAY; it_key := path; it_string_value := EmptyString |}.
Definition bool_value (path : string) (b : bool) : json_iterator :=
  {| it_type := if b then JSON_TRUE else JSON_FALSE; it_key := path;
     it_string_value := EmptyString |}.

Definition identity_document : json_document :=
  {| doc_values := [object_value EmptyString; object_value ".repository";
                    string_value ".repository.id" "0a1b2c"];
     doc_well_formed := true |}.

(** Two cache servers, neither of them the default. *)
Definition two_servers_document : json_document :=
  {| doc_values := [object_value EmptyString; array_value ".CacheServers";
                    object_value ".CacheServers[0]";
                    string_value ".CacheServers[0].Url" "https://cache0.example.com";
                    bool_value ".CacheServers[0].GlobalDefault" false;
                    object_value ".CacheServers[1]";
                    string_value ".CacheServers[1].Url" "https://cache1.example.com";
                    bool_value ".CacheServers[1].GlobalDefault" false];
     doc_well_formed := true |}.

(** The same servers, the second one the default. *)
Definition default_server_document : json_document :=
  {| doc_values := [object_value EmptyString; array_value ".CacheServers";
                    object_value ".CacheServers[0]";
                    string_value ".CacheServers[0].Url" "https://cache0.example.com";
                    bool_value ".CacheServers[0].GlobalDefault" false;
                    object_value ".CacheServers[1]";
                    string_value ".CacheServers[1].Url" "https://cache1.example.com";
                    bool_value ".CacheServers[1].GlobalDefault" true];
     doc_well_formed := true |}.

Definition helper_pipes (config_reply : Z * string) (argv : list string) : Z * string :=
  match argv with
  | ["gvfs-helper"; "--remote"; _; "config"] => config_reply
  | ["gvfs-helper"; "--remote"; _; "endpoint"; "vsts/info"] => (0, "identity")
  | "ls-remote" :: _ => (0, head_line "refs/heads/main")
  | "symbolic-ref" :: _ => (0, "main" ++ String newline EmptyString)
  | _ => (1, EmptyString)
  end.

Definition helper_documents (out : string) : json_document :=
  if String.eqb out "identity" then identity_document
  else if String.eqb out "servers" then two_servers_document
  else if String.eqb out "default" then default_server_document
  else {| doc_values := []; doc_well_formed := false |}.

Definition helper_env (config_reply : Z * string) : env :=
  example_env no_flags always_ok (helper_pipes config_reply) helper_documents
    chdir_ok GIT_DIR_DISCOVERED "/work" (Some (repo_at "/work/repo/src"))
    no_directories.

(** The helper answers the config query with two servers and no
    default. *)
Definition two_servers_env : env := helper_env (0, "servers").

(** The helper answers the config query with a truncated document. *)
Definition truncated_reply_env : env := helper_env (0, "{").

(** A remote whose HEAD points at a tag. *)
Definition tag_head_pipes (argv : list string) : Z * string :=
  match argv with
  | "ls-remote" :: _ => (0, head_line "refs/tags/v1")
  | "symbolic-ref" :: _ => (0, "main" ++ String newline EmptyString)
  | _ => (1, EmptyString)
  end.

Definition tag_head_env : env :=
  example_env no_flags always_ok tag_head_pipes no_document
    chdir_ok GIT_DIR_DISCOVERED "/work" (Some (repo_at "/work/repo/src"))
    no_directories.


(** ** Stores that refuse writes *)

(** The environment [E] with another configuration store: a write is
    answered with the given status. *)
Definition with_write_status
  (status : config_store → string → option string → Z) (E : env) : env :=
  {| target := target E;
     git_env_bool := git_env_bool E;
     getenv := getenv E;
     isatty_stderr := isatty_stderr E;
     run_command := run_command E;
     pipe_command := pipe_command E;
     json_parse := json_parse E;
     json_parse_again := json_parse_again E;
     config_write_status := status;
     config_append_status := config_append_status E;
     load_config := load_config E;
     repo_default_branch_name := repo_default_branch_name E;
     is_directory := is_directory E;
     chdir := chdir E;
     getcwd := getcwd E;
     absolute_path := absolute_path E;
     realpath_forgiving := realpath_forgiving E;
     is_nonbare_repository_dir := is_nonbare_repository_dir E;
     setup_git_directory := setup_git_directory E;
     discover_git_directory_reason := discover_git_directory_reason E;
     remove_dir_recursively := remove_dir_recursively E;
     safe_create_leading_directories := safe_create_leading_directories E;
     git_path := git_path E;
     ignore_case := ignore_case E;
     is_absolute_path := is_absolute_path E;
     strip_last_path_component := strip_last_path_component E;
     offset_1st_component := offset_1st_component E;
     fsmonitor_ipc__is_supported := fsmonitor_ipc__is_supported E;
     fsm_settings__reason_ok := fsm_settings__reason_ok E;
     fsmonitor_ipc__listening := fsmonitor_ipc__listening E;
     hash_algos := hash_algos E;
     hash_algo_by_name := hash_algo_by_name E;
     the_hash_algo := the_hash_algo E |}.




(** A store whose answer depends on a key other than the one written:
    as long as am.keepCR has no value, writes to core.fsmonitor and to
    core.usebuiltinfsmonitor are refused with a positive status. *)
Definition moody_status : config_store → string → option string → Z :=
  λ c k _,
    if (String.eqb (config_key k) "core.fsmonitor"
        || String.eqb (config_key k) "core.usebuiltinfsmonitor")
       && negb (bool_decide (is_Some (c !! "am.keepcr")))
    then 5 else 0.

Definition moody_env : env := with_write_status moody_status no_filter_env.

Definition legacy_world : world :=
  initial_world (<["core.usebuiltinfsmonitor" := ["true"]]> ∅).

(** ** Parsers that do not rewind *)




(** A store that cannot remove remote.origin.promisor: the removal is
    answered with -1, every other write is made. *)
Definition promisor_stays_status : config_store → string → option string → Z :=
  λ _ k v,
    match v with
    | None => if String.eqb k "remote.origin.promisor" then -1 else 0
    | Some _ => 0
    end.

(** The remote that refuses partial clones, with such a store. *)
Definition stuck_env : env := with_write_status promisor_stays_status no_filter_env.

(** ** An enlistment that cannot be configured *)

(** A git that cannot start its maintenance: the command returns -1. *)
Definition maintenance_cannot_start (w : world) (argv : list string) (attempt : nat) : Z :=
  match argv with
  | "maintenance" :: _ => -1
  | _ => 0
  end.

(** One registered enlistment, whose repository is discovered, with a
    store that refuses every write and a git that cannot start the
    maintenance. *)
Definition unconfigurable_env : env :=
  with_write_status (λ _ _ _, -1)
    (example_env no_flags maintenance_cannot_start plain_remote_pipes no_document
       chdir_ok GIT_DIR_DISCOVERED "/work" None no_directories).

Definition one_registered_world : world :=
  initial_world (<["scalar.repo" := ["/repos/a"]]> ∅).

(** ** A git whose lookup of a name fails *)

(** The environment [E] with another lookup of algorithm names and
    another algorithm of the repository. *)
Definition with_hash_lookup
  (lookup : string → Z) (own : git_hash_algo) (E : env) : env :=
  {| target := target E;
     git_env_bool := git_env_bool E;
     getenv := getenv E;
     isatty_stderr := isatty_stderr E;
     run_command := run_command E;
     pipe_command := pipe_command E;
     json_parse := json_parse E;
     json_parse_again := json_parse_again E;
     config_write_status := config_write_status E;
     config_append_status := config_append_status E;
     load_config := load_config E;
     repo_default_branch_name := repo_default_branch_name E;
     is_directory := is_directory E;
     chdir := chdir E;
     getcwd := getcwd E;
     absolute_path := absolute_path E;
     realpath_forgiving := realpath_forgiving E;
     is_nonbare_repository_dir := is_nonbare_repository_dir E;
     setup_git_directory := setup_git_directory E;
     discover_git_directory_reason := discover_git_directory_reason E;
     remove_dir_recursively := remove_dir_recursively E;
     safe_create_leading_directories := safe_create_leading_directories E;
     git_path := git_path E;
     ignore_case := ignore_case E;
     is_absolute_path := is_absolute_path E;
     strip_last_path_component := strip_last_path_component E;
     offset_1st_component := offset_1st_component E;
     fsmonitor_ipc__is_supported := fsmonitor_ipc__is_supported E;
     fsm_settings__reason_ok := fsm_settings__reason_ok E;
     fsmonitor_ipc__listening := fsmonitor_ipc__listening E;
     hash_algos := hash_algos E;
     hash_algo_by_name := lookup;
     the_hash_algo := own |}.

(** The lookup of every name returns -1, and the repository uses the
    32-byte algorithm. *)
Definition failing_lookup_env : env :=
  with_hash_lookup (λ _, -1) sha256_algo no_filter_env.

(** ** More example environments *)

Definition always_fails : world → list string → nat → Z := λ _ _ _, 1.

(** The enlistment at /work/repo, entered from its worktree, with a git
    whose every command exits with status 1. *)
Definition failing_git_env : env :=
  example_env no_flags always_fails plain_remote_pipes no_document
    chdir_ok GIT_DIR_DISCOVERED "/work/repo/src" (Some (repo_at "/work/repo/src"))
    (λ path, String.eqb path "/work/repo").

(** No directory exists, and git fails with a negative status when it
    is asked to unset a maintenance.repo entry. *)
Definition unset_fails_for_maintenance (w : world) (argv : list string) (attempt : nat)
  : Z :=
  match argv with
  | ["config"; "--global"; "--unset"; "--fixed-value"; "maintenance.repo"; _] => -1
  | _ => 0
  end.

Definition deleted_enlistment_env : env :=
  example_env no_flags unset_fails_for_maintenance plain_remote_pipes no_document
    chdir_ok GIT_DIR_DISCOVERED "/work" None no_directories.

(** A git whose prefetch task fails, everything else succeeding. *)
Definition prefetch_fails (w : world) (argv : list string) (attempt : nat) : Z :=
  match argv with
  | ["maintenance"; "run"; "--task"; "prefetch"] => 128
  | _ => 0
  end.

Definition prefetch_fails_env : env :=
  example_env no_flags prefetch_fails plain_remote_pipes no_document
    chdir_ok GIT_DIR_DISCOVERED "/work/repo/src" (Some (repo_at "/work/repo/src"))
    (λ path, String.eqb path "/work/repo").

(** A git in which the registration cannot be removed: the probe finds
    it, and the unset fails. *)
Definition unset_fails (w : world) (argv : list string) (attempt : nat) : Z :=
  match argv with
  | "config" :: "--global" :: "--unset" :: _ => 5
  | _ => 0
  end.

Definition unset_fails_env : env :=
  example_env no_flags unset_fails plain_remote_pipes no_document
    chdir_ok GIT_DIR_DISCOVERED "/work" (Some (repo_at "/work/repo/src"))
    (λ path, String.eqb path "/work/repo").

Definition in_worktree (dir : string) : world :=
  with_repository (repo_at dir) (initial_world ∅).

(** A git that cannot start the maintenance; the registration is found
    by the probe. *)
Definition maintenance_fails (w : world) (argv : list string) (attempt : nat) : Z :=
  match argv with
  | "maintenance" :: _ => 1
  | _ => 0
  end.

Definition maintenance_fails_env : env :=
  example_env no_flags maintenance_fails plain_remote_pipes no_document
    chdir_ok GIT_DIR_DISCOVERED "/work" (Some (repo_at "/work/repo/src"))
    (λ path, String.eqb path "/work/repo").

Definition no_remotes : world → option string → option remote := λ _ _, None.

(** The helper lists two servers for every URL. *)
Definition listing_env : env :=
  example_env no_flags always_ok (helper_pipes (0, "servers")) helper_documents
    chdir_ok GIT_DIR_DISCOVERED "/work/repo/src" (Some (repo_at "/work/repo/src"))
    (λ path, String.eqb path "/work/repo").


(** A Unix system without HOME and without XDG_CACHE_HOME. *)
Definition homeless_env : env :=
  {| target := OTHER_UNIX;
     git_env_bool := no_flags;
     getenv := λ _, None;
     isatty_stderr := false;
     run_command := always_ok;
     pipe_command := λ _ argv, plain_remote_pipes argv;
     json_parse := no_document;
     json_parse_again := λ out _ _, no_document out;
     config_write_status := λ _ _ _, 0;
     config_append_status := λ _ _ _, 0;
     load_config := λ w _, config w;
     repo_default_branch_name := λ _, "main";
     is_directory := λ _ _, false;
     chdir := λ _ _, CHDIR_OK;
     getcwd := λ _, Some "/work";
     absolute_path := λ _ path, path;
     realpath_forgiving := λ _ path, "/work/" ++ path;
     is_nonbare_repository_dir := λ _ _, false;
     setup_git_directory := λ _, Some (repo_at "/work/repo/src");
     discover_git_directory_reason := λ _, (GIT_DIR_DISCOVERED, "/repo/.git", "/repo/.git");
     remove_dir_recursively := λ _ _, 0;
     safe_create_leading_directories := λ _ _, true;
     git_path := λ _ path, ".git/" ++ path;
     ignore_case := λ _, false;
     is_absolute_path := λ path, starts_with path "/";
     strip_last_path_component := λ path, path;
     offset_1st_component := λ _, 1%nat;
     fsmonitor_ipc__is_supported := false;
     fsm_settings__reason_ok := λ _, true;
     fsmonitor_ipc__listening := λ _, false;
     hash_algos := [unknown_algo; sha1_algo; sha256_algo];
     hash_algo_by_name := λ _, 1;
     the_hash_algo := sha1_algo |}.

(** An enlistment at /work/repo whose repository is in src, entered
    from outside. *)
Definition src_enlistment_env : env :=
  {| target := OTHER_UNIX;
     git_env_bool := no_flags;
     getenv := λ name, if String.eqb name "HOME" then Some "/home/user" else None;
     isatty_stderr := false;
     run_command := always_ok;
     pipe_command := λ _ argv, plain_remote_pipes argv;
     json_parse := no_document;
     json_parse_again := λ out _ _, no_document out;
     config_write_status := λ _ _ _, 0;
     config_append_status := λ _ _ _, 0;
     load_config := λ w _, config w;
     repo_default_branch_name := λ _, "main";
     is_directory := λ _ path, String.eqb path "/work/repo/";
     chdir := λ _ _, CHDIR_OK;
     getcwd := λ _, Some "/work";
     absolute_path := λ _ path, path;
     realpath_forgiving := λ _ path, path;
     is_nonbare_repository_dir := λ _ path, String.eqb path "/work/repo/src";
     setup_git_directory := λ _, Some (repo_at "/work/repo/src");
     discover_git_directory_reason := λ _, (GIT_DIR_DISCOVERED, "/repo/.git", "/repo/.git");
     remove_dir_recursively := λ _ _, 0;
     safe_create_leading_directories := λ _ _, false;
     git_path := λ _ path, ".git/" ++ path;
     ignore_case := λ _, false;
     is_absolute_path := λ path, starts_with path "/";
     strip_last_path_component := λ path, path;
     offset_1st_component := λ _, 1%nat;
     fsmonitor_ipc__is_supported := false;
     fsm_settings__reason_ok := λ _, true;
     fsmonitor_ipc__listening := λ _, false;
     hash_algos := [unknown_algo; sha1_algo; sha256_algo];
     hash_algo_by_name := λ _, 1;
     the_hash_algo := sha1_algo |}.

(** A remote that serves a partial clone at once. *)
Definition cooperative_env : env :=
  example_env no_flags always_ok plain_remote_pipes no_document
    chdir_ok GIT_DIR_DISCOVERED "/work" (Some (repo_at "/work/repo/src"))
    no_directories.

(** * Properties *)

(** ** The configuration store *)

Lemma store_get_set_eq (c : config_store) (k v : string) :
  store_get (store_set c k (Some v)) k = Some v.
Proof. unfold store_get, store_set. by rewrite lookup_insert_eq. Qed.

Lemma store_get_set_ne (c : config_store) (k k' : string) (v : option string) :
  config_key k ≠ config_key k' →
  store_get (store_set c k v) k' = store_get c k'.
Proof.
  intros Hne. unfold store_get, store_set. destruct v.
  - by rewrite lookup_insert_ne.
  - by rewrite lookup_delete_ne.
Qed.

Lemma store_get_unset_eq (c : config_store) (k : string) :
  store_get (store_set c k None) k = None.
Proof. unfold store_get, store_set. by rewrite lookup_delete_eq. Qed.

Lemma store_get_append_eq (c : config_store) (k v : string) :
  store_get (store_append c k v) k = Some v.
Proof.
  unfold store_get, store_append. rewrite lookup_insert_eq. simpl.
  apply last_snoc.
Qed.

Lemma store_get_append_ne (c : config_store) (k k' v : string) :
  config_key k ≠ config_key k' →
  store_get (store_append c k v) k' = store_get c k'.
Proof. intros Hne. unfold store_get, store_append. by rewrite lookup_insert_ne. Qed.




Lemma store_get_congr (c : config_store) (k k' : string) :
  config_key k = config_key k' → store_get c k = store_get c k'.
Proof. unfold store_get. by intros ->. Qed.

#[local] Arguments store_set : simpl never.
#[local] Arguments store_get : simpl never.
#[local] Arguments store_append : simpl never.


Lemma present_set (c : config_store) (k k' v : string) :
  present c k' → present (store_set c k (Some v)) k'.
Proof.
  unfold present. intros H.
  destruct (decide (config_key k = config_key k')) as [Heq|Hne].
  - rewrite <- (store_get_congr _ _ _ Heq), store_get_set_eq. by eexists.
  - by rewrite store_get_set_ne.
Qed.

Lemma present_append (c : config_store) (k k' v : string) :
  present c k' → present (store_append c k v) k'.
Proof.
  unfold present. intros H.
  destruct (decide (config_key k = config_key k')) as [Heq|Hne].
  - rewrite <- (store_get_congr _ _ _ Heq), store_get_append_eq. by eexists.
  - by rewrite store_get_append_ne.
Qed.

Section Reconcile.

Variable E : env.





Lemma same_store_sym w1 w2 : same_store w1 w2 → same_store w2 w1.
Proof. intros [H1 H2]. split; congruence. Qed.




Lemma truthy_0 : truthy 0 = false.
Proof. reflexivity. Qed.

Lemma truthy_true z : truthy z = true ↔ z ≠ 0.
Proof. unfold truthy. destruct (Z.eqb_spec z 0); simpl; split; intros; congruence || lia. Qed.

Lemma truthy_false z : truthy z = false ↔ z = 0.
Proof. unfold truthy. destruct (Z.eqb_spec z 0); simpl; split; intros; congruence || lia. Qed.

(** The two ways in which a write ends. *)
Lemma set_gently_run (k : string) (v : option string) (w : world) :
  (config_write_status E (config w) k v = 0
   ∧ git_config_set_gently E k v w
     = (Ret 0, add_log (EvConfigSet k v 0)
                 (with_config (store_set (config w) k v) w)))
  ∨ (config_write_status E (config w) k v ≠ 0
     ∧ git_config_set_gently E k v w
       = (Ret (config_write_status E (config w) k v),
          add_log (EvConfigSet k v (config_write_status E (config w) k v)) w)).
Proof.
  unfold git_config_set_gently. cbv zeta.
  destruct (Z.eqb_spec (config_write_status E (config w) k v) 0) as [Hs|Hs];
    [left|right]; done.
Qed.

Lemma set_multivar_run (k v : string) (w : world) :
  (config_append_status E (config w) k v = 0
   ∧ git_config_set_multivar_gently E k v w
     = (Ret 0, add_log (EvConfigAdd k v 0)
                 (with_config (store_append (config w) k v) w)))
  ∨ (config_append_status E (config w) k v ≠ 0
     ∧ git_config_set_multivar_gently E k v w
       = (Ret (config_append_status E (config w) k v),
          add_log (EvConfigAdd k v (config_append_status E (config w) k v)) w)).
Proof.
  unfold git_config_set_multivar_gently. cbv zeta.
  destruct (Z.eqb_spec (config_append_status E (config w) k v) 0) as [Hs|Hs];
    [left|right]; done.
Qed.












Lemma configure_exclude_decoration_run (w : world) :
  configure_exclude_decoration E w =
  match store_get (config w) "log.excludeDecoration" with
  | Some _ => (Ret 0, add_log (EvTrace2 "log.excludeDecoration" "exists") w)
  | None =>
      let w' := add_log (EvTrace2 "log.excludeDecoration" "created") w in
      let status :=
        config_append_status E (config w) "log.excludeDecoration" "refs/prefetch/*" in
      if status =? 0
      then (Ret 0,
            add_log (EvConfigAdd "log.excludeDecoration" "refs/prefetch/*" 0)
              (with_config (store_append (config w) "log.excludeDecoration"
                              "refs/prefetch/*") w'))
      else (Ret (-1),
            add_log (EvError "could not configure log.excludeDecoration")
              (add_log (EvConfigAdd "log.excludeDecoration" "refs/prefetch/*" status) w'))
  end.
Proof.
  unfold configure_exclude_decoration, bind, git_config_get_string, ask,
    trace2_data_string, emit, git_config_set_multivar_gently.
  destruct (store_get (config w) "log.excludeDecoration"); [done|].
  cbn [config add_log]. cbv zeta.
  destruct (Z.eqb_spec (config_append_status E (config w) "log.excludeDecoration"
                          "refs/prefetch/*") 0) as [Hs|Hs]; [done|].
  by rewrite (proj2 (truthy_true _) Hs).
Qed.


Lemma set_recommended_config_split (reconfigure : bool) (w : world) :
  set_recommended_config E reconfigure w =
  and_then (migrate_usebuiltinfsmonitor E) (after_migration E reconfigure) w.
Proof. reflexivity. Qed.

Lemma recommended_config_not_legacy :
  Forall (λ cfg, config_key (key cfg) ≠ config_key legacy_key) (recommended_config E).
Proof.
  unfold recommended_config.
  destruct (target E); repeat (constructor; [by vm_compute|]); constructor.
Qed.


(** *** The migration of the deprecated key *)

(** The removal of the deprecated key, as the migration reads its
    result: only a negative status is a failure. *)
Lemma migrate_run (w : world) :
  migrate_usebuiltinfsmonitor E w =
  match store_get (config w) legacy_key with
  | None => (Ret 0, w)
  | Some v =>
      let unset (w0 : world) :=
        let s := config_write_status E (config w0) legacy_key None in
        if s =? 0
        then (Ret 0, add_log (EvConfigSet legacy_key None 0)
                       (with_config (store_set (config w0) legacy_key None) w0))
        else if s <? 0
        then (Ret (-1),
              add_log (EvError (could_not_configure "core.useBuiltinFSMonitor" "NULL"))
                (add_log (EvConfigSet legacy_key None s) w0))
        else (Ret 0, add_log (EvConfigSet legacy_key None s) w0) in
      match store_get (config w) "core.fsmonitor" with
      | Some _ => unset w
      | None =>
          let s := config_write_status E (config w) "core.fsmonitor" (Some v) in
          if s =? 0
          then unset (add_log (EvConfigSet "core.fsmonitor" (Some v) 0)
                        (with_config (store_set (config w) "core.fsmonitor" (Some v)) w))
          else if s <? 0
          then (Ret (-1),
                add_log (EvError (could_not_configure "core.fsmonitor" v))
                  (add_log (EvConfigSet "core.fsmonitor" (Some v) s) w))
          else unset (add_log (EvConfigSet "core.fsmonitor" (Some v) s) w)
      end
  end.
Proof.
  unfold migrate_usebuiltinfsmonitor, bind, git_config_get_string, ask, legacy_key.
  destruct (store_get (config w) "core.usebuiltinfsmonitor") as [v|]; [|done].
  assert (∀ w0,
    match git_config_set_gently E "core.usebuiltinfsmonitor" None w0 with
    | (Ret r2, w2) =>
        (if r2 <? 0
         then error (could_not_configure "core.useBuiltinFSMonitor" "NULL")
         else ret 0) w2
    | (Exit msg, w2) => (Exit msg, w2)
    end
    = (let s := config_write_status E (config w0) "core.usebuiltinfsmonitor" None in
       if s =? 0
       then (Ret 0, add_log (EvConfigSet "core.usebuiltinfsmonitor" None 0)
                      (with_config (store_set (config w0) "core.usebuiltinfsmonitor" None)
                         w0))
       else if s <? 0
       then (Ret (-1),
             add_log (EvError (could_not_configure "core.useBuiltinFSMonitor" "NULL"))
               (add_log (EvConfigSet "core.usebuiltinfsmonitor" None s) w0))
       else (Ret 0, add_log (EvConfigSet "core.usebuiltinfsmonitor" None s) w0))) as Hunset.
  { intros w0. unfold git_config_set_gently. cbv zeta.
    destruct (_ =? 0); [done|]. by destruct (_ <? 0). }
  destruct (store_get (config w) "core.fsmonitor").
  - unfold ret at 1. change (0 <? 0) with false. cbv iota. apply Hunset.
  - unfold git_config_set_gently at 1. cbv zeta.
    destruct (config_write_status E (config w) "core.fsmonitor" (Some v) =? 0).
    + change (0 <? 0) with false. cbv iota. apply Hunset.
    + destruct (_ <? 0); [done|]. apply Hunset.
Qed.


Lemma migrate_noop (w : world) :
  store_get (config w) legacy_key = None →
  migrate_usebuiltinfsmonitor E w = (Ret 0, w).
Proof. intros H. by rewrite migrate_run, H. Qed.







(** *** Reconfiguration forces the required entries *)

Lemma set_scalar_config_cases (cfg : scalar_config) (reconfigure : bool) (w : world) :
  (∃ e, set_scalar_config E cfg reconfigure w = (Ret 0, add_log e w))
  ∨ (∃ e, set_scalar_config E cfg reconfigure w =
          git_config_set_gently E (key cfg) (Some (value cfg)) (add_log e w)).
Proof.
  unfold set_scalar_config, bind, ret, git_config_get_string, ask, trace2_data_string, emit.
  destruct (reconfigure && overwrite_on_reconfigure cfg); simpl.
  - right. by eexists.
  - destruct (store_get (config w) (key cfg)); [left|right]; by eexists.
Qed.

Lemma set_scalar_config_frame (cfg : scalar_config) (reconfigure : bool)
  (w : world) (z : Z) (w1 : world) (k : string) :
  set_scalar_config E cfg reconfigure w = (Ret z, w1) →
  config_key (key cfg) ≠ config_key k →
  store_get (config w1) k = store_get (config w) k.
Proof.
  intros Hrun Hk.
  destruct (set_scalar_config_cases cfg reconfigure w) as [[e He]|[e He]];
    rewrite He in Hrun.
  - by injection Hrun as <- <-.
  - destruct (set_gently_run (key cfg) (Some (value cfg)) (add_log e w))
      as [[_ Hset]|[_ Hset]]; rewrite Hset in Hrun; injection Hrun as <- <-; [|done].
    cbn [config add_log with_config]. by rewrite store_get_set_ne.
Qed.

Lemma set_scalar_configs_frame (table : list scalar_config) (reconfigure : bool)
  (k : string) :
  Forall (λ cfg, config_key (key cfg) ≠ config_key k) table →
  ∀ w z w1, set_scalar_configs E table reconfigure w = (Ret z, w1) →
            store_get (config w1) k = store_get (config w) k.
Proof.
  induction 1 as [|cfg table Hk _ IH]; intros w z w1.
  - by intros [= <- <-].
  - simpl. unfold bind.
    destruct (set_scalar_config E cfg reconfigure w) as [[r|msg] w'] eqn:Hc; [|done].
    destruct (truthy r).
    + intros [= <- <-]. cbn [config add_log]. by eapply set_scalar_config_frame.
    + intros Hrest. rewrite (IH _ _ _ Hrest). by eapply set_scalar_config_frame.
Qed.


Lemma configure_fsmonitor_frame (reconfigure : bool) (w : world) (z : Z) (w1 : world)
  (k : string) :
  configure_fsmonitor E reconfigure w = (Ret z, w1) →
  config_key "core.fsmonitor" ≠ config_key k →
  store_get (config w1) k = store_get (config w) k.
Proof.
  unfold configure_fsmonitor, have_fsmonitor_support, bind, ask.
  destruct (_ && _); [|by intros [= <- <-]].
  destruct (set_scalar_config E _ reconfigure w) as [[r|msg] w'] eqn:Hc; [|done].
  intros Hrun Hk. pose proof (set_scalar_config_frame _ _ _ _ _ k Hc Hk) as <-.
  destruct (truthy r); by injection Hrun as <- <-.
Qed.

Lemma configure_exclude_decoration_frame (w : world) (z : Z) (w1 : world) (k : string) :
  configure_exclude_decoration E w = (Ret z, w1) →
  config_key "log.excludeDecoration" ≠ config_key k →
  store_get (config w1) k = store_get (config w) k.
Proof.
  rewrite configure_exclude_decoration_run.
  destruct store_get; [by intros [= <- <-]|]. cbv zeta.
  destruct (_ =? 0); intros [= <- <-]; [|done].
  intros Hk. cbn [config add_log with_config]. by rewrite store_get_append_ne.
Qed.


Lemma recommended_config_not_special :
  Forall (λ cfg, config_key "core.fsmonitor" ≠ config_key (key cfg)
                 ∧ config_key "log.excludeDecoration" ≠ config_key (key cfg))
    (recommended_config E).
Proof.
  unfold recommended_config.
  destruct (target E); repeat (constructor; [by vm_compute|]); constructor.
Qed.



End Reconcile.

(** ** The JSON visitor and its callbacks *)

Lemma visit_get_repository_id (vs : list json_iterator) (id0 : option string) :
  visit_values get_repository_id vs id0 =
  match find (λ it, json_type_eqb (it_type it) JSON_STRING
                    && strcaseeq ".repository.id" (it_key it)) vs with
  | Some it => (1, Some (it_string_value it))
  | None => (0, id0)
  end.
Proof.
  induction vs as [|v vs IH]; [done|]. simpl. unfold get_repository_id at 1.
  destruct (_ && _); [done|]. simpl. apply IH.
Qed.

Lemma iterate_get_repository_id (doc : json_document) :
  iterate_json get_repository_id doc None =
  match string_at doc ".repository.id" with
  | Some id => (0, Some id)
  | None => ((if doc_well_formed doc then 0 else -1), None)
  end.
Proof.
  unfold iterate_json, string_at. rewrite visit_get_repository_id.
  by destruct (find _ _).
Qed.

Lemma visit_get_cache_server_url (vs : list json_iterator) (data : cache_server_url_data) :
  visit_values get_cache_server_url vs data =
  match find (λ it, json_type_eqb (it_type it) JSON_STRING
                    && strcaseeq (data_key data) (it_key it)) vs with
  | Some it => (1, {| data_key := data_key data; data_url := Some (it_string_value it) |})
  | None => (0, data)
  end.
Proof.
  induction vs as [|v vs IH]; [done|]. simpl. unfold get_cache_server_url at 1.
  destruct (_ && _); [done|]. simpl. apply IH.
Qed.

Lemma iterate_get_cache_server_url (doc : json_document) (path : string) :
  iterate_json get_cache_server_url doc {| data_key := path; data_url := None |}
  = ((match string_at doc path with
      | Some _ => 0
      | None => if doc_well_formed doc then 0 else -1
      end),
     {| data_key := path; data_url := string_at doc path |}).
Proof.
  unfold iterate_json, string_at. rewrite visit_get_cache_server_url. simpl.
  by destruct (find _ _).
Qed.

Lemma visit_no_global_default (vs : list json_iterator) (l0 : Z) :
  Forall (λ it, it_type it = JSON_TRUE →
                cache_server_index_of (it_key it) "].GlobalDefault" = None) vs →
  visit_values get_cache_server_index vs l0 = (0, l0).
Proof.
  induction 1 as [|v vs Hv _ IH]; [done|]. simpl. unfold get_cache_server_index at 1.
  destruct (it_type v) eqn:Ht; simpl; try apply IH.
  rewrite Hv by done. simpl. apply IH.
Qed.

Lemma values_shown_no_global_default (vs : list json_iterator) (l0 : Z) :
  Forall (λ it, it_type it = JSON_TRUE →
                cache_server_index_of (it_key it) "].GlobalDefault" = None) vs →
  values_shown get_cache_server_index vs l0 = (List.length vs, false).
Proof.
  induction 1 as [|v vs Hv _ IH]; [done|]. simpl. unfold get_cache_server_index at 1.
  destruct (it_type v) eqn:Ht; simpl; rewrite ?IH; try done.
  rewrite Hv by done. simpl. by rewrite IH.
Qed.

Lemma iterate_no_global_default (doc : json_document) :
  no_global_default doc →
  iterate_json get_cache_server_index doc 0
  = ((if doc_well_formed doc then 0 else -1), 0).
Proof.
  intros H. unfold iterate_json. by rewrite visit_no_global_default.
Qed.

Lemma visit_list_cache_server_urls (vs : list json_iterator) (w : world) :
  fst (visit_values list_cache_server_urls vs w) = 0.
Proof.
  revert w. induction vs as [|v vs IH]; intros w; [done|]. simpl.
  unfold list_cache_server_urls at 1.
  destruct (json_type_eqb _ _); [destruct cache_server_index_of|]; simpl; apply IH.
Qed.

(** ** Letter case *)

Lemma tolower_idemp (a : ascii) : tolower (tolower a) = tolower a.
Proof. destruct a as [[] [] [] [] [] [] [] []]; reflexivity. Qed.

Lemma same_up_to_case_tolower (s t : string) :
  same_up_to_case s t → strbuf_tolower s = strbuf_tolower t.
Proof.
  induction 1 as [|a b s t Hab _ IH]; [done|]. simpl. f_equal; [|done].
  destruct Hab as [-> | [[_ ->] | [_ ->]]]; by rewrite ?tolower_idemp.
Qed.

(** ** [get_cache_key] *)

Section CacheKey.

Variable E : env.

Lemma get_cache_key_fallback (url : string) (w : world) :
  identity_query_skipped E url ∨ identity_query_fails E url w →
  ∃ w', get_cache_key E url w = (Ret (url_cache_key E url), w').
Proof.
  unfold identity_query_skipped, identity_query_fails, vsts_info_argv.
  unfold get_cache_key, bind, pipe.
  intros H.
  destruct (git_env_bool E "SCALAR_TEST_SKIP_VSTS_INFO") eqn:Hskip; simpl;
    [by eexists|].
  destruct (can_url_support_gvfs E url) eqn:Hcan; simpl; [|by eexists].
  destruct (pipe_command E w _) as [status out] eqn:Hp. simpl in H.
  destruct (Z.eqb_spec status 0) as [->|Hne].
  - assert (string_at (json_parse E out) ".repository.id" = None) as Hnone.
    { destruct H as [[?|?]|[?|?]]; done. }
    unfold truthy. simpl. rewrite iterate_get_repository_id, Hnone.
    destruct (doc_well_formed _); simpl; by eexists.
  - unfold truthy. rewrite (proj2 (Z.eqb_neq status 0) Hne). simpl. by eexists.
Qed.

Lemma get_cache_key_identity (url : string) (w : world) (id : string) :
  identity_query_succeeds E url w id →
  ∃ w', get_cache_key E url w = (Ret ("id_" ++ id), w').
Proof.
  unfold identity_query_succeeds, vsts_info_argv.
  intros (Hskip & Hcan & Hst & Hid).
  unfold get_cache_key, bind, pipe. rewrite Hskip, Hcan. simpl.
  destruct (pipe_command E w _) as [status out]. simpl in Hst, Hid. subst status.
  unfold truthy. simpl. rewrite iterate_get_repository_id, Hid. simpl. by eexists.
Qed.

End CacheKey.

(** ** [supports_gvfs_protocol] *)

Section Negotiation.

Variable E : env.

Lemma truthy_neg1 : truthy (-1) = true.
Proof. reflexivity. Qed.

(** The reply to the helper's config query, when the query is made and
    the helper succeeds. *)
Lemma supports_gvfs_protocol_reply (url : string) (want_url : bool) (w : world) :
  can_url_support_gvfs E url = true →
  fst (pipe_command E w (gvfs_config_argv url)) = 0 →
  supports_gvfs_protocol E url want_url w =
  let out := snd (pipe_command E w (gvfs_config_argv url)) in
  let doc := json_parse E out in
  let w1 := add_log (EvPipe (gvfs_config_argv url) 0) w in
  if negb want_url then
    let '(r, w2) := iterate_json list_cache_server_urls doc w1 in
    if r <? 0 then (Ret (-1, None), add_log (EvError "JSON parse error") w2)
    else (Ret (0, None), w2)
  else
    let '(r, l) := iterate_json get_cache_server_index doc 0 in
    if r <? 0 then (Ret (-1, None), add_log (EvError "JSON parse error") w1)
    else
      let '(r, data) :=
        iterate_json get_cache_server_url (after_index_search E out)
          {| data_key := ".CacheServers[" ++ fmt_ld l ++ "].Url"; data_url := None |} in
      if r <? 0 then (Ret (-1, None), add_log (EvError "JSON parse error") w1)
      else (Ret (1, Some (data_url data)), w1).
Proof.
  unfold gvfs_config_argv, after_index_search. intros Hcan Hst.
  unfold supports_gvfs_protocol, bind, pipe. rewrite Hcan. simpl.
  destruct (pipe_command E w _) as [status out]. simpl in Hst. subst status.
  simpl. destruct want_url; simpl.
  - destruct (iterate_json get_cache_server_index _ 0) as [r l].
    destruct (r <? 0); [done|].
    destruct (values_shown get_cache_server_index _ 0) as [shown ended].
    destruct (iterate_json get_cache_server_url _ _) as [r' data].
    by destruct (r' <? 0).
  - destruct (iterate_json list_cache_server_urls _ _) as [r w2].
    by destruct (r <? 0).
Qed.

Lemma supports_gvfs_protocol_no_default (url : string) (w : world) :
  can_url_support_gvfs E url = true →
  fst (pipe_command E w (gvfs_config_argv url)) = 0 →
  no_global_default (json_parse E (snd (pipe_command E w (gvfs_config_argv url)))) →
  supports_gvfs_protocol E url true w =
  let out := snd (pipe_command E w (gvfs_config_argv url)) in
  let doc := json_parse E out in
  let again := json_parse_again E out (List.length (doc_values doc)) false in
  let w1 := add_log (EvPipe (gvfs_config_argv url) 0) w in
  if doc_well_formed doc
  then
    match string_at again ".CacheServers[0].Url" with
    | Some u => (Ret (1, Some (Some u)), w1)
    | None =>
        if doc_well_formed again then (Ret (1, Some None), w1)
        else (Ret (-1, None), add_log (EvError "JSON parse error") w1)
    end
  else (Ret (-1, None), add_log (EvError "JSON parse error") w1).
Proof.
  intros Hcan Hst Hno. rewrite supports_gvfs_protocol_reply by done. cbv zeta.
  simpl negb. cbv iota. rewrite iterate_no_global_default by done.
  destruct (doc_well_formed (json_parse E _)) eqn:Hwf; [|done].
  change (fmt_ld 0) with "0". change (0 <? 0) with false. cbv iota.
  unfold after_index_search. rewrite values_shown_no_global_default by done.
  rewrite iterate_get_cache_server_url.
  change (".CacheServers[" ++ "0" ++ "].Url") with ".CacheServers[0].Url".
  destruct (string_at _ _); [done|].
  by destruct (doc_well_formed (json_parse_again _ _ _ _)).
Qed.

Lemma supports_gvfs_protocol_listing_malformed (url : string) (w : world) :
  can_url_support_gvfs E url = true →
  fst (pipe_command E w (gvfs_config_argv url)) = 0 →
  doc_well_formed (json_parse E (snd (pipe_command E w (gvfs_config_argv url)))) = false →
  ∃ w', supports_gvfs_protocol E url false w = (Ret (-1, None), w')
        ∧ last (log w') = Some (EvError "JSON parse error").
Proof.
  intros Hcan Hst Hwf. rewrite supports_gvfs_protocol_reply by done. cbv zeta.
  simpl negb. cbv iota. unfold iterate_json.
  pose proof (visit_list_cache_server_urls
                (doc_values (json_parse E (snd (pipe_command E w (gvfs_config_argv url)))))
                (add_log (EvPipe (gvfs_config_argv url) 0) w)) as Hv.
  destruct (visit_values list_cache_server_urls _ _) as [r w2]. simpl in Hv. subst r.
  rewrite Hwf. simpl. eexists. split; [done|]. simpl. apply last_snoc.
Qed.

Lemma clone_negotiate_run (url : string) (w : world) :
  clone_negotiate E None url w =
  match supports_gvfs_protocol E url true w with
  | (Ret (res, stored), w') =>
      (Ret (truthy res, match stored with Some u => u | None => None end), w')
  | (Exit msg, w') => (Exit msg, w')
  end.
Proof.
  unfold clone_negotiate, bind.
  destruct (supports_gvfs_protocol E url true w) as [[[res stored]|msg] w']; done.
Qed.

End Negotiation.

(** ** C strings *)

#[local] Arguments String.append : simpl nomatch.

Lemma length_append (a b : string) :
  String.length (a ++ b) = (String.length a + String.length b)%nat.
Proof. induction a as [|c a IH]; simpl; [done|]. by rewrite IH. Qed.

Lemma take_chars_app (a b : string) : take_chars (String.length a) (a ++ b) = a.
Proof. induction a as [|c a IH]; simpl; [by destruct b|]. by rewrite IH. Qed.

Lemma drop_chars_app (a b : string) : drop_chars (String.length a) (a ++ b) = b.
Proof. induction a as [|c a IH]; simpl; [done|]. done. Qed.

Lemma take_drop_chars (n : nat) (s : string) : take_chars n s ++ drop_chars n s = s.
Proof.
  revert s. induction n as [|n IH]; intros [|c s]; simpl; try done. by rewrite IH.
Qed.

Lemma skip_prefix_app (a b : string) : skip_prefix (a ++ b) a = Some b.
Proof. induction a as [|c a IH]; simpl; [done|]. by rewrite Ascii.eqb_refl. Qed.

Lemma skip_prefix_Some (s a p : string) : skip_prefix s a = Some p → s = a ++ p.
Proof.
  revert s. induction a as [|c a IH]; intros s; simpl; [by intros [= ->]|].
  destruct s as [|d s]; [done|]. destruct (Ascii.eqb_spec d c) as [->|]; [|done].
  intros H. by rewrite (IH _ H).
Qed.

Lemma strip_suffix_app (x sfx : string) : strip_suffix (x ++ sfx) sfx = Some x.
Proof.
  unfold strip_suffix. rewrite length_append.
  replace (String.length x + String.length sfx - String.length sfx)%nat
    with (String.length x) by lia.
  rewrite drop_chars_app, take_chars_app, String.eqb_refl.
  by rewrite (proj2 (Nat.leb_le _ _)) by lia.
Qed.

Lemma strip_suffix_Some (s sfx x : string) : strip_suffix s sfx = Some x → s = x ++ sfx.
Proof.
  unfold strip_suffix.
  destruct (String.length sfx <=? String.length s)%nat; [|done]. simpl.
  set (n := (String.length s - String.length sfx)%nat).
  destruct (String.eqb_spec (drop_chars n s) sfx) as [Heq|]; [|done].
  intros [= <-]. rewrite <- (take_drop_chars n s) at 1. by rewrite Heq.
Qed.

Lemma strip_suffix_None (x sfx : string) : strip_suffix (x ++ sfx) sfx ≠ None.
Proof. by rewrite strip_suffix_app. Qed.

Lemma append_assoc (a b c : string) : (a ++ b) ++ c = a ++ (b ++ c).
Proof. induction a as [|d a IH]; simpl; [done|]. by rewrite IH. Qed.

(** A line that starts with [ref: ] and ends with a tab and [HEAD] has
    room for both: what follows the prefix ends with the suffix. *)
Lemma strip_suffix_after_ref (p : string) :
  strip_suffix ("ref: " ++ p) (String tab "HEAD")
  = String.append "ref: " <$> strip_suffix p (String tab "HEAD").
Proof.
  destruct (strip_suffix p (String tab "HEAD")) as [x|] eqn:Hp.
  - apply strip_suffix_Some in Hp. subst p. simpl fmap.
    change ("ref: " ++ x ++ String tab "HEAD") with (("ref: " ++ x) ++ String tab "HEAD").
    apply strip_suffix_app.
  - destruct (strip_suffix ("ref: " ++ p) (String tab "HEAD")) as [x|] eqn:Hl; [|done].
    apply strip_suffix_Some in Hl. exfalso.
    destruct x as [|c0 [|c1 [|c2 [|c3 [|c4 x]]]]]; simpl in Hl; try discriminate.
    injection Hl as _ _ _ _ _ ->. by apply (strip_suffix_None x (String tab "HEAD")).
Qed.

(** A prefix without the character [c] that matches up to a [c] matches
    before it. *)
Lemma skip_prefix_before (pre x : string) (c : ascii) (rest q : string) :
  (∀ s1 s2, pre ≠ s1 ++ String c s2) →
  skip_prefix (x ++ String c rest) pre = Some q →
  ∃ n, skip_prefix x pre = Some n ∧ q = n ++ String c rest.
Proof.
  revert x. induction pre as [|a pre IH]; intros x Hc; simpl.
  - intros [= <-]. by exists x.
  - destruct x as [|d x]; simpl.
    + destruct (Ascii.eqb_spec c a) as [->|]; [|done].
      by destruct (Hc EmptyString pre).
    + destruct (Ascii.eqb d a); [|done]. apply IH.
      intros s1 s2 ->. by apply (Hc (String a s1) s2).
Qed.

Lemma no_tab_in_refs_heads (s1 s2 : string) : "refs/heads/" ≠ s1 ++ String tab s2.
Proof.
  do 12 (destruct s1 as [|? s1]; simpl; [discriminate|]; intros [= _ H]; revert H).
Qed.

(** ** [remote_default_branch] *)

Section RemoteHead.

Variable E : env.

Lemma symref_line_spec (line : string) :
  symref_line line = answer_for <$> symref_target line.
Proof.
  unfold symref_line, symref_target.
  destruct (skip_prefix line "ref: ") as [p|] eqn:Hp; [|done].
  apply skip_prefix_Some in Hp. subst line. rewrite strip_suffix_after_ref.
  destruct (strip_suffix p (String tab "HEAD")) as [x|] eqn:Hx; [|done].
  apply strip_suffix_Some in Hx. subst p. simpl fmap. cbv zeta. f_equal.
  unfold answer_for.
  destruct (skip_prefix (x ++ String tab "HEAD") "refs/heads/") as [q|] eqn:Hq.
  - destruct (skip_prefix_before _ _ _ _ _ no_tab_in_refs_heads Hq) as (n & Hn & ->).
    rewrite Hn. apply skip_prefix_Some in Hn. subst x.
    do 3 f_equal. rewrite !length_append. simpl String.length.
    replace (_ - _)%nat with (String.length n) by lia.
    apply take_chars_app.
  - destruct (skip_prefix x "refs/heads/") as [n|] eqn:Hn.
    { apply skip_prefix_Some in Hn. subst x.
      rewrite append_assoc, skip_prefix_app in Hq. done. }
    do 4 f_equal. rewrite !length_append. simpl String.length.
    replace (_ - _)%nat with (String.length x) by lia.
    by rewrite take_chars_app.
Qed.

Lemma scan_symref_spec (lines : list string) :
  scan_symref lines = answer_for <$> first_symref lines.
Proof.
  induction lines as [|line lines IH]; [done|]. simpl.
  rewrite symref_line_spec. destruct (symref_target line); [done|]. apply IH.
Qed.

Lemma remote_default_branch_run (url : string) (w : world) :
  remote_default_branch E url w =
  let w1 := add_log (EvPipe (ls_remote_argv url) (fst (pipe_command E w (ls_remote_argv url)))) w in
  match remote_head E url w with
  | Some target =>
      match skip_prefix target "refs/heads/" with
      | Some name => (Ret (Some name), w1)
      | None =>
          (Ret None,
           add_log (EvError ("remote HEAD is not a branch: '" ++ target ++ "'")) w1)
      end
  | None =>
      let w2 :=
        add_log (EvWarning
                   "failed to get default branch name from remote; using local default")
          w1 in
      let local := pipe_command E w2 symbolic_ref_argv in
      let w3 := add_log (EvPipe symbolic_ref_argv (fst local)) w2 in
      if fst local =? 0 then (Ret (Some (strbuf_trim (snd local))), w3)
      else (Ret None, add_log (EvError "failed to get default branch name") w3)
  end.
Proof.
  unfold remote_default_branch, remote_head, bind, pipe, ls_remote_argv, symbolic_ref_argv.
  destruct (pipe_command E w _) as [status out]. cbn [fst snd]. unfold truthy.
  rewrite scan_symref_spec.
  destruct (status =? 0); cbn [negb].
  - destruct (first_symref (split_lines out)) as [target|];
      cbn [fmap option_fmap option_map]; cbv iota.
    + unfold answer_for. by destruct (skip_prefix target "refs/heads/").
    + unfold warning, emit. cbv zeta.
      destruct (pipe_command E _ _) as [status2 out2]. cbn [fst snd].
      by destruct (status2 =? 0).
  - unfold warning, emit. cbv zeta.
    destruct (pipe_command E _ _) as [status2 out2]. cbn [fst snd].
    by destruct (status2 =? 0).
Qed.

(** The documented reply is read as the branch it names. *)
Lemma symref_target_branch (name : string) :
  symref_target ("ref: refs/heads/" ++ name ++ String tab "HEAD")
  = Some ("refs/heads/" ++ name).
Proof.
  unfold symref_target.
  change ("ref: refs/heads/" ++ name ++ String tab "HEAD")
    with ("ref: " ++ ("refs/heads/" ++ name) ++ String tab "HEAD").
  rewrite skip_prefix_app. apply strip_suffix_app.
Qed.

End RemoteHead.

(** ** Events *)

Section Events.

Variable E : env.

Lemma app_nil_end_log (w : world) : log w = (log w ++ [])%list.
Proof. by rewrite app_nil_r. Qed.

Lemma emits_ret {A : Type} (P : event → Prop) (a : A) : emits P (ret a).
Proof. intros w o w' [= <- <-]. exists []. split; [apply app_nil_end_log|done]. Qed.

Lemma emits_ask {A : Type} (P : event → Prop) (f : world → A) : emits P (ask f).
Proof. intros w o w' [= <- <-]. exists []. split; [apply app_nil_end_log|done]. Qed.

Lemma emits_die {A : Type} (P : event → Prop) (msg : string) : emits P (@die A msg).
Proof. intros w o w' [= <- <-]. exists []. split; [apply app_nil_end_log|done]. Qed.

Lemma emits_emit (P : event → Prop) (e : event) : P e → emits P (emit e).
Proof. intros He w o w' [= <- <-]. exists [e]. split; [done|]. by constructor. Qed.

Lemma emits_bind {A B : Type} (P : event → Prop) (f : M A) (k : A → M B) :
  emits P f → (∀ a, emits P (k a)) → emits P (bind f k).
Proof.
  intros Hf Hk w o w'. unfold bind.
  destruct (f w) as [[a|msg] w1] eqn:Hw.
  - intros Hkw. destruct (Hf _ _ _ Hw) as (evs1 & H1 & HP1).
    destruct (Hk a _ _ _ Hkw) as (evs2 & H2 & HP2).
    exists (evs1 ++ evs2)%list. split.
    + by rewrite H2, H1, app_assoc.
    + by apply Forall_app.
  - intros [= <- <-]. destruct (Hf _ _ _ Hw) as (evs1 & H1 & HP1). by exists evs1.
Qed.

Lemma emits_weaken {A : Type} (P Q : event → Prop) (f : M A) :
  (∀ e, P e → Q e) → emits P f → emits Q f.
Proof.
  intros HPQ Hf w o w' Hw. destruct (Hf _ _ _ Hw) as (evs & H1 & HP).
  exists evs. split; [done|]. eapply Forall_impl; [done|]. done.
Qed.

Lemma emits_warning (P : event → Prop) (msg : string) :
  P (EvWarning msg) → emits P (warning msg).
Proof. apply emits_emit. Qed.

Lemma emits_error (P : event → Prop) (msg : string) :
  P (EvError msg) → emits P (error msg).
Proof. intros H. apply emits_bind; [by apply emits_emit|]. intros _. apply emits_ret. Qed.

Lemma emits_trace2 (P : event → Prop) (k v : string) :
  P (EvTrace2 k v) → emits P (trace2_data_string k v).
Proof. apply emits_emit. Qed.

Lemma emits_run_git (P : event → Prop) (argv : list string) :
  (∀ statuses, P (EvRunGit argv statuses)) → emits P (run_git E argv).
Proof.
  intros H w o w'. unfold run_git. destruct run_git_loop as [res sts].
  intros [= <- <-]. exists [EvRunGit argv sts]. split; [done|]. by constructor.
Qed.

Lemma emits_pipe (P : event → Prop) (argv : list string) :
  (∀ status, P (EvPipe argv status)) → emits P (pipe E argv).
Proof.
  intros H w o w'. unfold pipe. destruct pipe_command as [status out].
  intros [= <- <-]. exists [EvPipe argv status]. split; [done|]. by constructor.
Qed.

Lemma emits_set_gently (P : event → Prop) (k : string) (v : option string) :
  (∀ status, P (EvConfigSet k v status)) → emits P (git_config_set_gently E k v).
Proof.
  intros H w o w'. unfold git_config_set_gently. cbv zeta.
  destruct (_ =? 0); intros [= <- <-]; eexists [_];
    (split; [done|by constructor]).
Qed.

Lemma emits_set_multivar (P : event → Prop) (k v : string) :
  (∀ status, P (EvConfigAdd k v status)) → emits P (git_config_set_multivar_gently E k v).
Proof.
  intros H w o w'. unfold git_config_set_multivar_gently. cbv zeta.
  destruct (_ =? 0); intros [= <- <-]; eexists [_];
    (split; [done|by constructor]).
Qed.

Lemma emits_set_config (P : event → Prop) (assignment : string) :
  (∀ k v status, P (EvConfigSet k v status)) → emits P (set_config E assignment).
Proof.
  intros H. unfold set_config. destruct split_assignment. by apply emits_set_gently.
Qed.

Lemma emits_do_chdir (P : event → Prop) (path : string) :
  (∀ r, P (EvChdir path r)) → emits P (do_chdir E path).
Proof.
  intros H w o w' [= <- <-]. eexists [_]. split; [done|by constructor].
Qed.

Lemma emits_do_remove (P : event → Prop) (path : string) :
  (∀ r, P (EvRemoveDir path r)) → emits P (do_remove_dir_recursively E path).
Proof.
  intros H w o w' [= <- <-]. eexists [_]. split; [done|by constructor].
Qed.

Lemma emits_git_config_load (P : event → Prop) : emits P (git_config_load E).
Proof. intros w o w' [= <- <-]. exists []. split; [simpl; by rewrite app_nil_r|done]. Qed.

Lemma emits_do_setup (P : event → Prop) :
  P EvSetupGitDirectory → emits P (do_setup_git_directory E).
Proof.
  intros H w o w'. unfold do_setup_git_directory.
  destruct setup_git_directory; intros [= <- <-]; eexists [_];
    (split; [done|by constructor]).
Qed.

Lemma emits_get_string (P : event → Prop) (k : string) :
  emits P (git_config_get_string k).
Proof. apply emits_ask. Qed.

End Events.

(** Steps through a command: binds, branches, and the primitives. *)
Ltac emits_step :=
  first
    [ apply emits_ret | apply emits_ask | apply emits_die
    | apply emits_get_string | apply emits_git_config_load
    | apply emits_bind; [|intros ?]
    | apply emits_warning | apply emits_error | apply emits_trace2
    | apply emits_emit | apply emits_run_git; intros ?
    | apply emits_pipe; intros ? | apply emits_set_gently; intros ?
    | apply emits_set_multivar; intros ? | apply emits_set_config; intros ? ? ?
    | apply emits_do_chdir; intros ? | apply emits_do_remove; intros ?
    | apply emits_do_setup
    | match goal with
      | |- emits _ (if ?c then _ else _) => destruct c
      | |- emits _ (match ?x with _ => _ end) => destruct x
      | |- emits _ (let '(_, _) := ?p in _) => destruct p
      end ].

Ltac emits_auto := repeat emits_step; try (simpl; tauto); try done.

Section Housekeeping.

Variable E : env.

Lemma emits_set_scalar_config (cfg : scalar_config) (reconfigure : bool) :
  emits housekeeping (set_scalar_config E cfg reconfigure).
Proof. unfold set_scalar_config. emits_auto. Qed.

Lemma emits_set_scalar_configs (table : list scalar_config) (reconfigure : bool) :
  emits housekeeping (set_scalar_configs E table reconfigure).
Proof.
  induction table as [|cfg table IH]; simpl; [apply emits_ret|].
  apply emits_bind; [apply emits_set_scalar_config|]. intros r. by emits_auto.
Qed.

Lemma emits_set_recommended_config (reconfigure : bool) :
  emits housekeeping (set_recommended_config E reconfigure).
Proof.
  unfold set_recommended_config.
  apply emits_bind; [unfold migrate_usebuiltinfsmonitor; by emits_auto|]. intros r.
  destruct (truthy r); [apply emits_ret|].
  apply emits_bind; [apply emits_set_scalar_configs|]. intros r'.
  destruct (truthy r'); [apply emits_ret|].
  apply emits_bind.
  { unfold configure_fsmonitor, have_fsmonitor_support.
    apply emits_bind; [apply emits_ask|]. intros [|]; [|apply emits_ret].
    apply emits_bind; [apply emits_set_scalar_config|]. intros ?. by emits_auto. }
  intros r''. destruct (truthy r''); [apply emits_ret|].
  unfold configure_exclude_decoration. by emits_auto.
Qed.

Lemma emits_toggle_maintenance (enable : bool) :
  emits housekeeping (toggle_maintenance E enable).
Proof.
  unfold toggle_maintenance, git_config_get_ulong, git_config_push_parameter.
  destruct enable; emits_auto.
Qed.

Lemma emits_add_or_remove_enlistment (add : bool) :
  emits housekeeping (add_or_remove_enlistment E add).
Proof.
  unfold add_or_remove_enlistment, require_worktree, git_config_get_ulong,
    git_config_push_parameter.
  emits_auto.
Qed.

Lemma emits_register_dir : emits housekeeping (register_dir E).
Proof.
  unfold register_dir.
  apply emits_bind; [apply emits_add_or_remove_enlistment|]. intros r.
  destruct (truthy r); [by emits_auto|].
  apply emits_bind; [apply emits_set_recommended_config|]. intros r1.
  destruct (truthy r1); [by emits_auto|].
  apply emits_bind; [apply emits_toggle_maintenance|]. intros r2.
  apply emits_bind; [destruct (truthy r2); by emits_auto|]. intros _.
  unfold have_fsmonitor_support, start_fsmonitor_daemon. emits_auto.
Qed.

Lemma emits_remove_deleted_enlistment (path : string) :
  emits housekeeping (remove_deleted_enlistment E path).
Proof. unfold remove_deleted_enlistment. emits_auto. Qed.

Lemma housekeeping_not_fetch (e : event) : housekeeping e → is_fetch e = false.
Proof.
  destruct e as [[|cmd argv] sts| | | | | | | | | | | | | | | |]; simpl; try done.
  by intros [-> | [-> | ->]].
Qed.

Lemma housekeeping_not_marker (e : event) : housekeeping e → marker_view e = None.
Proof.
  destruct e; simpl; try done. by intros ->.
Qed.

End Housekeeping.

(** ** [run_git] *)

Section Clone.

Variable E : env.

Lemma run_git_run (argv : list string) (w : world) :
  ∃ res statuses,
    run_git E argv w = (Ret res, add_log (EvRunGit argv statuses) w).
Proof. unfold run_git. destruct run_git_loop as [res sts]. by exists res, sts. Qed.

Lemma last_cons_default {A : Type} (x : A) (l : list A) (d d' : A) :
  List.last (x :: l) d = List.last (x :: l) d'.
Proof. revert x. induction l as [|y l IH]; intros x; [done|]. apply (IH y). Qed.

(** [run_git] makes at most [git_retries] attempts and returns the
    status of the last one. *)
Lemma run_git_loop_spec (run : nat → Z) (n attempts : nat) (res : Z) :
  (List.length (snd (run_git_loop run n attempts res)) ≤ n)%nat
  ∧ fst (run_git_loop run n attempts res)
    = List.last (snd (run_git_loop run n attempts res)) res.
Proof.
  revert attempts res. induction n as [|n IH]; intros attempts res; simpl; [done|].
  destruct (truthy res); [|simpl; split; [lia|done]].
  specialize (IH (S attempts) (run attempts)).
  destruct (run_git_loop run n (S attempts) (run attempts)) as [res' sts].
  simpl in *. destruct IH as [Hlen Hlast]. split; [lia|].
  rewrite Hlast. destruct sts as [|s sts]; [done|].
  change (List.last (run attempts :: s :: sts) res) with (List.last (s :: sts) res).
  apply last_cons_default.
Qed.

(** ** The fetch of [cmd_clone] and its fallback *)

Lemma clone_fetch_first_ok (gvfs_protocol show_progress : bool) (k : M Z)
  (w w1 : world) :
  run_git E (fetch_argv show_progress) w = (Ret 0, w1) →
  clone_fetch E gvfs_protocol show_progress k w = k w1.
Proof. intros H. unfold clone_fetch, bind. by rewrite H. Qed.

Lemma clone_fetch_accelerated (show_progress : bool) (k : M Z)
  (w : world) (res : Z) (w1 : world) :
  run_git E (fetch_argv show_progress) w = (Ret res, w1) → res ≠ 0 →
  clone_fetch E true show_progress k w
  = (Ret (-1), add_log (EvError "failed to prefetch commits and trees") w1).
Proof.
  intros H Hres. unfold clone_fetch, bind.
  by rewrite H, (proj2 (truthy_true res) Hres).
Qed.

Lemma set_config_unset (k : string) (w : world) :
  (∀ s1 s2, k ≠ s1 ++ String "=" s2) →
  set_config E k w = git_config_set_gently E k None w.
Proof.
  intros Hk. unfold set_config.
  assert (split_assignment k = (k, None)) as ->; [|done].
  induction k as [|c k IH]; [done|]. simpl.
  destruct (Ascii.eqb_spec c "=") as [->|_].
  { by destruct (Hk EmptyString k). }
  rewrite IH; [done|]. intros s1 s2 ->. by apply (Hk (String c s1) s2).
Qed.

Lemma set_config_promisor (w : world) :
  set_config E "remote.origin.promisor" w
  = git_config_set_gently E "remote.origin.promisor" None w.
Proof. reflexivity. Qed.

Lemma set_config_filter (w : world) :
  set_config E "remote.origin.partialCloneFilter" w
  = git_config_set_gently E "remote.origin.partialCloneFilter" None w.
Proof. reflexivity. Qed.

Lemma clone_finish_no_fetch (branch : string) :
  emits (λ e, is_fetch e = false) (clone_finish E branch).
Proof.
  unfold clone_finish.
  repeat (apply emits_bind; [by emits_auto|]; intros ?;
          match goal with |- emits _ (if ?c then _ else _) => destruct c end;
          [apply emits_ret|]).
  eapply emits_weaken; [apply housekeeping_not_fetch|apply emits_register_dir].
Qed.

End Clone.

(** ** Commands that always return *)

Section Returns.

Variable E : env.

Lemma returns_ret {A : Type} (a : A) : returns (ret a).
Proof. intros w. by eexists _, _. Qed.

Lemma returns_ask {A : Type} (f : world → A) : returns (ask f).
Proof. intros w. by eexists _, _. Qed.

Lemma returns_emit (e : event) : returns (emit e).
Proof. intros w. by eexists _, _. Qed.

Lemma returns_bind {A B : Type} (f : M A) (k : A → M B) :
  returns f → (∀ a, returns (k a)) → returns (bind f k).
Proof.
  intros Hf Hk w. unfold bind. destruct (Hf w) as (a & w1 & ->). apply Hk.
Qed.

Lemma returns_warning (msg : string) : returns (warning msg).
Proof. apply returns_emit. Qed.

Lemma returns_error (msg : string) : returns (error msg).
Proof. apply returns_bind; [apply returns_emit|]. intros _. apply returns_ret. Qed.

Lemma returns_run_git (argv : list string) : returns (run_git E argv).
Proof. intros w. destruct (run_git_run E argv w) as (r & s & ->). by eexists _, _. Qed.

Lemma returns_set_gently (k : string) (v : option string) :
  returns (git_config_set_gently E k v).
Proof.
  intros w. unfold git_config_set_gently. cbv zeta. destruct (_ =? 0); by eexists _, _.
Qed.

Lemma returns_set_multivar (k v : string) :
  returns (git_config_set_multivar_gently E k v).
Proof.
  intros w. unfold git_config_set_multivar_gently. cbv zeta.
  destruct (_ =? 0); by eexists _, _.
Qed.

Lemma returns_do_chdir (path : string) : returns (do_chdir E path).
Proof. intros w. by eexists _, _. Qed.

End Returns.

Ltac returns_step :=
  first
    [ apply returns_ret | apply returns_ask | apply returns_emit
    | apply returns_bind; [|intros ?]
    | apply returns_warning | apply returns_error
    | apply returns_run_git | apply returns_set_gently | apply returns_set_multivar
    | apply returns_do_chdir
    | match goal with
      | |- returns (if ?c then _ else _) => destruct c
      | |- returns (match ?x with _ => _ end) => destruct x
      | |- returns (let '(_, _) := ?p in _) => destruct p
      end ].

Ltac returns_auto := repeat returns_step.

Section Reconfigure.

Variable E : env.

Lemma returns_set_scalar_config (cfg : scalar_config) (reconfigure : bool) :
  returns (set_scalar_config E cfg reconfigure).
Proof.
  unfold set_scalar_config, git_config_get_string, trace2_data_string. returns_auto.
Qed.

Lemma returns_set_scalar_configs (table : list scalar_config) (reconfigure : bool) :
  returns (set_scalar_configs E table reconfigure).
Proof.
  induction table as [|cfg table IH]; simpl; [apply returns_ret|].
  apply returns_bind; [apply returns_set_scalar_config|]. intros r. by returns_auto.
Qed.

Lemma returns_set_recommended_config (reconfigure : bool) :
  returns (set_recommended_config E reconfigure).
Proof.
  unfold set_recommended_config.
  apply returns_bind.
  { unfold migrate_usebuiltinfsmonitor, git_config_get_string. returns_auto. }
  intros r. destruct (truthy r); [apply returns_ret|].
  apply returns_bind; [apply returns_set_scalar_configs|]. intros r'.
  destruct (truthy r'); [apply returns_ret|].
  apply returns_bind.
  { unfold configure_fsmonitor, have_fsmonitor_support.
    apply returns_bind; [apply returns_ask|]. intros [|]; [|apply returns_ret].
    apply returns_bind; [apply returns_set_scalar_config|]. intros ?. returns_auto. }
  intros r''. destruct (truthy r''); [apply returns_ret|].
  unfold configure_exclude_decoration, git_config_get_string, trace2_data_string.
  returns_auto.
Qed.

Lemma returns_toggle_maintenance (enable : bool) : returns (toggle_maintenance E enable).
Proof.
  unfold toggle_maintenance, git_config_get_ulong, git_config_get_string,
    git_config_push_parameter.
  returns_auto.
Qed.

Lemma returns_remove_deleted_enlistment (path : string) :
  returns (remove_deleted_enlistment E path).
Proof. unfold remove_deleted_enlistment. returns_auto. Qed.

Lemma returns_reconfigure_one (dir : string) : returns (reconfigure_one E dir).
Proof.
  unfold reconfigure_one.
  apply returns_bind; [apply returns_do_chdir|]. intros [| |].
  - apply returns_bind; [apply returns_ask|]. intros [[reason c] g].
    assert (∀ b, returns
      (emit EvConfigClear ;;
       (λ w, let r := {| worktree := None; gitdir := g; commondir := c |} in
             let w' := with_repository r w in
             (Ret tt, with_config (load_config E w' r) w')) ;;
       r1 <- set_recommended_config E true ;;
       r2 <- toggle_maintenance E true ;;
       ret (if 0 <=? r2 then true else if 0 <=? r1 then true else b))) as Hconf.
    { intros b. apply returns_bind; [apply returns_emit|]. intros _.
      apply returns_bind; [intros w; by eexists _, _|]. intros _.
      apply returns_bind; [apply returns_set_recommended_config|]. intros r1.
      apply returns_bind; [apply returns_toggle_maintenance|]. intros r2.
      apply returns_ret. }
    destruct reason; cbv zeta; try (by returns_auto).
    + apply Hconf.
    + apply returns_bind; [apply returns_warning|]. intros _. apply Hconf.
  - apply returns_bind; [apply returns_remove_deleted_enlistment|]. intros r.
    by returns_auto.
  - by returns_auto.
Qed.

Lemma emits_reconfigure_one_rest (dir : string) (w : world) (ok : bool) (w1 : world) :
  reconfigure_one E dir w = (Ret ok, w1) →
  ∃ evs, log w1 = (log w ++ EvChdir dir (chdir E w dir) :: evs)%list
         ∧ Forall (λ e, marker_view e = None) evs.
Proof.
  unfold reconfigure_one. unfold bind at 1, do_chdir at 1.
  set (w0 := add_log (EvChdir dir (chdir E w dir)) w).
  set (rest := match chdir E w dir with
               | CHDIR_OK => _ | CHDIR_ENOENT => _ | CHDIR_EOTHER => _ end).
  intros Hrest.
  assert (emits (λ e, marker_view e = None) rest) as Hem.
  { subst rest. destruct (chdir E w dir).
    - apply emits_bind; [apply emits_ask|]. intros [[reason c] g].
      assert (∀ b, emits (λ e, marker_view e = None)
        (emit EvConfigClear ;;
         (λ w, let r := {| worktree := None; gitdir := g; commondir := c |} in
               let w' := with_repository r w in
               (Ret tt, with_config (load_config E w' r) w')) ;;
         r1 <- set_recommended_config E true ;;
         r2 <- toggle_maintenance E true ;;
         ret (if 0 <=? r2 then true else if 0 <=? r1 then true else b))) as Hconf.
      { intros b. apply emits_bind; [by apply emits_emit|]. intros _.
        apply emits_bind.
        { intros w2 o w3 [= <- <-]. exists []. split; [simpl; by rewrite app_nil_r|done]. }
        intros _.
        apply emits_bind.
        { eapply emits_weaken; [apply housekeeping_not_marker|].
          apply emits_set_recommended_config. }
        intros r1. apply emits_bind.
        { eapply emits_weaken; [apply housekeeping_not_marker|].
          apply emits_toggle_maintenance. }
        intros r2. apply emits_ret. }
      destruct reason; cbv zeta; try (by emits_auto).
      + apply Hconf.
      + apply emits_bind; [by apply emits_warning|]. intros _. apply Hconf.
    - apply emits_bind.
      { eapply emits_weaken; [apply housekeeping_not_marker|].
        apply emits_remove_deleted_enlistment. }
      intros r. by emits_auto.
    - by emits_auto. }
  destruct (Hem _ _ _ Hrest) as (evs & Hlog & Hall).
  exists evs. split; [|done]. rewrite Hlog. subst w0. cbn [log add_log].
  by rewrite <- app_assoc.
Qed.


Lemma marker_view_hint (dir : string) :
  marker_view (EvWarning (how_to_unregister dir)) = Some (inr (how_to_unregister dir)).
Proof. reflexivity. Qed.

Lemma omap_no_marker (evs : list event) :
  Forall (λ e, marker_view e = None) evs → omap marker_view evs = [].
Proof.
  induction 1 as [|e evs He _ IH]; [done|].
  change (match marker_view e with
          | Some y => y :: omap marker_view evs
          | None => omap marker_view evs
          end = []).
  by rewrite He.
Qed.

Lemma omap_item (dir : string) (r : chdir_result) (evs tail : list event) :
  Forall (λ e, marker_view e = None) evs →
  omap marker_view (EvChdir dir r :: evs ++ tail)%list
  = inl dir :: omap marker_view tail.
Proof.
  intros H. change (inl dir :: omap marker_view (evs ++ tail)%list
                    = inl dir :: omap marker_view tail).
  by rewrite omap_app, omap_no_marker.
Qed.

Lemma omap_hint (dir : string) (evs : list event) :
  omap marker_view (EvWarning (how_to_unregister dir) :: evs)
  = inr (how_to_unregister dir) :: omap marker_view evs.
Proof. reflexivity. Qed.

(** The loop visits every directory, in order, whatever happens to the
    others, and returns -1 exactly when an item failed. *)
Lemma reconfigure_all_run (scalar_repos : list string) (res : Z) (w : world) :
  ∃ w' evs,
    reconfigure_all E scalar_repos res w
    = (Ret (if forallb id (item_results E scalar_repos w) then res else -1), w')
    ∧ List.length (item_results E scalar_repos w) = List.length scalar_repos
    ∧ log w' = (log w ++ evs)%list
    ∧ omap marker_view evs
      = expected_markers scalar_repos (item_results E scalar_repos w).
Proof.
  revert res w. induction scalar_repos as [|dir rest IH]; intros res w.
  - exists w, []. simpl. split_and!; try done. by rewrite app_nil_r.
  - simpl. unfold bind at 1.
    destruct (returns_reconfigure_one dir w) as (ok & w1 & Hone). rewrite Hone.
    destruct (emits_reconfigure_one_rest _ _ _ _ Hone) as (evs1 & Hlog1 & Hno1).
    destruct ok; cbn [negb].
    + unfold bind at 1, ret at 1.
      destruct (IH res w1) as (w' & evs & Hrun & Hlen & Hlog & Hmark).
      exists w', (EvChdir dir (chdir E w dir) :: evs1 ++ evs)%list.
      rewrite Hrun. simpl forallb. split_and!.
      * done.
      * simpl. by rewrite Hlen.
      * rewrite Hlog, Hlog1. by rewrite <- app_assoc.
      * rewrite omap_item by done. by rewrite Hmark.
    + unfold bind at 1, bind at 1, warning, emit, ret at 1.
      destruct (IH (-1) (add_log (EvWarning (how_to_unregister dir)) w1))
        as (w' & evs & Hrun & Hlen & Hlog & Hmark).
      exists w', (EvChdir dir (chdir E w dir)
                  :: evs1 ++ EvWarning (how_to_unregister dir) :: evs)%list.
      rewrite Hrun. simpl forallb. split_and!.
      * by destruct (forallb id _).
      * simpl. by rewrite Hlen.
      * rewrite Hlog. cbn [log add_log]. rewrite Hlog1. by rewrite <- !app_assoc.
      * rewrite omap_item by done. by rewrite omap_hint, Hmark.
Qed.

(** An enlistment whose directory no longer exists: both registrations
    are removed with [git config]; the item fails only if one of the two
    commands returns a negative status. *)
Lemma reconfigure_one_enoent (dir : string) (w : world) :
  chdir E w dir = CHDIR_ENOENT →
  let w1 := add_log (EvChdir dir CHDIR_ENOENT) w in
  let path := realpath_forgiving E w1 dir in
  ∃ r1 sts1 r2 sts2,
    run_git E (unset_argv "scalar.repo" path) w1
      = (Ret r1, add_log (EvRunGit (unset_argv "scalar.repo" path) sts1) w1)
    ∧ run_git E (unset_argv "maintenance.repo" path)
        (add_log (EvRunGit (unset_argv "scalar.repo" path) sts1) w1)
      = (Ret r2, add_log (EvRunGit (unset_argv "maintenance.repo" path) sts2)
                   (add_log (EvRunGit (unset_argv "scalar.repo" path) sts1) w1))
    ∧ reconfigure_one E dir w
      = (Ret ((0 <=? r1) && (0 <=? r2)),
         add_log (if (0 <=? r1) && (0 <=? r2)
                  then EvWarning ("removed stale scalar.repo '" ++ dir ++ "'")
                  else EvError ("could not remove stale scalar.repo '" ++ dir ++ "'"))
           (add_log (EvRunGit (unset_argv "maintenance.repo" path) sts2)
              (add_log (EvRunGit (unset_argv "scalar.repo" path) sts1) w1))).
Proof.
  intros Hcd w1 path.
  destruct (run_git_run E (unset_argv "scalar.repo" path) w1) as (r1 & sts1 & H1).
  destruct (run_git_run E (unset_argv "maintenance.repo" path)
              (add_log (EvRunGit (unset_argv "scalar.repo" path) sts1) w1))
    as (r2 & sts2 & H2).
  exists r1, sts1, r2, sts2. split; [done|]. split; [done|].
  unfold reconfigure_one, bind at 1, do_chdir. rewrite Hcd.
  unfold remove_deleted_enlistment, bind at 1. unfold bind at 1, ask.
  fold w1. fold path. unfold unset_argv in *. unfold bind at 1. rewrite H1.
  unfold bind at 1. rewrite H2. unfold ret at 1.
  destruct (Z.ltb_spec r1 0), (Z.ltb_spec r2 0);
    destruct (Z.leb_spec 0 r1), (Z.leb_spec 0 r2); try lia; reflexivity.
Qed.

Lemma reconfigure_one_eother (dir : string) (w : world) :
  chdir E w dir = CHDIR_EOTHER →
  reconfigure_one E dir w
  = (Ret false,
     add_log (EvWarning ("could not switch to '" ++ dir ++ "'"))
       (add_log (EvChdir dir CHDIR_EOTHER) w)).
Proof. intros Hcd. unfold reconfigure_one, bind at 1, do_chdir. by rewrite Hcd. Qed.

(** A directory that can be entered: what discovery finds decides. *)
Lemma reconfigure_one_ownership (dir : string) (w : world) :
  chdir E w dir = CHDIR_OK →
  fst (fst (discover_git_directory_reason E (add_log (EvChdir dir CHDIR_OK) w)))
    = GIT_DIR_INVALID_OWNERSHIP →
  reconfigure_one E dir w
  = (Ret false,
     add_log (EvWarning ("repository at '" ++ dir ++ "' has different owner"))
       (add_log (EvChdir dir CHDIR_OK) w)).
Proof.
  intros Hcd Hr. unfold reconfigure_one, bind at 1, do_chdir. rewrite Hcd.
  unfold bind at 1, ask.
  destruct (discover_git_directory_reason E _) as [[reason c] g]. simpl in Hr.
  by subst reason.
Qed.

Lemma reconfigure_one_format (dir : string) (w : world) :
  chdir E w dir = CHDIR_OK →
  fst (fst (discover_git_directory_reason E (add_log (EvChdir dir CHDIR_OK) w)))
    = GIT_DIR_INVALID_GITFILE
  ∨ fst (fst (discover_git_directory_reason E (add_log (EvChdir dir CHDIR_OK) w)))
    = GIT_DIR_INVALID_FORMAT →
  reconfigure_one E dir w
  = (Ret false,
     add_log (EvWarning ("repository at '" ++ dir ++ "' has a format issue"))
       (add_log (EvChdir dir CHDIR_OK) w)).
Proof.
  intros Hcd Hr. unfold reconfigure_one, bind at 1, do_chdir. rewrite Hcd.
  unfold bind at 1, ask.
  destruct (discover_git_directory_reason E _) as [[reason c] g]. simpl in Hr.
  by destruct Hr; subst reason.
Qed.

(** A repository is discovered: the item is configured in the context
    of that repository and is a handled one, whatever the configuration
    and the maintenance return. *)
Lemma reconfigure_one_discovered (dir : string) (w : world) :
  chdir E w dir = CHDIR_OK →
  let w1 := add_log (EvChdir dir CHDIR_OK) w in
  let found := discover_git_directory_reason E w1 in
  fst (fst found) = GIT_DIR_DISCOVERED →
  let w2 := reconfigure_context E (snd (fst found)) (snd found) w1 in
  ∃ r1 w3 r2 w4,
    set_recommended_config E true w2 = (Ret r1, w3)
    ∧ toggle_maintenance E true w3 = (Ret r2, w4)
    ∧ reconfigure_one E dir w = (Ret true, w4).
Proof.
  intros Hcd w1 found Hr w2.
  destruct (returns_set_recommended_config true w2) as (r1 & w3 & H1).
  destruct (returns_toggle_maintenance true w3) as (r2 & w4 & H2).
  exists r1, w3, r2, w4. split; [done|]. split; [done|].
  unfold reconfigure_one, bind at 1, do_chdir. rewrite Hcd.
  unfold bind at 1, ask. fold w1. fold found. subst w2.
  destruct found as [[reason c] g]. simpl in Hr. subst reason. cbn [fst snd] in *.
  cbv zeta. unfold bind at 1, emit. unfold bind at 1. unfold bind at 1.
  unfold reconfigure_context in H1. cbv zeta in H1. rewrite H1.
  unfold bind at 1. rewrite H2. unfold ret.
  by destruct (0 <=? r2), (0 <=? r1).
Qed.

(** No repository is found: the item is configured all the same, and
    is handled as soon as the configuration or the maintenance returns a
    status that is not negative. *)
Lemma reconfigure_one_other (dir : string) (w : world) :
  chdir E w dir = CHDIR_OK →
  let w1 := add_log (EvChdir dir CHDIR_OK) w in
  let found := discover_git_directory_reason E w1 in
  fst (fst found) = GIT_DIR_OTHER →
  let w2 := reconfigure_context E (snd (fst found)) (snd found)
              (add_log (EvWarning ("repository not found in '" ++ dir ++ "'")) w1) in
  ∃ r1 w3 r2 w4,
    set_recommended_config E true w2 = (Ret r1, w3)
    ∧ toggle_maintenance E true w3 = (Ret r2, w4)
    ∧ reconfigure_one E dir w = (Ret ((0 <=? r1) || (0 <=? r2)), w4).
Proof.
  intros Hcd w1 found Hr w2.
  destruct (returns_set_recommended_config true w2) as (r1 & w3 & H1).
  destruct (returns_toggle_maintenance true w3) as (r2 & w4 & H2).
  exists r1, w3, r2, w4. split; [done|]. split; [done|].
  unfold reconfigure_one, bind at 1, do_chdir. rewrite Hcd.
  unfold bind at 1, ask. fold w1. fold found. subst w2.
  destruct found as [[reason c] g]. simpl in Hr. subst reason. cbn [fst snd] in *.
  cbv zeta. unfold bind at 1, warning, emit. unfold bind at 1. unfold bind at 1.
  unfold bind at 1. unfold reconfigure_context in H1. cbv zeta in H1. rewrite H1.
  unfold bind at 1. rewrite H2. unfold ret.
  by destruct (0 <=? r2), (0 <=? r1).
Qed.

(** The item fails exactly when [item_fails] says so. *)
Lemma reconfigure_one_verdict (dir : string) (w : world) :
  ∃ w1, reconfigure_one E dir w = (Ret (negb (item_fails E dir w)), w1).
Proof.
  unfold item_fails. cbv zeta. destruct (chdir E w dir) eqn:Hcd.
  - destruct (fst (fst (discover_git_directory_reason E
                          (add_log (EvChdir dir CHDIR_OK) w)))) eqn:Hr.
    + destruct (reconfigure_one_discovered dir w Hcd Hr) as (r1 & w3 & r2 & w4 & _ & _ & ->).
      by eexists.
    + rewrite reconfigure_one_ownership by done. by eexists.
    + rewrite reconfigure_one_format by auto. by eexists.
    + rewrite reconfigure_one_format by auto. by eexists.
    + destruct (reconfigure_one_other dir w Hcd Hr) as (r1 & w3 & r2 & w4 & H1 & H2 & ->).
      rewrite H1, H2. eexists. f_equal. f_equal.
      destruct (Z.ltb_spec r1 0), (Z.ltb_spec r2 0);
        destruct (Z.leb_spec 0 r1), (Z.leb_spec 0 r2); try lia; reflexivity.
  - destruct (reconfigure_one_enoent dir w Hcd) as (r1 & sts1 & r2 & sts2 & H1 & H2 & ->).
    rewrite H1, H2. eexists. f_equal. f_equal.
    destruct (Z.ltb_spec r1 0), (Z.ltb_spec r2 0);
      destruct (Z.leb_spec 0 r1), (Z.leb_spec 0 r2); try lia; reflexivity.
  - rewrite reconfigure_one_eother by done. by eexists.
Qed.

Lemma item_results_verdicts (scalar_repos : list string) (w : world) :
  item_results E scalar_repos w = map negb (item_verdicts E scalar_repos w).
Proof.
  revert w. induction scalar_repos as [|dir rest IH]; intros w; [done|].
  simpl. unfold after_item. destruct (reconfigure_one_verdict dir w) as (w1 & ->).
  cbn [snd]. destruct (item_fails E dir w); cbn [negb]; by rewrite IH.
Qed.

Lemma forallb_negb (l : list bool) : forallb id (map negb l) = negb (existsb id l).
Proof. induction l as [|[] l IH]; simpl; [done|done|by rewrite IH]. Qed.

End Reconfigure.

(** ** [dir_inside_of] *)

Section Guards.

Variable E : env.

Lemma cmp_icase_eq_refl (icase : bool) (c : ascii) : cmp_icase_eq icase c c = true.
Proof. unfold cmp_icase_eq. by rewrite Ascii.eqb_refl. Qed.

Lemma is_dir_sep_slash : is_dir_sep E "/" = true.
Proof. reflexivity. Qed.

(** A path is inside itself, and a path below it is inside it. *)
Lemma dir_inside_of_from_same (icase : bool) (prev : option (ascii * ascii))
  (offset : Z) (dir : string) :
  0 ≤ offset → 0 ≤ dir_inside_of_from E icase prev offset dir dir.
Proof.
  revert prev offset. induction dir as [|c dir IH]; intros prev offset Ho; simpl.
  - done.
  - rewrite cmp_icase_eq_refl. apply IH. lia.
Qed.

Lemma dir_inside_of_from_below (icase : bool) (prev : option (ascii * ascii))
  (offset : Z) (dir rest : string) :
  0 ≤ offset →
  match prev with
  | Some (d, s) => d = s
  | None => dir ≠ EmptyString
  end →
  0 ≤ dir_inside_of_from E icase prev offset (dir ++ String "/" rest) dir.
Proof.
  revert prev offset. induction dir as [|c dir IH]; intros prev offset Ho Hprev.
  - simpl. destruct prev as [[d s]|]; [|done]. subst s.
    destruct (is_dir_sep E d); [done|]. rewrite ?is_dir_sep_slash. simpl. lia.
  - change (String c dir ++ String "/" rest) with (String c (dir ++ String "/" rest)).
    simpl. rewrite cmp_icase_eq_refl. apply IH; [lia|done].
Qed.

Lemma dir_inside_of_run (subdir dir : string) (w : world) :
  dir_inside_of E subdir dir w
  = (Ret (dir_inside_of_from E (ignore_case E w) None 0 subdir dir), w).
Proof. reflexivity. Qed.

(** ** The cache root inside the worktree *)

Lemma clone_cache_root_guard_nested (root dir enlistment : string) (w : world) :
  0 ≤ dir_inside_of_from E (ignore_case E w) None 0 root dir →
  clone_cache_root_guard E root dir enlistment w =
  let w1 := add_log (EvChdir "../.." (chdir E w "../..")) w in
  if chdir_failed (chdir E w "../..")
  then (Exit (nested_cache_unremoved_msg enlistment), w1)
  else
    let s := remove_dir_recursively E w1 enlistment in
    (Exit (if s <? 0 then nested_cache_unremoved_msg enlistment else nested_cache_msg),
     add_log (EvRemoveDir enlistment s) w1).
Proof.
  intros Hin. unfold clone_cache_root_guard, bind at 1. rewrite dir_inside_of_run.
  rewrite (proj2 (Z.leb_le _ _) Hin). unfold bind at 1. unfold bind at 1, do_chdir.
  destruct (chdir_failed (chdir E w "../..")); [done|].
  unfold bind at 1, do_remove_dir_recursively. cbv zeta.
  by destruct (remove_dir_recursively E _ enlistment <? 0).
Qed.

Lemma clone_cache_root_guard_free (root dir enlistment : string) (w : world) :
  dir_inside_of_from E (ignore_case E w) None 0 root dir < 0 →
  clone_cache_root_guard E root dir enlistment w = (Ret tt, w).
Proof.
  intros Hout. unfold clone_cache_root_guard, bind at 1. rewrite dir_inside_of_run.
  by rewrite (proj2 (Z.leb_gt _ _) Hout).
Qed.

(** [clone_into] up to the check of the cache root. *)
Lemma clone_into_run (o : clone_options) (url enlistment dir root : string) (w : world) :
  clone_into E o url enlistment dir root w =
  match run_git E (init_argv E o w dir) w with
  | (Ret res, w1) =>
      if truthy res then (Ret res, w1)
      else
        let w2 := add_log (EvChdir dir (chdir E w1 dir)) w1 in
        if chdir_failed (chdir E w1 dir)
        then (Ret (-1), add_log (EvError ("could not switch to '" ++ dir ++ "'")) w2)
        else
          match setup_git_directory E w2 with
          | Some r => clone_in_repository E o url enlistment dir root (entered E r w2)
          | None => (Exit "not a git repository", add_log EvSetupGitDirectory w2)
          end
  | (Exit msg, w1) => (Exit msg, w1)
  end.
Proof.
  unfold clone_into, init_argv.
  assert (∀ (f : string → M Z) (w0 : world),
            bind (match opt_branch o with
                  | Some b' => ret ("init.defaultBranch=" ++ b')
                  | None => b0 <- ask (repo_default_branch_name E) ;;
                            ret ("init.defaultBranch=" ++ b0)
                  end) f w0
            = f ("init.defaultBranch=" ++ match opt_branch o with
                                        | Some b' => b'
                                        | None => repo_default_branch_name E w0
                                        end) w0) as Hbuf.
  { intros f w0. by destruct (opt_branch o). }
  rewrite Hbuf. unfold bind at 1.
  destruct (run_git E _ w) as [[res|msg] w1]; [|done].
  destruct (truthy res); [done|].
  unfold bind at 1, do_chdir. destruct (chdir_failed (chdir E w1 dir)); [done|].
  unfold bind at 1, do_setup_git_directory.
  destruct (setup_git_directory E _) as [r|]; [|done].
  unfold bind at 1, git_config_load. reflexivity.
Qed.

Lemma clone_in_repository_nested (o : clone_options) (url enlistment dir root : string)
  (w : world) :
  0 ≤ dir_inside_of_from E (ignore_case E w) None 0 root dir →
  clone_in_repository E o url enlistment dir root w
  = match clone_cache_root_guard E root dir enlistment w with
    | (Ret _, w') => (Exit nested_cache_msg, w')
    | (Exit msg, w') => (Exit msg, w')
    end.
Proof.
  intros Hin. unfold clone_in_repository, bind at 1.
  rewrite clone_cache_root_guard_nested by done. cbv zeta.
  by destruct (chdir_failed _).
Qed.

(** [cmd_clone] up to [git init]. *)
Lemma clone_target_world (args : list string) (w : world) :
  snd (clone_target E args w) = w.
Proof.
  unfold clone_target. destruct args as [|url [|enlistment [|x args]]]; try done.
  by destruct (after_last_sep _ _).
Qed.

Lemma ensure_absolute_path_run (path : string) (w : world) :
  ensure_absolute_path E path w
  = (Ret (if is_absolute_path E path then path else realpath_forgiving E w path), w).
Proof. unfold ensure_absolute_path. by destruct (is_absolute_path E path). Qed.

Lemma cmd_clone_run (o : clone_options) (w : world) :
  match clone_plan E o w with
  | Some (url, enlistment, dir, root) =>
      cmd_clone E o w = clone_into E o url enlistment dir root w
  | None => ∃ msg, cmd_clone E o w = (Exit msg, w)
  end.
Proof.
  unfold clone_plan.
  pose proof (clone_target_world (clone_args o) w) as Hw.
  destruct (clone_target E (clone_args o) w) as [[[url enlistment]|msg] w0] eqn:Ht;
    simpl in Hw; subst w0.
  2:{ exists msg. unfold cmd_clone, bind. by rewrite Ht. }
  destruct (is_directory E w enlistment) eqn:Hd.
  { eexists. unfold cmd_clone, bind, ask. rewrite Ht. cbv beta iota. by rewrite Hd. }
  cbv zeta. destruct (opt_local_cache_root o) as [path|] eqn:Ho.
  - unfold cmd_clone, bind, ask. rewrite Ht. cbv beta iota. rewrite Hd, Ho.
    by rewrite !ensure_absolute_path_run.
  - destruct (default_cache_root E _) as [root|] eqn:Hr.
    + unfold cmd_clone, bind, ask. rewrite Ht. cbv beta iota. rewrite Hd, Ho.
      rewrite !ensure_absolute_path_run. unfold ret. by rewrite Hr.
    + eexists. unfold cmd_clone, bind, ask. rewrite Ht. cbv beta iota. rewrite Hd, Ho.
      rewrite !ensure_absolute_path_run. unfold ret. by rewrite Hr.
Qed.

End Guards.

(** ** Counting fetches *)

Lemma is_fetch_fetch_argv (show_progress : bool) (statuses : list Z) :
  is_fetch (EvRunGit (fetch_argv show_progress) statuses) = true.
Proof. reflexivity. Qed.

Lemma filter_no_fetch (evs : list event) :
  Forall (λ e, is_fetch e = false) evs → List.filter is_fetch evs = [].
Proof. induction 1 as [|e evs He _ IH]; [done|]. simpl. by rewrite He. Qed.

(** ** The clone up to its fetch *)

Section FetchStage.

Variable E : env.

Lemma quiet_avoids (value : string) (e : event) : quiet e → avoids value e.
Proof.
  intros [Hf Hs]. split; [done|]. intros ->. by vm_compute in Hs.
Qed.

Lemma quiet_not_fetch (e : event) : quiet e → is_fetch e = false.
Proof. by intros [Hf _]. Qed.

Lemma avoids_not_fetch (value : string) (e : event) : avoids value e → is_fetch e = false.
Proof. by intros [Hf _]. Qed.

Lemma emits_set_config_at (P : event → Prop) (assignment k : string) (v : option string) :
  split_assignment assignment = (k, v) →
  (∀ status, P (EvConfigSet k v status)) →
  emits P (set_config E assignment).
Proof.
  intros Hsplit H. unfold set_config. rewrite Hsplit. by apply emits_set_gently.
Qed.

(** A [set_config] that returns 0 has written its key. *)
Lemma set_config_ok (assignment k : string) (v : option string) (w w' : world) :
  split_assignment assignment = (k, v) →
  set_config E assignment w = (Ret 0, w') →
  log w' = (log w ++ [EvConfigSet k v 0])%list.
Proof.
  intros Hsplit. unfold set_config. rewrite Hsplit.
  destruct (set_gently_run E k v w) as [[_ ->]|[Hs ->]].
  - by intros [= <-].
  - intros [= Hz _]. done.
Qed.

Lemma emits_remote_default_branch (url : string) :
  emits quiet (remote_default_branch E url).
Proof.
  intros w o w'. rewrite remote_default_branch_run. cbv zeta.
  destruct (remote_head E url w) as [target|].
  - destruct (skip_prefix target "refs/heads/"); intros [= <- <-].
    + eexists [_]. split; [done|]. by repeat constructor.
    + eexists [_; _]. split; [cbn [log add_log]; by rewrite <- !app_assoc|].
      by repeat constructor.
  - destruct (_ =? 0); intros [= <- <-].
    + eexists [_; _; _]. split; [cbn [log add_log]; by rewrite <- !app_assoc|].
      by repeat constructor.
    + eexists [_; _; _; _]. split; [cbn [log add_log]; by rewrite <- !app_assoc|].
      by repeat constructor.
Qed.

Lemma emits_supports_gvfs_protocol (url : string) :
  emits quiet (supports_gvfs_protocol E url true).
Proof.
  unfold supports_gvfs_protocol.
  destruct (negb (can_url_support_gvfs E url)); [apply emits_ret|].
  apply emits_bind; [by emits_auto|]. intros [status out].
  destruct (negb (truthy status)); [|apply emits_ret].
  cbv zeta. simpl negb. cbv iota.
  destruct (iterate_json get_cache_server_index _ 0) as [r l].
  destruct (r <? 0); [by emits_auto|].
  destruct (values_shown get_cache_server_index _ 0) as [shown ended].
  destruct (iterate_json get_cache_server_url _ _) as [r' data].
  destruct (r' <? 0); by emits_auto.
Qed.

Lemma emits_clone_negotiate (cache_server_url : option string) (url : string) :
  emits quiet (clone_negotiate E cache_server_url url).
Proof.
  unfold clone_negotiate. destruct cache_server_url; [apply emits_ret|].
  apply emits_bind; [apply emits_supports_gvfs_protocol|].
  intros [res stored]. apply emits_ret.
Qed.

Lemma emits_get_cache_key (url : string) : emits quiet (get_cache_key E url).
Proof.
  unfold get_cache_key. apply emits_bind.
  - destruct (_ && _); [|apply emits_ret].
    apply emits_bind; [by emits_auto|]. intros [status out].
    destruct (negb (truthy status)); [|apply emits_ret].
    destruct (iterate_json get_repository_id _ None) as [r id].
    destruct (r <? 0); [by emits_auto|]. destruct id; apply emits_ret.
  - intros [k|]; apply emits_ret.
Qed.

Lemma emits_init_shared_object_cache (url root : string) :
  emits quiet (init_shared_object_cache E url root).
Proof.
  unfold init_shared_object_cache.
  apply emits_bind; [apply emits_get_cache_key|]. intros cache_key. cbv zeta.
  apply emits_bind.
  { eapply emits_set_config_at; [reflexivity|done]. }
  intros r. destruct (truthy r); [by emits_auto|].
  apply emits_bind.
  { intros w o w' [= <- <-]. eexists [_]. split; [done|]. by repeat constructor. }
  intros ok. destruct (negb ok); by emits_auto.
Qed.

Lemma emits_set_scalar_config_quiet (cfg : scalar_config) (reconfigure : bool) :
  String.eqb (key cfg) "core.useGVFSHelper" = false →
  emits quiet (set_scalar_config E cfg reconfigure).
Proof.
  intros Hk. unfold set_scalar_config.
  apply emits_bind; [destruct (_ && _); by emits_auto|]. intros current.
  destruct (_ || _); by emits_auto.
Qed.

Lemma emits_set_scalar_configs_quiet (table : list scalar_config) (reconfigure : bool) :
  Forall (λ cfg, String.eqb (key cfg) "core.useGVFSHelper" = false) table →
  emits quiet (set_scalar_configs E table reconfigure).
Proof.
  induction 1 as [|cfg table Hk _ IH]; simpl; [apply emits_ret|].
  apply emits_bind; [by apply emits_set_scalar_config_quiet|]. intros r.
  destruct (truthy r); [by emits_auto|done].
Qed.

Lemma emits_set_recommended_config_quiet (reconfigure : bool) :
  emits quiet (set_recommended_config E reconfigure).
Proof.
  unfold set_recommended_config.
  apply emits_bind; [unfold migrate_usebuiltinfsmonitor; by emits_auto|]. intros r.
  destruct (truthy r); [apply emits_ret|].
  apply emits_bind.
  { apply emits_set_scalar_configs_quiet. unfold recommended_config.
    destruct (target E); repeat (constructor; [reflexivity|]); constructor. }
  intros r'. destruct (truthy r'); [apply emits_ret|].
  apply emits_bind.
  { unfold configure_fsmonitor, have_fsmonitor_support.
    apply emits_bind; [apply emits_ask|]. intros [|]; [|apply emits_ret].
    apply emits_bind; [by apply emits_set_scalar_config_quiet|]. intros ?.
    by emits_auto. }
  intros r''. destruct (truthy r''); [apply emits_ret|].
  unfold configure_exclude_decoration. by emits_auto.
Qed.

Lemma emits_clone_cache_root_guard (root dir enlistment : string) :
  emits quiet (clone_cache_root_guard E root dir enlistment).
Proof. unfold clone_cache_root_guard, dir_inside_of. by emits_auto. Qed.

(** *** Composing the stages *)

Lemma fetch_stage_ends (m : M Z) :
  emits (λ e, is_fetch e = false) m → fetch_stage E m.
Proof. intros Hm w out w' Hrun. left. by eapply Hm. Qed.

Lemma fetch_stage_bind {A : Type} (f : M A) (k : A → M Z) :
  emits quiet f → (∀ a, fetch_stage E (k a)) → fetch_stage E (bind f k).
Proof.
  intros Hf Hk w out w'. unfold bind.
  destruct (f w) as [[a|msg] w0] eqn:Hw; destruct (Hf _ _ _ Hw) as (evs0 & Hlog0 & Hq0).
  - intros Hrun.
    destruct (Hk a _ _ _ Hrun) as [(evs & Hlog & Hno)|(gvfs & branch & w1 & pre & H)].
    + left. exists (evs0 ++ evs)%list. split; [by rewrite Hlog, Hlog0, app_assoc|].
      apply Forall_app. split; [|done].
      eapply Forall_impl; [done|]. apply quiet_not_fetch.
    + destruct H as (Hlog & Hav & Hcfg & Hfetch).
      right. exists gvfs, branch, w1, (evs0 ++ pre)%list. split_and!.
      * by rewrite Hlog, Hlog0, app_assoc.
      * apply Forall_app. split; [|done].
        eapply Forall_impl; [done|]. apply quiet_avoids.
      * destruct gvfs.
        -- unfold configured_accelerated in *. apply elem_of_app. by right.
        -- unfold configured_partial in *. destruct Hcfg as (H1 & H2 & H3).
           rewrite !elem_of_app. auto.
      * done.
  - intros [= <- <-]. left. exists evs0. split; [done|].
    eapply Forall_impl; [done|]. apply quiet_not_fetch.
Qed.

Lemma fetch_stage_of_here (gvfs : bool) (branch : string) :
  fetch_stage_of E gvfs branch
    (clone_fetch E gvfs (isatty_stderr E) (clone_finish E branch)).
Proof.
  intros w out w' Hrun. right. exists w, []. split; [by rewrite app_nil_r|].
  split; [constructor|done].
Qed.

Lemma fetch_stage_of_ends (gvfs : bool) (branch : string) (m : M Z) :
  emits quiet m → fetch_stage_of E gvfs branch m.
Proof.
  intros Hm w out w' Hrun. left. destruct (Hm _ _ _ Hrun) as (evs & Hlog & Hq).
  exists evs. split; [done|]. eapply Forall_impl; [done|]. apply quiet_not_fetch.
Qed.

Lemma fetch_stage_of_bind {A : Type} (gvfs : bool) (branch : string)
  (f : M A) (k : A → M Z) :
  emits quiet f → (∀ a, fetch_stage_of E gvfs branch (k a)) →
  fetch_stage_of E gvfs branch (bind f k).
Proof.
  intros Hf Hk w out w'. unfold bind.
  destruct (f w) as [[a|msg] w0] eqn:Hw; destruct (Hf _ _ _ Hw) as (evs0 & Hlog0 & Hq0).
  - intros Hrun.
    destruct (Hk a _ _ _ Hrun) as [(evs & Hlog & Hno)|(w1 & pre & Hlog & Hq & Hfetch)].
    + left. exists (evs0 ++ evs)%list. split; [by rewrite Hlog, Hlog0, app_assoc|].
      apply Forall_app. split; [|done].
      eapply Forall_impl; [done|]. apply quiet_not_fetch.
    + right. exists w1, (evs0 ++ pre)%list. split_and!.
      * by rewrite Hlog, Hlog0, app_assoc.
      * by apply Forall_app.
      * done.
  - intros [= <- <-]. left. exists evs0. split; [done|].
    eapply Forall_impl; [done|]. apply quiet_not_fetch.
Qed.

Lemma fetch_stage_of_after_path (o : clone_options) (dir branch : string) (gvfs : bool) :
  fetch_stage_of E gvfs branch (clone_after_path E o dir branch gvfs).
Proof.
  unfold clone_after_path.
  apply fetch_stage_of_bind; [destruct (negb _); by emits_auto|]. intros res.
  destruct (truthy res); [apply fetch_stage_of_ends, emits_ret|].
  apply fetch_stage_of_bind; [apply emits_set_recommended_config_quiet|]. intros r.
  destruct (truthy r); [apply fetch_stage_of_ends; by emits_auto|].
  apply fetch_stage_of_here.
Qed.

Lemma bind_Ret {A B : Type} (f : M A) (k : A → M B) (w : world) (b : B) (w' : world) :
  bind f k w = (Ret b, w') → ∃ a w1, f w = (Ret a, w1) ∧ k a w1 = (Ret b, w').
Proof.
  unfold bind. destruct (f w) as [[a|msg] w1]; [|done]. intros H. by exists a, w1.
Qed.

Lemma error_not_0 (msg : string) (w w' : world) : error msg w ≠ (Ret 0, w').
Proof. unfold error, bind, emit, ret. by intros [=]. Qed.

Lemma log_grows {A : Type} (P : event → Prop) (m : M A) (w : world)
  (o : outcome A) (w' : world) :
  emits P m → m w = (o, w') → ∃ evs, log w' = (log w ++ evs)%list.
Proof. intros Hm Hw. destruct (Hm _ _ _ Hw) as (evs & Hlog & _). by exists evs. Qed.

Lemma emits_configure_accelerated (o : clone_options) (url dir root : string)
  (dflt : option string) :
  emits (avoids "false") (clone_configure_path E o url dir root true dflt).
Proof.
  assert (∀ k v s, String.eqb k "core.useGVFSHelper" = false →
            avoids "false" (EvConfigSet k v s)) as Hother.
  { intros k v s Hk. apply quiet_avoids. by split. }
  unfold clone_configure_path.
  apply emits_bind.
  { eapply emits_weaken; [apply quiet_avoids|apply emits_init_shared_object_cache]. }
  intros res. destruct (truthy res); [apply emits_ret|]. cbv zeta.
  apply emits_bind.
  { unfold set_config_all.
    apply emits_bind.
    { eapply emits_set_config_at; [reflexivity|].
      intros s. split; [done|]. unfold helper_switch. by intros [=]. }
    intros r1. destruct (truthy r1); [apply emits_ret|].
    apply emits_bind.
    { eapply emits_set_config_at; [reflexivity|]. intros s. by apply Hother. }
    intros r2. destruct (truthy r2); [apply emits_ret|].
    apply emits_bind.
    { eapply emits_set_config_at; [reflexivity|]. intros s. by apply Hother. }
    intros r3. destruct (truthy r3); apply emits_ret. }
  intros r. destruct (truthy r).
  { apply emits_error. apply quiet_avoids. by split. }
  destruct (match opt_cache_server_url o with Some u => Some u | None => dflt end)
    as [u|]; [|apply emits_ret].
  apply emits_bind.
  { eapply emits_set_config_at; [reflexivity|]. intros s. by apply Hother. }
  intros r4. destruct (truthy r4).
  { apply emits_error. apply quiet_avoids. by split. }
  apply emits_bind; [|intros _; apply emits_ret].
  apply emits_emit. apply quiet_avoids. by split.
Qed.

Lemma emits_configure_partial (o : clone_options) (url dir root : string)
  (dflt : option string) :
  emits (avoids "true") (clone_configure_path E o url dir root false dflt).
Proof.
  assert (∀ k v s, String.eqb k "core.useGVFSHelper" = false →
            avoids "true" (EvConfigSet k v s)) as Hother.
  { intros k v s Hk. apply quiet_avoids. by split. }
  unfold clone_configure_path.
  apply emits_bind.
  { unfold set_config_all.
    apply emits_bind.
    { eapply emits_set_config_at; [reflexivity|].
      intros s. split; [done|]. unfold helper_switch. by intros [=]. }
    intros r1. destruct (truthy r1); [apply emits_ret|].
    apply emits_bind.
    { eapply emits_set_config_at; [reflexivity|]. intros s. by apply Hother. }
    intros r2. destruct (truthy r2); [apply emits_ret|].
    apply emits_bind.
    { eapply emits_set_config_at; [reflexivity|]. intros s. by apply Hother. }
    intros r3. destruct (truthy r3); apply emits_ret. }
  intros r. destruct (truthy r); [|apply emits_ret].
  apply emits_error. apply quiet_avoids. by split.
Qed.

(** A [set_config] of the list that returns 0 with the others. *)
Lemma set_config_all_cons (a : string) (rest : list string) (w w' : world) :
  set_config_all E (a :: rest) w = (Ret 0, w') →
  ∃ w1, set_config E a w = (Ret 0, w1) ∧ set_config_all E rest w1 = (Ret 0, w').
Proof.
  simpl. intros H. apply bind_Ret in H as (r & w1 & Ha & H).
  destruct (truthy r) eqn:Hr.
  - injection H as -> _. done.
  - apply truthy_false in Hr. subst r. by exists w1.
Qed.

Lemma emits_set_config_all (P : event → Prop) (assignments : list string) :
  (∀ k v s, P (EvConfigSet k v s)) → emits P (set_config_all E assignments).
Proof.
  intros HP. induction assignments as [|a rest IH]; simpl; [apply emits_ret|].
  apply emits_bind; [by apply emits_set_config|]. intros r.
  destruct (truthy r); [apply emits_ret|done].
Qed.

(** The configuration of the way of cloning writes the switch one way
    only, and has written it when it returns 0. *)
Lemma clone_configure_path_run (o : clone_options) (url dir root : string)
  (gvfs : bool) (dflt : option string) (w : world) (out : outcome Z) (w1 : world) :
  clone_configure_path E o url dir root gvfs dflt w = (out, w1) →
  ∃ evs, log w1 = (log w ++ evs)%list
         ∧ Forall (avoids (if gvfs then "false" else "true")) evs
         ∧ (out = Ret 0 →
            if gvfs then configured_accelerated evs else configured_partial evs).
Proof.
  intros Hrun.
  assert (∃ evs, log w1 = (log w ++ evs)%list
                 ∧ Forall (avoids (if gvfs then "false" else "true")) evs)
    as (evs & Hlog & Hav).
  { destruct gvfs;
      [apply (emits_configure_accelerated _ _ _ _ _ _ _ _ Hrun)
      |apply (emits_configure_partial _ _ _ _ _ _ _ _ Hrun)]. }
  exists evs. split; [done|]. split; [done|]. intros ->.
  unfold clone_configure_path in Hrun. destruct gvfs.
  - apply bind_Ret in Hrun as (res & w0 & Hinit & H).
    destruct (truthy res) eqn:Hres; [injection H as -> _; done|].
    cbv zeta in H. apply bind_Ret in H as (r & w2 & Hall & H).
    destruct (truthy r) eqn:Hr; [by apply error_not_0 in H|].
    apply truthy_false in Hr. subst r.
    apply set_config_all_cons in Hall as (wa & H1 & Hall).
    pose proof (set_config_ok "core.useGVFSHelper=true" _ _ _ _ eq_refl H1) as L1.
    destruct (log_grows _ _ _ _ _ (emits_init_shared_object_cache url root) Hinit)
      as (evs0 & L0).
    destruct (log_grows _ _ _ _ _ (emits_set_config_all (λ _, True) _ (λ _ _ _, I)) Hall)
      as (evs2 & L2).
    assert (∃ evs3, log w1 = (log w2 ++ evs3)%list) as (evs3 & L3).
    { revert H. apply (log_grows (λ _, True)).
      destruct (match opt_cache_server_url o with Some u => Some u | None => dflt end);
        by emits_auto. }
    rewrite L3, L2, L1, L0, <- !app_assoc in Hlog. apply app_inv_head in Hlog.
    subst evs. unfold configured_accelerated, helper_switch.
    rewrite !elem_of_app. right. left. by apply list_elem_of_singleton.
  - apply bind_Ret in Hrun as (r & w0 & Hall & H).
    destruct (truthy r) eqn:Hr; [by apply error_not_0 in H|].
    apply truthy_false in Hr. subst r. injection H as <-.
    apply set_config_all_cons in Hall as (wa & H1 & Hall).
    apply set_config_all_cons in Hall as (wb & H2 & Hall).
    apply set_config_all_cons in Hall as (wc & H3 & Hall).
    injection Hall as <-.
    pose proof (set_config_ok "core.useGVFSHelper=false" _ _ _ _ eq_refl H1) as L1.
    pose proof (set_config_ok "remote.origin.promisor=true" _ _ _ _ eq_refl H2)
      as L2.
    pose proof (set_config_ok "remote.origin.partialCloneFilter=blob:none" _ _ _ _
                  eq_refl H3) as L3.
    rewrite L3, L2, L1, <- !app_assoc in Hlog. apply app_inv_head in Hlog.
    subst evs. unfold configured_partial, helper_switch.
    split_and!; simpl; set_solver.
Qed.

Lemma clone_configure_and_fetch_split (o : clone_options) (url dir root branch : string)
  (w : world) :
  clone_configure_and_fetch E o url dir root branch w =
  (negotiated <- clone_negotiate E (opt_cache_server_url o) url ;;
   res <- clone_configure_path E o url dir root (fst negotiated) (snd negotiated) ;;
   if truthy res then ret res else clone_after_path E o dir branch (fst negotiated)) w.
Proof.
  unfold clone_configure_and_fetch, clone_configure_path, clone_after_path, bind.
  destruct (clone_negotiate E (opt_cache_server_url o) url w)
    as [[[gvfs dflt]|msg] w0]; [|done].
  cbn [fst snd]. destruct gvfs; reflexivity.
Qed.

Lemma fetch_stage_configure (o : clone_options) (url dir root branch : string) :
  fetch_stage E (clone_configure_and_fetch E o url dir root branch).
Proof.
  intros w out w'. rewrite clone_configure_and_fetch_split. revert w out w'.
  apply fetch_stage_bind; [apply emits_clone_negotiate|]. intros [gvfs dflt].
  cbn [fst snd]. intros w out w'. unfold bind.
  destruct (clone_configure_path E o url dir root gvfs dflt w) as [[res|msg] w0] eqn:Hc;
    destruct (clone_configure_path_run _ _ _ _ _ _ _ _ _ Hc) as (evs0 & Hlog0 & Hav0 & Hcfg).
  2:{ intros [= <- <-]. left. exists evs0. split; [done|].
      eapply Forall_impl; [done|]. apply avoids_not_fetch. }
  destruct (truthy res) eqn:Hres.
  { intros [= <- <-]. left. exists evs0. split; [done|].
    eapply Forall_impl; [done|]. apply avoids_not_fetch. }
  apply truthy_false in Hres. subst res. intros Hrun.
  destruct (fetch_stage_of_after_path o dir branch gvfs _ _ _ Hrun)
    as [(evs & Hlog & Hno)|(w1 & pre & Hlog & Hq & Hfetch)].
  - left. exists (evs0 ++ evs)%list. split; [by rewrite Hlog, Hlog0, app_assoc|].
    apply Forall_app. split; [|done].
    eapply Forall_impl; [done|]. apply avoids_not_fetch.
  - right. exists gvfs, branch, w1, (evs0 ++ pre)%list. split_and!.
    + by rewrite Hlog, Hlog0, app_assoc.
    + apply Forall_app. split; [done|].
      eapply Forall_impl; [done|]. apply quiet_avoids.
    + specialize (Hcfg eq_refl). destruct gvfs.
      * unfold configured_accelerated in *. apply elem_of_app. by left.
      * unfold configured_partial in *. destruct Hcfg as (H1 & H2 & H3).
        rewrite !elem_of_app. auto.
    + done.
Qed.

Lemma fetch_stage_in_repository (o : clone_options) (url enlistment dir root : string) :
  fetch_stage E (clone_in_repository E o url enlistment dir root).
Proof.
  unfold clone_in_repository.
  apply fetch_stage_bind; [apply emits_clone_cache_root_guard|]. intros _.
  apply fetch_stage_bind; [unfold trace2_data_intmax; by emits_auto|]. intros _.
  apply fetch_stage_bind.
  { destruct (opt_branch o); [apply emits_ret|apply emits_remote_default_branch]. }
  intros [branch|]; [|apply fetch_stage_ends; by emits_auto].
  apply fetch_stage_bind.
  { unfold set_config_all.
    apply emits_bind;
      [eapply emits_set_config_at; [reflexivity|done]|].
    intros r1. destruct (truthy r1); [apply emits_ret|].
    apply emits_bind.
    { eapply emits_set_config_at; [reflexivity|done]. }
    intros r2. destruct (truthy r2); apply emits_ret. }
  intros r. destruct (truthy r); [apply fetch_stage_ends; by emits_auto|].
  apply fetch_stage_bind.
  { eapply emits_set_config_at; [reflexivity|done]. }
  intros r'. destruct (truthy r'); [apply fetch_stage_ends; by emits_auto|].
  apply fetch_stage_configure.
Qed.

Lemma fetch_stage_into (o : clone_options) (url enlistment dir root : string) :
  fetch_stage E (clone_into E o url enlistment dir root).
Proof.
  unfold clone_into.
  apply fetch_stage_bind; [destruct (opt_branch o); by emits_auto|]. intros buf.
  apply fetch_stage_bind; [by emits_auto|]. intros res.
  destruct (truthy res); [apply fetch_stage_ends, emits_ret|].
  apply fetch_stage_bind; [by emits_auto|]. intros cd.
  destruct (chdir_failed cd); [apply fetch_stage_ends; by emits_auto|].
  apply fetch_stage_bind; [by emits_auto|]. intros _.
  apply fetch_stage_bind; [by emits_auto|]. intros _.
  apply fetch_stage_in_repository.
Qed.

Lemma fetch_stage_cmd_clone (o : clone_options) : fetch_stage E (cmd_clone E o).
Proof.
  unfold cmd_clone.
  apply fetch_stage_bind.
  { unfold clone_target. destruct (clone_args o) as [|url [|enlistment [|x args]]];
      try apply emits_die; [|apply emits_ret].
    destruct (after_last_sep _ _); [apply emits_ret|apply emits_die]. }
  intros [url enlistment].
  apply fetch_stage_bind; [apply emits_ask|]. intros exists_already.
  destruct exists_already; [apply fetch_stage_ends, emits_die|].
  apply fetch_stage_bind; [unfold ensure_absolute_path; by emits_auto|]. intros abs.
  apply fetch_stage_bind.
  { destruct (opt_local_cache_root o); [|apply emits_ret].
    unfold ensure_absolute_path. by emits_auto. }
  intros [root|]; [|apply fetch_stage_ends, emits_die].
  apply fetch_stage_into.
Qed.

(** *** The first fetch in the record *)

Lemma first_fetch_unique (l1 l2 r1 r2 : list event) (a b : event) :
  (l1 ++ a :: r1 = l2 ++ b :: r2)%list →
  Forall (λ e, is_fetch e = false) l1 → Forall (λ e, is_fetch e = false) l2 →
  is_fetch a = true → is_fetch b = true →
  l1 = l2 ∧ a = b ∧ r1 = r2.
Proof.
  revert l2. induction l1 as [|x l1 IH]; intros [|y l2] Heq H1 H2 Ha Hb.
  - by injection Heq as -> ->.
  - injection Heq as -> _. apply Forall_cons in H2 as [H2 _]. congruence.
  - injection Heq as -> _. apply Forall_cons in H1 as [H1 _]. congruence.
  - injection Heq as -> Heq. apply Forall_cons in H1 as [_ H1].
    apply Forall_cons in H2 as [_ H2].
    destruct (IH _ Heq H1 H2 Ha Hb) as (-> & -> & ->). done.
Qed.

Lemma run_git_result_run (argv : list string) (w : world) :
  ∃ statuses,
    run_git E argv w = (Ret (run_git_result statuses), add_log (EvRunGit argv statuses) w).
Proof.
  unfold run_git, run_git_result.
  pose proof (run_git_loop_spec (run_command E w argv) (git_retries w) 0 1) as [_ Hlast].
  destruct run_git_loop as [res sts]. simpl in Hlast. subst res. by exists sts.
Qed.

(** [clone_fetch] once its first fetch has failed. *)
Lemma clone_fetch_failed (gvfs : bool) (branch : string) (w : world)
  (out : outcome Z) (w' : world) :
  clone_fetch E gvfs (isatty_stderr E) (clone_finish E branch) w = (out, w') →
  ∃ statuses post,
    log w' = (log w ++ fetch_event E statuses :: post)%list
    ∧ (run_git_result statuses ≠ 0 →
       if gvfs
       then out = Ret (-1) ∧ post = [EvError "failed to prefetch commits and trees"]
       else fallback E out post).
Proof.
  unfold clone_fetch, bind at 1.
  destruct (run_git_result_run (fetch_argv (isatty_stderr E)) w) as (sts & ->).
  destruct (truthy (run_git_result sts)) eqn:Hres.
  2:{ intros Hfin. destruct (clone_finish_no_fetch E branch _ _ _ Hfin) as (evs & Hlog & _).
      exists sts, evs. split.
      - rewrite Hlog. cbn [log add_log]. by rewrite <- app_assoc.
      - apply truthy_false in Hres. done. }
  destruct gvfs.
  { unfold error, bind, emit, ret. intros [= <- <-]. eexists sts, [_]. split.
    - cbn [log add_log]. by rewrite <- app_assoc.
    - done. }
  unfold bind at 1, warning, emit. unfold bind at 1.
  rewrite set_config_promisor.
  destruct (set_gently_run E "remote.origin.promisor" None
              (add_log (EvWarning "partial clone failed; attempting full clone")
                 (add_log (EvRunGit (fetch_argv (isatty_stderr E)) sts) w)))
    as [[_ ->]|[Hs1 ->]].
  2:{ rewrite (proj2 (truthy_true _) Hs1). unfold bind at 1, ret.
      rewrite (proj2 (truthy_true _) Hs1).
      unfold error, bind, emit, ret. intros [= <- <-]. eexists sts, [_; _; _]. split.
      - cbn [log add_log]. by rewrite <- !app_assoc.
      - intros _. by apply fallback_promisor_kept. }
  rewrite truthy_0. unfold bind at 1. rewrite set_config_filter.
  match goal with |- context [git_config_set_gently E ?k ?v ?x] =>
    destruct (set_gently_run E k v x) as [[_ ->]|[Hs2 ->]] end.
  2:{ rewrite (proj2 (truthy_true _) Hs2).
      unfold error, bind, emit, ret. intros [= <- <-]. eexists sts, [_; _; _; _]. split.
      - cbn [log add_log with_config]. by rewrite <- !app_assoc.
      - intros _. by apply fallback_filter_kept. }
  rewrite truthy_0. unfold bind at 1.
  match goal with |- context [run_git E ?a ?x] =>
    destruct (run_git_result_run a x) as (sts2 & ->) end.
  destruct (truthy (run_git_result sts2)) eqn:Hres2.
  - intros [= <- <-]. exists sts. eexists. split.
    + cbn [log add_log with_config]. rewrite <- !app_assoc. reflexivity.
    + intros _.
      apply (fallback_second_fetch E sts2 (Ret (run_git_result sts2)) []);
        [constructor|done].
  - intros Hfin. destruct (clone_finish_no_fetch E branch _ _ _ Hfin) as (evs & Hlog & Hno).
    exists sts. eexists. split.
    + rewrite Hlog. cbn [log add_log with_config]. rewrite <- !app_assoc. reflexivity.
    + intros _. apply (fallback_second_fetch E sts2 out evs); [done|].
      apply truthy_false in Hres2. done.
Qed.

End FetchStage.

(** * Main results *)

Lemma avoids_not_in (value : string) (evs : list event) :
  Forall (avoids value) evs → helper_switch value ∉ evs.
Proof.
  intros Hav Hin. rewrite Forall_forall in Hav. by destruct (Hav _ Hin) as [_ Hne].
Qed.

(** C1, as stated: a partial clone whose first fetch fails would remove
    the promisor and the filter and run the fetch once more.  Here the
    clone is configured as a partial clone, its first fetch fails, and
    the store does not let the promisor be removed: the clone reports
    that it could not configure for a full clone and returns -1; the
    fetch that failed is the only one. *)
Lemma fallback_without_retry :
  let o := clone_of ["https://example.com/org/repo"] None in
  let run := cmd_clone stuck_env o (initial_world ∅) in
  configured_partial (before_fetch (log (snd run)))
  ∧ List.filter is_fetch (log (snd run)) = [fetch_event stuck_env [128; 128; 128]]
  ∧ after_fetch (log (snd run))
    = [partial_clone_warning; EvConfigSet "remote.origin.promisor" None (-1);
       full_clone_error]
  ∧ fst run = Ret (-1).
Proof.
  cbv zeta. split_and!; try (vm_compute; reflexivity).
  unfold configured_partial.
  split_and!; apply list_elem_of_In; vm_compute;
    repeat (first [left; reflexivity | right]).
Qed.

(** C1, amended.  In [cmd_clone], when the first fetch fails: a clone
    configured for the accelerated path fails with an error, and
    nothing more is run; a clone configured as a partial clone prints a
    warning and removes remote.origin.promisor and
    remote.origin.partialCloneFilter, in this order; if the store
    refuses one of the two removals the clone fails, and no fetch is
    run; otherwise the fetch is run once more, its failure is the
    failure of the clone, and after its success the clone goes on
    without another fetch.  A clone that comes to its fetch is
    configured in one of the two ways. *)
Theorem clone_fetch_fallback (E : env) (o : clone_options) (w : world)
  (out : outcome Z) (w' : world) (pre post : list event) (statuses : list Z) :
  cmd_clone E o w = (out, w') →
  log w' = (log w ++ pre ++ fetch_event E statuses :: post)%list →
  Forall (λ e, is_fetch e = false) pre →
  run_git_result statuses ≠ 0 →
  (configured_accelerated pre ∨ configured_partial pre)
  ∧ (configured_accelerated pre →
     out = Ret (-1) ∧ post = [EvError "failed to prefetch commits and trees"])
  ∧ (configured_partial pre → fallback E out post).
Proof.
  intros Hrun Hlog Hpre Hfail.
  destruct (fetch_stage_cmd_clone E o _ _ _ Hrun)
    as [(evs & Hl & Hno)|(gvfs & branch & w1 & pre1 & Hl1 & Hav & Hcfg & Hfetch)].
  { exfalso. rewrite Hl in Hlog. apply app_inv_head in Hlog. subst evs.
    apply Forall_app in Hno as [_ Hno]. apply Forall_cons in Hno as [Hno _]. done. }
  destruct (clone_fetch_failed E gvfs branch w1 _ _ Hfetch) as (sts & post1 & Hl2 & Hcase).
  rewrite Hl1, <- app_assoc in Hl2. rewrite Hl2 in Hlog. apply app_inv_head in Hlog.
  destruct (first_fetch_unique _ _ _ _ _ _ Hlog) as (-> & Heq & ->); [|done|done|done|].
  { eapply Forall_impl; [done|]. apply avoids_not_fetch. }
  injection Heq as ->. specialize (Hcase Hfail).
  pose proof (avoids_not_in _ _ Hav) as Hnot. destruct gvfs.
  - split_and!; [by left|done|]. intros (Hsw & _). done.
  - split_and!; [by right| |done]. intros Hsw. done.
Qed.

Lemma clone_fetch_fallback_witness :
  let o := clone_of ["https://example.com/org/repo"] None in
  let run := cmd_clone no_filter_env o (initial_world ∅) in
  fst run = Ret 0
  ∧ List.filter is_fetch (log (snd run))
    = [fetch_event no_filter_env [128; 128; 128]; fetch_event no_filter_env [0]]
  ∧ configured_partial (before_fetch (log (snd run)))
  ∧ fallback no_filter_env (fst run) (after_fetch (log (snd run))).
Proof.
  cbv zeta.
  assert (configured_partial
            (before_fetch
               (log (snd (cmd_clone no_filter_env
                            (clone_of ["https://example.com/org/repo"] None)
                            (initial_world ∅)))))) as Hpartial.
  { unfold configured_partial.
    split_and!; apply list_elem_of_In; vm_compute;
      repeat (first [left; reflexivity | right]). }
  split; [vm_compute; reflexivity|]. split; [vm_compute; reflexivity|].
  split; [exact Hpartial|].
  destruct (clone_fetch_fallback no_filter_env
              (clone_of ["https://example.com/org/repo"] None) (initial_world ∅)
              (fst (cmd_clone no_filter_env
                      (clone_of ["https://example.com/org/repo"] None)
                      (initial_world ∅)))
              (snd (cmd_clone no_filter_env
                      (clone_of ["https://example.com/org/repo"] None)
                      (initial_world ∅)))
              (before_fetch
                 (log (snd (cmd_clone no_filter_env
                              (clone_of ["https://example.com/org/repo"] None)
                              (initial_world ∅)))))
              (after_fetch
                 (log (snd (cmd_clone no_filter_env
                              (clone_of ["https://example.com/org/repo"] None)
                              (initial_world ∅)))))
              [128; 128; 128])
    as (_ & _ & Hfallback).
  - apply surjective_pairing.
  - vm_compute. reflexivity.
  - apply Forall_forall. intros e He. apply list_elem_of_In in He.
    vm_compute in He.
    repeat (destruct He as [<-|He]; [reflexivity|]). destruct He.
  - vm_compute. discriminate.
  - exact (Hfallback Hpartial).
Defined.

(** C2, as stated: every failure of an item other than a directory
    that no longer exists would print a warning with the command that
    unregisters the enlistment, and make the result a failure.  Here the
    one registered enlistment is entered and its repository discovered;
    its configuration fails, the store refusing the first write, and its
    maintenance cannot be started; yet no hint is printed and the result
    is 0. *)
Lemma failed_item_without_hint :
  let run := cmd_reconfigure unconfigurable_env true [] one_registered_world in
  In (EvError "could not configure am.keepCR=true") (log (snd run))
  ∧ In (EvRunGit ["maintenance"; "start"] [-1; -1; -1]) (log (snd run))
  ∧ omap marker_view (log (snd run)) = [inl "/repos/a"]
  ∧ fst run = Ret 0.
Proof.
  cbv zeta. split_and!; try (vm_compute; reflexivity).
  - vm_compute. repeat (first [left; reflexivity | right]).
  - vm_compute. repeat (first [left; reflexivity | right]).
Qed.

(** C2, amended.  [cmd_reconfigure] with --all goes through every
    registered enlistment, in order, whatever happens to the others; it
    returns -1 exactly when an item fails and 0 otherwise, and each
    failed item, and only those, is followed by the hint with the command
    that unregisters it.  Which items fail is told by [item_fails]: an
    item whose directory no longer exists has its scalar.repo and
    maintenance.repo registrations removed with [git config] and fails
    only when one of the two commands returns a negative status; a
    directory that cannot be entered for another reason, a repository
    with another owner or with a format issue is a failed item, reported
    with a warning; where no repository is found a warning is printed,
    the item is configured all the same, and fails only when both the
    configuration and the maintenance return a negative status; and an
    item whose repository is discovered is configured and never fails,
    whatever the configuration and the maintenance return. *)
Theorem reconfigure_all_isolation (E : env) :
  (∀ w,
     let scalar_repos := default [] (config w !! "scalar.repo") in
     let failed := item_verdicts E scalar_repos w in
     ∃ w' evs,
       cmd_reconfigure E true [] w = (Ret (if existsb id failed then -1 else 0), w')
       ∧ List.length failed = List.length scalar_repos
       ∧ log w' = (log w ++ evs)%list
       ∧ omap marker_view evs = expected_markers scalar_repos (map negb failed))
  ∧ (∀ dir w, ∃ w1, reconfigure_one E dir w = (Ret (negb (item_fails E dir w)), w1))
  ∧ (∀ dir w,
       chdir E w dir = CHDIR_ENOENT →
       let w1 := add_log (EvChdir dir CHDIR_ENOENT) w in
       let path := realpath_forgiving E w1 dir in
       ∃ r1 sts1 r2 sts2,
         run_git E (unset_argv "scalar.repo" path) w1
           = (Ret r1, add_log (EvRunGit (unset_argv "scalar.repo" path) sts1) w1)
         ∧ run_git E (unset_argv "maintenance.repo" path)
             (add_log (EvRunGit (unset_argv "scalar.repo" path) sts1) w1)
           = (Ret r2, add_log (EvRunGit (unset_argv "maintenance.repo" path) sts2)
                        (add_log (EvRunGit (unset_argv "scalar.repo" path) sts1) w1))
         ∧ reconfigure_one E dir w
           = (Ret ((0 <=? r1) && (0 <=? r2)),
              add_log (if (0 <=? r1) && (0 <=? r2)
                       then EvWarning ("removed stale scalar.repo '" ++ dir ++ "'")
                       else EvError ("could not remove stale scalar.repo '" ++ dir ++ "'"))
                (add_log (EvRunGit (unset_argv "maintenance.repo" path) sts2)
                   (add_log (EvRunGit (unset_argv "scalar.repo" path) sts1) w1))))
  ∧ (∀ dir w,
       chdir E w dir = CHDIR_EOTHER →
       reconfigure_one E dir w
       = (Ret false,
          add_log (EvWarning ("could not switch to '" ++ dir ++ "'"))
            (add_log (EvChdir dir CHDIR_EOTHER) w)))
  ∧ (∀ dir w,
       chdir E w dir = CHDIR_OK →
       let w1 := add_log (EvChdir dir CHDIR_OK) w in
       let reason := fst (fst (discover_git_directory_reason E w1)) in
       (reason = GIT_DIR_INVALID_OWNERSHIP →
        reconfigure_one E dir w
        = (Ret false,
           add_log (EvWarning ("repository at '" ++ dir ++ "' has different owner")) w1))
       ∧ (reason = GIT_DIR_INVALID_GITFILE ∨ reason = GIT_DIR_INVALID_FORMAT →
          reconfigure_one E dir w
          = (Ret false,
             add_log (EvWarning ("repository at '" ++ dir ++ "' has a format issue")) w1)))
  ∧ (∀ dir w,
       chdir E w dir = CHDIR_OK →
       let w1 := add_log (EvChdir dir CHDIR_OK) w in
       let found := discover_git_directory_reason E w1 in
       fst (fst found) = GIT_DIR_DISCOVERED →
       let w2 := reconfigure_context E (snd (fst found)) (snd found) w1 in
       ∃ r1 w3 r2 w4,
         set_recommended_config E true w2 = (Ret r1, w3)
         ∧ toggle_maintenance E true w3 = (Ret r2, w4)
         ∧ reconfigure_one E dir w = (Ret true, w4))
  ∧ (∀ dir w,
       chdir E w dir = CHDIR_OK →
       let w1 := add_log (EvChdir dir CHDIR_OK) w in
       let found := discover_git_directory_reason E w1 in
       fst (fst found) = GIT_DIR_OTHER →
       let w2 := reconfigure_context E (snd (fst found)) (snd found)
                   (add_log (EvWarning ("repository not found in '" ++ dir ++ "'")) w1) in
       ∃ r1 w3 r2 w4,
         set_recommended_config E true w2 = (Ret r1, w3)
         ∧ toggle_maintenance E true w3 = (Ret r2, w4)
         ∧ reconfigure_one E dir w = (Ret ((0 <=? r1) || (0 <=? r2)), w4)).
Proof.
  split_and!.
  - intros w scalar_repos failed.
    destruct (reconfigure_all_run E scalar_repos 0 w) as (w' & evs & H1 & H2 & H3 & H4).
    rewrite item_results_verdicts in H1, H2, H4. fold failed in H1, H2, H4.
    rewrite forallb_negb in H1. rewrite length_map in H2.
    exists w', evs. split_and!; try done.
    unfold cmd_reconfigure, bind, get_scalar_repos, ask. cbn [negb]. fold scalar_repos.
    rewrite H1. by destruct (existsb id failed).
  - apply reconfigure_one_verdict.
  - apply reconfigure_one_enoent.
  - apply reconfigure_one_eother.
  - intros dir w Hcd w1 reason. split.
    + by apply reconfigure_one_ownership.
    + by apply reconfigure_one_format.
  - apply reconfigure_one_discovered.
  - apply reconfigure_one_other.
Qed.

Lemma reconfigure_all_isolation_witness :
  let run := cmd_reconfigure stale_env true [] registered_world in
  chdir stale_env registered_world "/repos/b" = CHDIR_ENOENT
  ∧ fst (reconfigure_one stale_env "/repos/b" registered_world) = Ret true
  ∧ log (snd (reconfigure_one stale_env "/repos/b" registered_world))
    = [EvChdir "/repos/b" CHDIR_ENOENT;
       EvRunGit (unset_argv "scalar.repo" "/repos/b") [0];
       EvRunGit (unset_argv "maintenance.repo" "/repos/b") [0];
       EvWarning "removed stale scalar.repo '/repos/b'"]
  ∧ fst run = Ret 0
  ∧ omap marker_view (log (snd run)) = [inl "/repos/a"; inl "/repos/b"; inl "/repos/c"].
Proof.
  cbv zeta. split; [reflexivity|].
  destruct (reconfigure_all_isolation stale_env)
    as (Hall & _ & Henoent & _).
  destruct (Henoent "/repos/b" registered_world eq_refl)
    as (r1 & sts1 & r2 & sts2 & H1 & H2 & Hone).
  vm_compute in H1. injection H1 as <- <-.
  vm_compute in H2. injection H2 as <- <-.
  rewrite Hone. split; [reflexivity|]. split; [reflexivity|].
  destruct (Hall registered_world) as (w' & evs & Hrun & _ & Hlog & Hmark).
  rewrite Hrun. cbn [fst snd]. split; [vm_compute; reflexivity|].
  rewrite Hlog. change (log registered_world) with (@nil event). rewrite app_nil_l.
  rewrite Hmark. vm_compute. reflexivity.
Defined.

(** C3.  URLs that differ only in letter case get the same key when the
    remote-identity query is skipped or fails, and this key is url_
    followed by the hexadecimal digest of the lower-cased URL; when the
    query succeeds with an identity, the key is id_ followed by that
    identity, whatever the hash would have been. *)
Theorem cache_key_stability (E : env) :
  (∀ url1 url2 w1 w2,
     same_up_to_case url1 url2 →
     identity_query_skipped E url1 ∨ identity_query_fails E url1 w1 →
     identity_query_skipped E url2 ∨ identity_query_fails E url2 w2 →
     ∃ w1' w2',
       get_cache_key E url1 w1
         = (Ret ("url_" ++ digest_hex (cache_key_hash_algo E) (strbuf_tolower url1)), w1')
       ∧ get_cache_key E url2 w2
         = (Ret ("url_" ++ digest_hex (cache_key_hash_algo E) (strbuf_tolower url1)), w2'))
  ∧ (∀ url w id,
       identity_query_succeeds E url w id →
       ∃ w', get_cache_key E url w = (Ret ("id_" ++ id), w')).
Proof.
  split.
  - intros url1 url2 w1 w2 Hcase H1 H2.
    destruct (get_cache_key_fallback E url1 w1 H1) as [w1' Hk1].
    destruct (get_cache_key_fallback E url2 w2 H2) as [w2' Hk2].
    exists w1', w2'. split; [exact Hk1|]. rewrite Hk2. unfold url_cache_key.
    by rewrite (same_up_to_case_tolower _ _ Hcase).
  - apply get_cache_key_identity.
Qed.

Lemma cache_key_stability_witness :
  fst (get_cache_key no_filter_env "https://Example.com/Org/Repo" (initial_world ∅))
  = fst (get_cache_key no_filter_env "https://example.com/org/repo" (initial_world ∅))
  ∧ fst (get_cache_key two_servers_env "https://example.com/org/repo" (initial_world ∅))
    = Ret "id_0a1b2c".
Proof.
  split.
  - destruct (proj1 (cache_key_stability no_filter_env)
                "https://Example.com/Org/Repo" "https://example.com/org/repo"
                (initial_world ∅) (initial_world ∅))
      as (w1' & w2' & -> & ->).
    + repeat (constructor;
              [first [ left; reflexivity
                     | right; left; split; reflexivity
                     | right; right; split; reflexivity ]|]).
      constructor.
    + right. left. vm_compute. lia.
    + right. left. vm_compute. lia.
    + reflexivity.
  - destruct (proj2 (cache_key_stability two_servers_env)
                "https://example.com/org/repo" (initial_world ∅) "0a1b2c")
      as (w' & ->).
    + repeat split; reflexivity.
    + reflexivity.
Defined.

(** C4.  When the helper answers the config query of a clone, the
    negotiation never yields the non-accelerated path: [gvfs_protocol] is
    true whatever the reply holds.  In particular a reply that is not
    well-formed and names no default server makes
    [supports_gvfs_protocol] log the parse error and return -1, which
    the clone reads as true, with no cache server.  The listing reports
    the same parse failure as an error, as it should. *)
Theorem malformed_reply_is_accelerated (E : env) (url : string) (w : world) :
  can_url_support_gvfs E url = true →
  fst (pipe_command E w (gvfs_config_argv url)) = 0 →
  let doc := json_parse E (snd (pipe_command E w (gvfs_config_argv url))) in
  (∃ default_cache_server_url w',
     clone_negotiate E None url w = (Ret (true, default_cache_server_url), w'))
  ∧ (doc_well_formed doc = false → no_global_default doc →
     clone_negotiate E None url w
     = (Ret (true, None),
        add_log (EvError "JSON parse error")
          (add_log (EvPipe (gvfs_config_argv url) 0) w)))
  ∧ (doc_well_formed doc = false →
     ∃ w', supports_gvfs_protocol E url false w = (Ret (-1, None), w')
           ∧ last (log w') = Some (EvError "JSON parse error")).
Proof.
  intros Hcan Hst doc. split_and!.
  - rewrite clone_negotiate_run, supports_gvfs_protocol_reply by done.
    cbv zeta. simpl negb. cbv iota.
    destruct (iterate_json get_cache_server_index _ 0) as [r l].
    destruct (r <? 0); [by eexists _, _|].
    destruct (iterate_json get_cache_server_url _ _) as [r' data].
    destruct (r' <? 0); by eexists _, _.
  - intros Hwf Hno. rewrite clone_negotiate_run.
    rewrite supports_gvfs_protocol_no_default by done. cbv zeta.
    fold doc. by rewrite Hwf.
  - intros Hwf. by apply supports_gvfs_protocol_listing_malformed.
Qed.

Lemma malformed_reply_is_accelerated_witness :
  fst (clone_negotiate truncated_reply_env None "https://example.com/org/repo"
         (initial_world ∅))
  = Ret (true, None).
Proof.
  destruct (malformed_reply_is_accelerated truncated_reply_env
              "https://example.com/org/repo" (initial_world ∅) eq_refl eq_refl)
    as (_ & H & _).
  rewrite H; [reflexivity|reflexivity|constructor].
Defined.

(** A clone whose helper sends a truncated reply goes down the
    accelerated path: the parse error is logged, the helper is turned
    on, and the partial-clone settings are never written. *)
Example truncated_reply_clone :
  let run := cmd_clone truncated_reply_env
               (clone_of ["https://example.com/org/repo"] None) (initial_world ∅) in
  In (EvError "JSON parse error") (log (snd run))
  ∧ store_get (config (snd run)) "core.useGVFSHelper" = Some "true"
  ∧ store_get (config (snd run)) "core.gvfs" = Some "150"
  ∧ store_get (config (snd run)) "remote.origin.promisor" = None
  ∧ store_get (config (snd run)) "remote.origin.partialCloneFilter" = None.
Proof.
  cbv zeta. split_and!; try (vm_compute; reflexivity).
  vm_compute. repeat (first [left; reflexivity | right]).
Qed.

(** C5, as stated: the digest would be computed with the strongest
    algorithm of the table.  Here the table holds an algorithm with a
    32-byte digest, and the key is computed with the 20-byte one that is
    named sha1. *)
Lemma strongest_algorithm_not_chosen :
  cache_key_hash_algo no_filter_env = sha1_algo
  ∧ strongest_available no_filter_env sha256_algo
  ∧ ¬ strongest_available no_filter_env (cache_key_hash_algo no_filter_env)
  ∧ fst (get_cache_key no_filter_env "https://example.com/org/repo" (initial_world ∅))
    = Ret ("url_" ++ digest_hex sha1_algo "https://example.com/org/repo").
Proof.
  split_and!.
  - reflexivity.
  - split.
    + simpl. set_solver.
    + intros b Hb. simpl in Hb.
      repeat (apply elem_of_cons in Hb as [-> | Hb]; [simpl; lia|]).
      by apply elem_of_nil in Hb.
  - intros [_ Hmax]. specialize (Hmax sha256_algo).
    assert (sha256_algo ∈ hash_algos no_filter_env) as Hin by (simpl; set_solver).
    specialize (Hmax Hin). vm_compute in Hmax. lia.
  - vm_compute. reflexivity.
Qed.

(** C5, amended.  The digest of the fallback key is computed over the
    lowercased URL with the entry of the table of algorithms at the index
    that [hash_algo_by_name] returns for the name sha1, whatever else the
    table holds; the repository's own algorithm, [the_hash_algo], is used
    only when that lookup returns a negative index. *)
Theorem cache_key_algorithm (E : env) (url : string) (w : world) :
  identity_query_skipped E url ∨ identity_query_fails E url w →
  (∀ a, 0 ≤ hash_algo_by_name E "sha1" →
        hash_algos E !! Z.to_nat (hash_algo_by_name E "sha1") = Some a →
        ∃ w', get_cache_key E url w
              = (Ret ("url_" ++ digest_hex a (strbuf_tolower url)), w'))
  ∧ (hash_algo_by_name E "sha1" < 0 →
     ∃ w', get_cache_key E url w
           = (Ret ("url_" ++ digest_hex (the_hash_algo E) (strbuf_tolower url)), w')).
Proof.
  intros Hq. destruct (get_cache_key_fallback E url w Hq) as [w' Hk].
  unfold url_cache_key, cache_key_hash_algo in Hk. cbv zeta in Hk. split.
  - intros a Hi Ha. exists w'. rewrite Hk.
    rewrite (proj2 (Z.ltb_ge _ _) Hi). by rewrite (nth_lookup_Some _ _ _ _ Ha).
  - intros Hi. exists w'. rewrite Hk. by rewrite (proj2 (Z.ltb_lt _ _) Hi).
Qed.

Lemma cache_key_algorithm_witness :
  fst (get_cache_key no_filter_env "https://Example.com/Org/Repo" (initial_world ∅))
  = Ret ("url_" ++ digest_hex sha1_algo "https://example.com/org/repo")
  ∧ hash_algo_by_name failing_lookup_env "sha1" = -1
  ∧ fst (get_cache_key failing_lookup_env "https://Example.com/Org/Repo" (initial_world ∅))
    = Ret ("url_" ++ digest_hex sha256_algo "https://example.com/org/repo").
Proof.
  split_and!.
  - destruct (cache_key_algorithm no_filter_env "https://Example.com/Org/Repo"
                (initial_world ∅)) as [H _].
    + right. left. vm_compute. lia.
    + destruct (H sha1_algo) as [w' ->]; [by vm_compute|reflexivity|reflexivity].
  - reflexivity.
  - destruct (cache_key_algorithm failing_lookup_env "https://Example.com/Org/Repo"
                (initial_world ∅)) as [_ H].
    + right. left. vm_compute. lia.
    + destruct H as [w' ->]; [by vm_compute|reflexivity].
Defined.



(** Without that condition a second run can change the configuration:
    the first run leaves the deprecated key in place, having been
    refused with a positive status, and the second can remove it. *)
Example second_run_can_differ :
  let w1 := snd (set_recommended_config moody_env false legacy_world) in
  let w2 := snd (set_recommended_config moody_env false w1) in
  fst (set_recommended_config moody_env false legacy_world) = Ret 0
  ∧ store_get (config w1) "core.usebuiltinfsmonitor" = Some "true"
  ∧ store_get (config w2) "core.usebuiltinfsmonitor" = None.
Proof. cbv zeta. split_and!; vm_compute; reflexivity. Qed.



(** C7, as stated: no branch would be returned only when both the
    remote query and the local fallback fail.  Here the remote answers,
    its HEAD points outside refs/heads/, and no branch is returned,
    although the local symbolic HEAD can be read; it is never asked
    for. *)
Lemma remote_head_outside_heads :
  let url := "https://example.com/org/repo" in
  let run := remote_default_branch tag_head_env url (initial_world ∅) in
  fst (pipe_command tag_head_env (initial_world ∅) (ls_remote_argv url)) = 0
  ∧ (∀ w, pipe_command tag_head_env w symbolic_ref_argv
          = (0, "main" ++ String newline EmptyString))
  ∧ fst run = Ret None
  ∧ log (snd run)
    = [EvPipe (ls_remote_argv url) 0;
       EvError "remote HEAD is not a branch: 'refs/tags/v1'"].
Proof. cbv zeta. split_and!; try reflexivity. Qed.

(** C7, amended.  [remote_default_branch] asks the remote for its
    symbolic HEAD and reads the first line of the form ref: <target>, a
    tab, HEAD.  A target refs/heads/<name> gives <name>.  Any other
    target is an error and gives no branch, without a fallback.  When
    the query fails or the reply has no such line, a warning is printed
    and the local symbolic HEAD is used, trimmed; no branch is returned
    if that fails too. *)
Theorem remote_default_branch_cases (E : env) (url : string) (w : world) :
  remote_default_branch E url w =
  (let w1 := add_log (EvPipe (ls_remote_argv url)
                        (fst (pipe_command E w (ls_remote_argv url)))) w in
   match remote_head E url w with
   | Some target =>
       match skip_prefix target "refs/heads/" with
       | Some name => (Ret (Some name), w1)
       | None =>
           (Ret None,
            add_log (EvError ("remote HEAD is not a branch: '" ++ target ++ "'")) w1)
       end
   | None =>
       let w2 :=
         add_log (EvWarning
                    "failed to get default branch name from remote; using local default")
           w1 in
       let local := pipe_command E w2 symbolic_ref_argv in
       let w3 := add_log (EvPipe symbolic_ref_argv (fst local)) w2 in
       if fst local =? 0 then (Ret (Some (strbuf_trim (snd local))), w3)
       else (Ret None, add_log (EvError "failed to get default branch name") w3)
   end)
  ∧ ∀ name, symref_target ("ref: refs/heads/" ++ name ++ String tab "HEAD")
            = Some ("refs/heads/" ++ name)
              ∧ skip_prefix ("refs/heads/" ++ name) "refs/heads/" = Some name.
Proof.
  split.
  - apply remote_default_branch_run.
  - intros name. split; [apply symref_target_branch|apply skip_prefix_app].
Qed.

(** ** The cache server when the reply names no default *)



(** ** The clone before its fetch *)

Lemma log_entered (E : env) (r : repository) (w : world) :
  log (entered E r w) = (log w ++ [EvSetupGitDirectory])%list.
Proof. reflexivity. Qed.

Lemma ignore_init_argv (E : env) (o : clone_options) (w : world) (dir : string)
  (statuses : list Z) :
  is_fetch (EvRunGit (init_argv E o w dir) statuses) = false.
Proof. reflexivity. Qed.

(** C8.  A clone whose resolved cache root is the new worktree or lies
    inside it never returns 0 and runs no fetch.  Once the repository
    has been initialised and entered, the clone leaves it, removes the
    directory of the enlistment and ends with the message that the cache
    root cannot be inside the src folder; if the directory cannot be
    removed, the message says so. *)
Theorem nested_cache_root_ends_clone (E : env) (o : clone_options) (w : world)
  (url enlistment dir root : string) :
  clone_plan E o w = Some (url, enlistment, dir, root) →
  (∀ w0, 0 ≤ dir_inside_of_from E (ignore_case E w0) None 0 root dir) →
  (∃ out w' evs,
     cmd_clone E o w = (out, w')
     ∧ out ≠ Ret 0
     ∧ log w' = (log w ++ evs)%list
     ∧ Forall (λ e, is_fetch e = false) evs)
  ∧ (∀ w1 r,
       run_git E (init_argv E o w dir) w = (Ret 0, w1) →
       chdir E w1 dir = CHDIR_OK →
       setup_git_directory E (add_log (EvChdir dir CHDIR_OK) w1) = Some r →
       let w2 := entered E r (add_log (EvChdir dir CHDIR_OK) w1) in
       chdir E w2 "../.." = CHDIR_OK →
       let w3 := add_log (EvChdir "../.." CHDIR_OK) w2 in
       let s := remove_dir_recursively E w3 enlistment in
       cmd_clone E o w
       = (Exit (if s <? 0 then nested_cache_unremoved_msg enlistment
                else nested_cache_msg),
          add_log (EvRemoveDir enlistment s) w3)).
Proof.
  intros Hplan Hin. pose proof (cmd_clone_run E o w) as Hrun.
  rewrite Hplan in Hrun. rewrite Hrun. clear Hrun Hplan. split.
  - rewrite clone_into_run.
    destruct (run_git_run E (init_argv E o w dir) w) as (res & sts & ->).
    destruct (truthy res) eqn:Hres.
    { eexists _, _, [_]. split_and!; [done| |done|by repeat constructor].
      intros [= ->]. done. }
    cbv zeta. destruct (chdir_failed _).
    { eexists _, _, [_; _; _]. split_and!;
        [done|done|cbn [log add_log]; by rewrite <- !app_assoc|by repeat constructor]. }
    destruct (setup_git_directory E _) as [r|].
    2:{ eexists _, _, [_; _; _]. split_and!;
        [done|done|cbn [log add_log]; by rewrite <- !app_assoc|by repeat constructor]. }
    rewrite clone_in_repository_nested by apply Hin.
    rewrite clone_cache_root_guard_nested by apply Hin. cbv zeta.
    destruct (chdir_failed _).
    + eexists _, _, [_; _; _; _].
      split_and!;
        [done|done
        |cbn [log add_log]; rewrite log_entered; cbn [log add_log];
         by rewrite <- !app_assoc
        |by repeat constructor].
    + eexists _, _, [_; _; _; _; _].
      split_and!;
        [done|done
        |cbn [log add_log]; rewrite log_entered; cbn [log add_log];
         by rewrite <- !app_assoc
        |by repeat constructor].
  - intros w1 r Hinit Hcd Hsetup w2 Hup w3 s.
    rewrite clone_into_run, Hinit. rewrite truthy_0. cbv zeta.
    rewrite Hcd. cbn [chdir_failed]. rewrite Hsetup.
    rewrite clone_in_repository_nested by apply Hin.
    rewrite clone_cache_root_guard_nested by apply Hin. cbv zeta.
    fold w2. rewrite Hup. cbn [chdir_failed]. reflexivity.
Qed.

Lemma nested_cache_root_ends_clone_witness :
  let o := clone_of ["https://example.com/org/repo"; "repo"] (Some "repo/src/cache") in
  let run := cmd_clone no_filter_env o (initial_world ∅) in
  clone_plan no_filter_env o (initial_world ∅)
  = Some ("https://example.com/org/repo", "/work/repo", "/work/repo/src",
          "/work/repo/src/cache")
  ∧ fst run = Exit nested_cache_msg
  ∧ log (snd run)
    = [EvRunGit ["-c"; "init.defaultBranch=main"; "init"; "--"; "/work/repo/src"] [0];
       EvChdir "/work/repo/src" CHDIR_OK; EvSetupGitDirectory;
       EvChdir "../.." CHDIR_OK; EvRemoveDir "/work/repo" 0].
Proof.
  cbv zeta. split; [vm_compute; reflexivity|].
  destruct (nested_cache_root_ends_clone no_filter_env
              (clone_of ["https://example.com/org/repo"; "repo"] (Some "repo/src/cache"))
              (initial_world ∅)
              "https://example.com/org/repo" "/work/repo" "/work/repo/src"
              "/work/repo/src/cache") as [_ H].
  - vm_compute. reflexivity.
  - intros w0. by vm_compute.
  - rewrite (H (snd (run_git no_filter_env
                       (init_argv no_filter_env
                          (clone_of ["https://example.com/org/repo"; "repo"]
                             (Some "repo/src/cache"))
                          (initial_world ∅) "/work/repo/src")
                       (initial_world ∅)))
               (repo_at "/work/repo/src"));
      [split; vm_compute; reflexivity|vm_compute; reflexivity..].
Defined.

(** ** [setup_enlistment_directory] *)




(** * Further properties *)

(** ** The retry loop of [run_git] *)

Lemma run_git_loop_attempts (run : nat → Z) (n attempts : nat) (res : Z) :
  res ≠ 0 →
  let statuses := snd (run_git_loop run n attempts res) in
  (List.length statuses ≤ n)%nat
  ∧ (∀ i s, statuses !! i = Some s → s = run (attempts + i)%nat)
  ∧ (∀ i s, statuses !! i = Some s → (S i < List.length statuses)%nat → s ≠ 0)
  ∧ fst (run_git_loop run n attempts res) = List.last statuses res
  ∧ (fst (run_git_loop run n attempts res) ≠ 0 → List.length statuses = n).
Proof.
  revert attempts res. induction n as [|n IH]; intros attempts res Hres; simpl.
  { split_and!; try done. }
  rewrite (proj2 (truthy_true res) Hres).
  destruct (Z.eq_dec (run attempts) 0) as [Hz|Hnz].
  - (* the attempt succeeds: the loop ends *)
    destruct n as [|n]; simpl; rewrite ?Hz; simpl.
    + split_and!; try done.
      * intros [|i] s; [|done]. intros [= <-]. by rewrite Nat.add_0_r.
      * intros [|i] s; simpl; [lia|done].
    + split_and!; try done.
      * lia.
      * intros [|i] s; [|done]. intros [= <-]. by rewrite Nat.add_0_r.
      * intros [|i] s; simpl; [lia|done].
  - specialize (IH (S attempts) (run attempts) Hnz). cbv zeta in IH.
    destruct (run_git_loop run n (S attempts) (run attempts)) as [res' sts].
    cbn [fst snd] in *. destruct IH as (Hlen & Hnth & Hfail & Hlast & Hfull).
    split_and!.
    + simpl. lia.
    + intros [|i] s; simpl.
      * intros [= <-]. by rewrite Nat.add_0_r.
      * intros Hs. rewrite (Hnth _ _ Hs). f_equal. lia.
    + intros [|i] s; simpl.
      * by intros [= <-].
      * intros Hs Hi. apply (Hfail _ _ Hs). lia.
    + rewrite Hlast. destruct sts as [|s sts]; [done|].
      change (List.last (run attempts :: s :: sts) res) with (List.last (s :: sts) res).
      apply last_cons_default.
    + intros Hne. simpl. by rewrite Hfull.
Qed.

(** X2.  [run_git] runs the command again as long as it fails, at most
    [git_retries] times in all: the attempts are made in order, every
    attempt but the last has failed, the result is the status of the
    last attempt, and a failure is returned only once [git_retries]
    attempts have been made.  With no attempt allowed the result is 1
    and nothing is run. *)
Theorem run_git_retries (E : env) (argv : list string) (w : world) :
  ∃ res statuses,
    run_git E argv w = (Ret res, add_log (EvRunGit argv statuses) w)
    ∧ (List.length statuses ≤ git_retries w)%nat
    ∧ (∀ i s, statuses !! i = Some s → s = run_command E w argv i)
    ∧ (∀ i s, statuses !! i = Some s → (S i < List.length statuses)%nat → s ≠ 0)
    ∧ res = List.last statuses 1
    ∧ (res ≠ 0 → List.length statuses = git_retries w).
Proof.
  unfold run_git.
  pose proof (run_git_loop_attempts (run_command E w argv) (git_retries w) 0 1) as H.
  cbv zeta in H. destruct (run_git_loop _ _ 0 1) as [res statuses]. cbn [fst snd] in H.
  destruct H as (Hlen & Hnth & Hfail & Hlast & Hfull); [done|].
  exists res, statuses. split_and!; try done.
Qed.

Lemma run_git_loop_constant (run : nat → Z) (s : Z) (n attempts : nat) (res : Z) :
  res ≠ 0 → s ≠ 0 → (∀ i, run i = s) →
  run_git_loop run n attempts res
  = (match n with O => res | S _ => s end, replicate n s).
Proof.
  intros Hres Hs Hrun. revert attempts res Hres.
  induction n as [|n IH]; intros attempts res Hres; simpl; [done|].
  rewrite (proj2 (truthy_true res) Hres), Hrun, IH by done. by destruct n.
Qed.

(** ** [cmd_diagnose] *)



(** ** [cmd_list] *)

(** X4.  [cmd_list] succeeds whenever git could be run: a positive exit
    status, which is what git config gives when nothing is registered,
    is returned as 0, after the command has been tried [git_retries]
    times; only a negative status is returned as -1. *)
Theorem list_positive_status_is_success (E : env) (name : string) (w : world) (s : Z) :
  (0 < git_retries w)%nat →
  s ≠ 0 →
  (∀ attempt, run_command E w list_argv attempt = s) →
  cmd_list E [name] w
  = (Ret (if s <? 0 then -1 else 0),
     add_log (EvRunGit list_argv (replicate (git_retries w) s)) w).
Proof.
  intros Hn Hs Hrun. unfold cmd_list, bind, run_git.
  change ["config"; "--global"; "--get-all"; "scalar.repo"] with list_argv.
  rewrite (run_git_loop_constant _ s) by done.
  destruct (git_retries w); [lia|]. by destruct (s <? 0).
Qed.

Lemma list_positive_status_is_success_witness :
  cmd_list failing_git_env ["list"] (initial_world ∅)
  = (Ret 0, add_log (EvRunGit list_argv [1; 1; 1]) (initial_world ∅)).
Proof.
  apply (list_positive_status_is_success failing_git_env "list" (initial_world ∅) 1).
  - simpl. lia.
  - lia.
  - reflexivity.
Defined.

(** ** [remove_deleted_enlistment] and [cmd_unregister] *)

Lemma remove_deleted_enlistment_run (E : env) (path : string) (w : world) :
  let p := realpath_forgiving E w path in
  ∃ r1 sts1 r2 sts2,
    let w1 := add_log (EvRunGit (unset_argv "scalar.repo" p) sts1) w in
    let w2 := add_log (EvRunGit (unset_argv "maintenance.repo" p) sts2) w1 in
    run_git E (unset_argv "scalar.repo" p) w = (Ret r1, w1)
    ∧ run_git E (unset_argv "maintenance.repo" p) w1 = (Ret r2, w2)
    ∧ remove_deleted_enlistment E path w
      = (Ret (if (r1 <? 0) || (r2 <? 0) then -1 else 0), w2).
Proof.
  intros p.
  destruct (run_git_run E (unset_argv "scalar.repo" p) w) as (r1 & sts1 & H1).
  destruct (run_git_run E (unset_argv "maintenance.repo" p)
              (add_log (EvRunGit (unset_argv "scalar.repo" p) sts1) w))
    as (r2 & sts2 & H2).
  exists r1, sts1, r2, sts2. cbv zeta. split; [done|]. split; [done|].
  unfold remove_deleted_enlistment, bind at 1, ask. fold p.
  unfold unset_argv in *. unfold bind at 1. rewrite H1. unfold bind at 1. rewrite H2.
  unfold ret. by destruct (r1 <? 0), (r2 <? 0).
Qed.

Lemma strbuf_strip_suffix_app (x suffix : string) :
  strbuf_strip_suffix (x ++ suffix) suffix = x.
Proof. unfold strbuf_strip_suffix. by rewrite strip_suffix_app. Qed.

(** X5.  [cmd_unregister] on an enlistment whose directories are gone
    does not try to enter it: it removes the registrations of both
    <enlistment>/src and <enlistment>, always trying both, and runs
    nothing but these unsets.  The result is 1 when both removals have
    failed and 0 as soon as one of them went through. *)
Theorem unregister_missing_enlistment (E : env) (arg : string) (w : world) :
  is_directory E w (arg ++ "/src/.git") = false →
  is_directory E w (arg ++ "/.git") = false →
  ∃ r1 w1 r2 w2 evs,
    remove_deleted_enlistment E (arg ++ "/src") w = (Ret r1, w1)
    ∧ remove_deleted_enlistment E arg w1 = (Ret r2, w2)
    ∧ cmd_unregister E [arg] w
      = (Ret (if (r1 =? -1) && (r2 =? -1) then 1 else 0), w2)
    ∧ (r1 = 0 ∨ r1 = -1) ∧ (r2 = 0 ∨ r2 = -1)
    ∧ log w2 = (log w ++ evs)%list
    ∧ List.length evs = 4%nat
    ∧ Forall is_unset_command evs.
Proof.
  intros Hsrc Hwd.
  destruct (remove_deleted_enlistment_run E (arg ++ "/src") w)
    as (a1 & sa1 & a2 & sa2 & _ & _ & H1). cbv zeta in H1.
  match type of H1 with _ = (_, ?x) => set (w1 := x) in * end.
  destruct (remove_deleted_enlistment_run E arg w1)
    as (b1 & sb1 & b2 & sb2 & _ & _ & H2). cbv zeta in H2.
  match type of H2 with _ = (_, ?x) => set (w2 := x) in * end.
  eexists _, w1, _, w2, [_; _; _; _]. split; [exact H1|]. split; [exact H2|].
  split_and!.
  - unfold cmd_unregister, bind at 1, bind at 1, ask. rewrite Hsrc, Hwd. cbn [negb andb].
    change (arg ++ "/src/.git") with (arg ++ "/src" ++ "/.git").
    rewrite <- (append_assoc arg "/src" "/.git"), !strbuf_strip_suffix_app.
    unfold bind at 1. rewrite H1. unfold bind at 1. rewrite H2. unfold ret.
    destruct (a1 <? 0), (a2 <? 0), (b1 <? 0), (b2 <? 0); reflexivity.
  - destruct (a1 <? 0), (a2 <? 0); cbn [orb]; first [by left|by right].
  - destruct (b1 <? 0), (b2 <? 0); cbn [orb]; first [by left|by right].
  - subst w2 w1. cbn [log add_log]. by rewrite <- !app_assoc.
  - done.
  - repeat (constructor; [by eexists _, _, _|]). constructor.
Qed.

Lemma unregister_missing_enlistment_witness :
  fst (cmd_unregister deleted_enlistment_env ["/work/gone"] (initial_world ∅)) = Ret 1.
Proof.
  destruct (unregister_missing_enlistment deleted_enlistment_env "/work/gone"
              (initial_world ∅) eq_refl eq_refl)
    as (r1 & w1 & r2 & w2 & evs & H1 & H2 & -> & _).
  cbn [fst].
  vm_compute in H1. injection H1 as <- <-.
  vm_compute in H2. injection H2 as <- _.
  reflexivity.
Defined.

(** ** [cmd_run] *)

Lemma find_task_notin (table : list (string * option string)) (arg : string) (i : nat) :
  arg ∉ map fst table → find_task table arg i = (i + List.length table)%nat.
Proof.
  revert i. induction table as [|t table IH]; intros i Hnotin; simpl.
  - lia.
  - apply not_elem_of_cons in Hnotin as [Hne Hnotin].
    rewrite (proj2 (String.eqb_neq _ _)) by done. rewrite IH by done. lia.
Qed.

(** X6.  [cmd_run] with a task that is neither all nor in its table
    reports the task as unknown and ends with the usage text before the
    enlistment is looked for: nothing is entered and nothing is run.  A
    task of the table other than config runs the one maintenance task it
    stands for (fetch stands for prefetch, pack-files for
    incremental-repack), and config registers the enlistment. *)
Theorem run_selects_task (E : env) (arg : string) (rest : list string) (w : world) :
  arg ≠ "all" →
  (arg ∉ map fst tasks →
   cmd_run E (arg :: rest) w
   = (Exit run_usage, add_log (EvError ("no such task: '" ++ arg ++ "'")) w))
  ∧ (∀ i task, (0 < i)%nat → tasks !! i = Some (arg, task) →
     cmd_run E (arg :: rest) w
     = (setup_enlistment_directory E rest ;; run_git E (maintenance_argv task)) w)
  ∧ (arg = "config" →
     cmd_run E (arg :: rest) w
     = (setup_enlistment_directory E rest ;; register_dir E) w).
Proof.
  intros Hall.
  assert (String.eqb "all" arg = false) as Hneq by (by apply String.eqb_neq).
  split_and!.
  - intros Hnotin. unfold cmd_run. rewrite Hneq.
    rewrite (find_task_notin tasks arg 0 Hnotin). reflexivity.
  - intros i task Hi Hlook. unfold cmd_run. rewrite Hneq.
    destruct i as [|[|[|[|[|i]]]]]; [lia|..]; simpl in Hlook;
      try (injection Hlook as <- <-; reflexivity).
    done.
  - intros ->. reflexivity.
Qed.

Lemma run_selects_task_witness :
  cmd_run failing_git_env ["prefetch"; "/work/repo"] (initial_world ∅)
  = (Exit run_usage, add_log (EvError "no such task: 'prefetch'") (initial_world ∅))
  ∧ log (snd (cmd_run failing_git_env ["fetch"; "/work/repo"] (initial_world ∅)))
    = [EvChdir "/work/repo" CHDIR_OK; EvSetupGitDirectory;
       EvRunGit ["maintenance"; "run"; "--task"; "prefetch"] [1; 1; 1]].
Proof.
  split.
  - apply (run_selects_task failing_git_env "prefetch" ["/work/repo"] (initial_world ∅));
      [done|].
    intros Hin. cbn [map tasks fst] in Hin.
    repeat (apply elem_of_cons in Hin as [Hin|Hin]; [discriminate Hin|]).
    by apply elem_of_nil in Hin.
  - rewrite (proj1 (proj2 (run_selects_task failing_git_env "fetch" ["/work/repo"]
                            (initial_world ∅) ltac:(done)))
               2%nat (Some "prefetch") ltac:(lia) eq_refl).
    vm_compute. reflexivity.
Defined.

Lemma run_tasks_run (E : env) (table : list (string * option string)) (w : world) :
  ∃ z attempts w',
    let results := map final_status attempts in
    run_tasks E table w = (Ret z, w')
    ∧ log w' = (log w ++ task_events table attempts)%list
    ∧ (List.length attempts ≤ List.length table)%nat
    ∧ (∀ i r, results !! i = Some r → (S i < List.length attempts)%nat ∨ z = 0 → r = 0)
    ∧ (z = 0 ∧ List.length attempts = List.length table
       ∨ z = -1 ∧ ∃ r, last results = Some r ∧ r ≠ 0).
Proof.
  revert w. induction table as [|t table IH]; intros w.
  - exists 0, [], w. cbv zeta. split_and!; try done.
    + simpl. by rewrite app_nil_r.
    + left. done.
  - simpl. unfold bind, maintenance_run.
    destruct (run_git_result_run E (["maintenance"; "run"; "--task"]
                                    ++ match snd t with Some t0 => [t0] | None => [] end)%list w)
      as (sts & Hrun).
    set (res := run_git_result sts) in *.
    assert (res = List.last sts 1) as Hres by reflexivity. clearbody res.
    rewrite Hrun. destruct (truthy res) eqn:Htr.
    + apply truthy_true in Htr.
      exists (-1), [sts], (add_log (EvRunGit (maintenance_argv (snd t)) sts) w).
      cbv zeta. split_and!.
      * done.
      * unfold task_events. simpl. by rewrite zip_with_nil_r.
      * simpl. lia.
      * intros [|i] r; simpl; [|done]. intros _ [?|?]; [lia|done].
      * right. split; [done|]. exists res. split; [|done].
        simpl. unfold final_status. by rewrite <- Hres.
    + apply truthy_false in Htr. subst res.
      destruct (IH (add_log (EvRunGit (maintenance_argv (snd t)) sts) w))
        as (z & attempts & w' & Hrest & Hlog & Hlen & Hzero & Hend).
      cbv zeta in *. exists z, (sts :: attempts), w'. split_and!.
      * exact Hrest.
      * rewrite Hlog. cbn [log add_log]. simpl. by rewrite <- app_assoc.
      * simpl. lia.
      * intros [|i] r; simpl.
        -- intros [= <-] _. unfold final_status. by rewrite <- Htr.
        -- intros Hr [Hi|Hz]; apply (Hzero _ _ Hr); [left; lia|by right].
      * destruct Hend as [[-> Hfull]|[-> (r & Hlast & Hr)]].
        -- left. split; [done|]. simpl. by rewrite Hfull.
        -- right. split; [done|]. exists r. split; [|done].
           destruct attempts as [|a attempts]; [done|]. exact Hlast.
Qed.

(** X7.  [cmd_run] with all registers the enlistment and then runs the
    maintenance tasks commit-graph, prefetch, loose-objects and
    incremental-repack in this order, stopping at the first that fails.
    It returns 0 when all four have run and succeeded, and -1 otherwise,
    also when it is the registration that failed, in which case no task
    is run. *)
Theorem run_all_stops_at_first_failure (E : env) (rest : list string)
  (w w1 w2 : world) (root : string) (registered : Z) :
  setup_enlistment_directory E rest w = (Ret root, w1) →
  register_dir E w1 = (Ret registered, w2) →
  (registered ≠ 0 → cmd_run E ("all" :: rest) w = (Ret (-1), w2))
  ∧ (registered = 0 →
     ∃ z attempts w',
       let results := map final_status attempts in
       cmd_run E ("all" :: rest) w = (Ret z, w')
       ∧ log w' = (log w2 ++ task_events (tl tasks) attempts)%list
       ∧ (List.length attempts ≤ 4)%nat
       ∧ (∀ i r, results !! i = Some r → (S i < List.length attempts)%nat ∨ z = 0 → r = 0)
       ∧ (z = 0 ∧ List.length attempts = 4%nat
          ∨ z = -1 ∧ ∃ r, last results = Some r ∧ r ≠ 0)).
Proof.
  intros Hsetup Hreg.
  assert (cmd_run E ("all" :: rest) w
          = if truthy registered then (Ret (-1), w2) else run_tasks E (tl tasks) w2)
    as Hrun.
  { unfold cmd_run. cbn [String.eqb Ascii.eqb Bool.eqb]. unfold bind at 1, ret at 1.
    unfold bind at 1. rewrite Hsetup. cbn [Z.eqb Z.ltb Z.compare].
    unfold bind at 1. rewrite Hreg. by destruct (truthy registered). }
  split.
  - intros Hne. by rewrite Hrun, (proj2 (truthy_true _) Hne).
  - intros ->. rewrite Hrun, truthy_0. apply run_tasks_run.
Qed.

Lemma run_all_stops_at_first_failure_witness :
  let run := cmd_run prefetch_fails_env ["all"; "/work/repo"] (initial_world ∅) in
  fst run = Ret (-1)
  ∧ omap (λ e, match e with
               | EvRunGit ["maintenance"; "run"; "--task"; task] statuses =>
                   Some (task, statuses)
               | _ => None
               end) (log (snd run))
    = [("commit-graph", [0]); ("prefetch", [128; 128; 128])].
Proof.
  cbv zeta.
  destruct (run_all_stops_at_first_failure prefetch_fails_env ["/work/repo"]
              (initial_world ∅)
              (snd (setup_enlistment_directory prefetch_fails_env ["/work/repo"]
                      (initial_world ∅)))
              (snd (register_dir prefetch_fails_env
                      (snd (setup_enlistment_directory prefetch_fails_env ["/work/repo"]
                              (initial_world ∅)))))
              "/work/repo/src" 0
              ltac:(vm_compute; reflexivity) ltac:(vm_compute; reflexivity))
    as [_ H].
  destruct (H eq_refl) as (z & attempts & w' & Hrun & _).
  rewrite Hrun. vm_compute in Hrun. injection Hrun as <- <-.
  split; vm_compute; reflexivity.
Defined.

(** ** Registration *)

Lemma returns_add_or_remove_enlistment (E : env) (add : bool) (w : world) :
  is_Some (worktree (the_repository w)) →
  ∃ r w', add_or_remove_enlistment E add w = (Ret r, w')
          ∧ the_repository w' = the_repository w.
Proof.
  intros [wt Hwt].
  unfold add_or_remove_enlistment, require_worktree, bind at 1, bind at 1, ask.
  rewrite Hwt. unfold ret at 1. unfold bind at 1, git_config_get_ulong,
    git_config_get_string, ask. unfold bind at 1.
  set (w0 := (match store_get (config w) "core.configWriteLockTimeoutMS" with
              | Some _ => ret tt
              | None => git_config_push_parameter "core.configWriteLockTimeoutMS=150"
              end w).2).
  assert (the_repository w0 = the_repository w) as Hrepo0.
  { subst w0. by destruct (store_get _ _). }
  assert ((match store_get (config w) "core.configWriteLockTimeoutMS" with
           | Some _ => ret tt
           | None => git_config_push_parameter "core.configWriteLockTimeoutMS=150"
           end w) = (Ret tt, w0)) as ->.
  { subst w0. by destruct (store_get _ _). }
  unfold bind at 1.
  destruct (run_git_run E ["config"; "--global"; "--get"; "--fixed-value"; "scalar.repo"; wt] w0)
    as (res & sts & ->).
  destruct (_ || _).
  - eexists _, _. split; [done|]. done.
  - match goal with |- context [run_git E ?argv ?x] =>
      destruct (run_git_run E argv x) as (res' & sts' & ->) end.
    eexists _, _. split; [done|]. done.
Qed.

Lemma toggle_maintenance_repository (E : env) (enable : bool) (w : world) (r : Z)
  (w' : world) :
  toggle_maintenance E enable w = (Ret r, w') → the_repository w' = the_repository w.
Proof.
  unfold toggle_maintenance, bind at 1, git_config_get_ulong, git_config_get_string, ask.
  unfold bind at 1.
  destruct (store_get _ _); cbn [fst snd]; unfold ret, git_config_push_parameter, emit;
    match goal with |- context [run_git E ?argv ?x] =>
      destruct (run_git_run E argv x) as (res & sts & ->) end;
    by intros [= <- <-].
Qed.

(** X8.  [unregister_dir] turns the maintenance off and removes the
    registration, and tries the second also when the first has failed;
    it returns 0 when both succeed and -1 when either fails. *)
Theorem unregister_dir_tries_both (E : env) (w : world) :
  is_Some (worktree (the_repository w)) →
  ∃ r1 w1 r2 w2,
    toggle_maintenance E false w = (Ret r1, w1)
    ∧ add_or_remove_enlistment E false
        (if truthy r1 then add_log (EvError "could not turn off maintenance") w1 else w1)
      = (Ret r2, w2)
    ∧ unregister_dir E w
      = (Ret (if (r1 =? 0) && (r2 =? 0) then 0 else -1),
         if truthy r2 then add_log (EvError "could not remove enlistment") w2 else w2).
Proof.
  intros Hwt.
  destruct (returns_toggle_maintenance E false w) as (r1 & w1 & H1).
  pose proof (toggle_maintenance_repository _ _ _ _ _ H1) as Hrepo.
  set (w1' := if truthy r1 then add_log (EvError "could not turn off maintenance") w1
              else w1).
  assert (is_Some (worktree (the_repository w1'))) as Hwt1.
  { subst w1'. destruct (truthy r1); cbn [the_repository add_log]; by rewrite Hrepo. }
  destruct (returns_add_or_remove_enlistment E false w1' Hwt1) as (r2 & w2 & H2 & _).
  exists r1, w1, r2, w2. split; [done|]. split; [done|].
  unfold unregister_dir, bind at 1. rewrite H1. unfold bind at 1.
  subst w1'. unfold truthy in *. destruct (r1 =? 0); cbn [negb andb] in *.
  - unfold ret at 1. unfold bind at 1. rewrite H2. by destruct (r2 =? 0).
  - unfold error, bind at 1, bind at 1, emit, ret at 1. unfold bind at 1.
    rewrite H2. by destruct (r2 =? 0).
Qed.

Lemma unregister_dir_tries_both_witness :
  let run := unregister_dir unset_fails_env (in_worktree "/work/repo/src") in
  fst run = Ret (-1)
  ∧ log (snd run)
    = [EvConfigParam "core.configWriteLockTimeoutMS=150";
       EvRunGit ["maintenance"; "unregister"; "--force"] [0];
       EvConfigParam "core.configWriteLockTimeoutMS=150";
       EvRunGit ["config"; "--global"; "--get"; "--fixed-value"; "scalar.repo";
                 "/work/repo/src"] [0];
       EvRunGit ["config"; "--global"; "--unset"; "--fixed-value"; "scalar.repo";
                 "/work/repo/src"] [5; 5; 5];
       EvError "could not remove enlistment"].
Proof.
  cbv zeta.
  destruct (unregister_dir_tries_both unset_fails_env (in_worktree "/work/repo/src"))
    as (r1 & w1 & r2 & w2 & H1 & H2 & ->); [by eexists|].
  vm_compute in H1. injection H1 as <- <-.
  vm_compute in H2. injection H2 as <- <-.
  split; vm_compute; reflexivity.
Defined.

(** X9.  [register_dir] does not fail because the maintenance could not
    be turned on: once the enlistment is registered and configured, a
    failure of the maintenance is reported as a warning and the result
    is that of the file-system monitor, 0 when there is none. *)
Theorem register_dir_maintenance_is_optional (E : env) (w w1 w2 w3 : world) (r : Z) :
  add_or_remove_enlistment E true w = (Ret 0, w1) →
  set_recommended_config E false w1 = (Ret 0, w2) →
  toggle_maintenance E true w2 = (Ret r, w3) →
  fsmonitor_ipc__is_supported E = false →
  register_dir E w
  = (Ret 0,
     if truthy r then add_log (EvWarning "could not turn on maintenance") w3 else w3).
Proof.
  intros Hadd Hcfg Hmaint Hfsm.
  unfold register_dir, bind at 1. rewrite Hadd, truthy_0.
  unfold bind at 1. rewrite Hcfg, truthy_0. unfold bind at 1. rewrite Hmaint.
  unfold have_fsmonitor_support. rewrite Hfsm. cbn [andb].
  by destruct (truthy r).
Qed.

Lemma register_dir_maintenance_is_optional_witness :
  let run := register_dir maintenance_fails_env (in_worktree "/work/repo/src") in
  fst run = Ret 0
  ∧ last (log (snd run)) = Some (EvWarning "could not turn on maintenance").
Proof.
  cbv zeta.
  erewrite (register_dir_maintenance_is_optional maintenance_fails_env
              (in_worktree "/work/repo/src")
              (snd (add_or_remove_enlistment maintenance_fails_env true
                      (in_worktree "/work/repo/src")))
              (snd (set_recommended_config maintenance_fails_env false
                      (snd (add_or_remove_enlistment maintenance_fails_env true
                              (in_worktree "/work/repo/src")))))
              (snd (toggle_maintenance maintenance_fails_env true
                      (snd (set_recommended_config maintenance_fails_env false
                              (snd (add_or_remove_enlistment maintenance_fails_env true
                                      (in_worktree "/work/repo/src")))))))
              1);
    [split; vm_compute; reflexivity|vm_compute; reflexivity..].
Defined.

(** ** [delete_enlistment] *)

Lemma emits_unregister_dir (E : env) (P : event → Prop) :
  (∀ argv statuses, P (EvRunGit argv statuses)) →
  (∀ parameter, P (EvConfigParam parameter)) →
  (∀ msg, P (EvError msg)) →
  emits P (unregister_dir E).
Proof.
  intros Hrun Hparam Herr.
  unfold unregister_dir, toggle_maintenance, add_or_remove_enlistment, require_worktree,
    git_config_get_ulong, git_config_push_parameter.
  emits_auto.
Qed.

(** X10.  [delete_enlistment] removes the directory of the enlistment
    and no other, writes no file and sets no configuration value.  It
    returns 0 only when its last action was the successful removal of
    that directory, and when the enlistment cannot be unregistered it
    returns -1 without removing anything. *)
Theorem delete_enlistment_removes_last (E : env) (enlistment : string) :
  emits (removes_only enlistment) (delete_enlistment E enlistment)
  ∧ (∀ w w', delete_enlistment E enlistment w = (Ret 0, w') →
             ∃ w0, w' = add_log (EvRemoveDir enlistment 0) w0)
  ∧ (∀ w r w1, unregister_dir E w = (Ret r, w1) → r ≠ 0 →
               delete_enlistment E enlistment w
               = (Ret (-1), add_log (EvError "failed to unregister repository") w1)).
Proof.
  split_and!.
  - unfold delete_enlistment.
    apply emits_bind; [by apply emits_unregister_dir|]. intros r.
    unfold have_fsmonitor_support, stop_fsmonitor_daemon. emits_auto.
  - intros w w' H. unfold delete_enlistment in H.
    apply bind_Ret in H as (r & w1 & _ & H).
    destruct (truthy r); [by injection H|].
    apply bind_Ret in H as (r' & w2 & _ & H).
    destruct (truthy r') eqn:Hr'; [injection H as -> _; done|].
    apply bind_Ret in H as (fsm & w3 & _ & H).
    apply bind_Ret in H as (r'' & w4 & _ & H).
    destruct (truthy r''); [by injection H|].
    apply bind_Ret in H as (rm & w5 & Hrm & H).
    destruct (truthy rm) eqn:Htr; [by injection H|].
    apply truthy_false in Htr. subst rm. injection H as <-.
    unfold do_remove_dir_recursively in Hrm. injection Hrm as Hz <-.
    rewrite Hz. by eexists.
  - intros w r w1 Hun Hr. unfold delete_enlistment, bind at 1. rewrite Hun.
    by rewrite (proj2 (truthy_true r) Hr).
Qed.

Lemma delete_enlistment_removes_last_witness :
  delete_enlistment unset_fails_env "/work/repo" (in_worktree "/work/repo/src")
  = (Ret (-1),
     add_log (EvError "failed to unregister repository")
       (snd (unregister_dir unset_fails_env (in_worktree "/work/repo/src")))).
Proof.
  apply (proj2 (proj2 (delete_enlistment_removes_last unset_fails_env "/work/repo"))
           (in_worktree "/work/repo/src") (-1)).
  - vm_compute. reflexivity.
  - lia.
Defined.

(** ** [set_config] *)

Lemma split_assignment_value (k v : string) :
  strchr k "=" = false → split_assignment (k ++ String "=" v) = (k, Some v).
Proof.
  induction k as [|c k IH]; simpl; [done|].
  intros H. apply orb_false_iff in H as [Hc Hk]. rewrite Hc. by rewrite IH.
Qed.

Lemma split_assignment_key (k : string) :
  strchr k "=" = false → split_assignment k = (k, None).
Proof.
  induction k as [|c k IH]; simpl; [done|].
  intros H. apply orb_false_iff in H as [Hc Hk]. rewrite Hc. by rewrite IH.
Qed.

(** X11.  [set_config] splits its argument at the first equals sign:
    what follows is the value, other equals signs included, and when the
    store accepts the write it can be read back under the key; an
    argument without an equals sign removes the key. *)
Theorem set_config_round_trip (E : env) (k v : string) (w : world) :
  strchr k "=" = false →
  config_write_status E (config w) k (Some v) = 0 →
  ∃ w1,
    set_config E (k ++ String "=" v) w = (Ret 0, w1)
    ∧ git_config_get_string k w1 = (Ret (Some v), w1)
    ∧ (config_write_status E (config w1) k None = 0 →
       ∃ w2, set_config E k w1 = (Ret 0, w2)
             ∧ git_config_get_string k w2 = (Ret None, w2)).
Proof.
  intros Hk Hw. unfold set_config. rewrite split_assignment_value by done.
  destruct (set_gently_run E k (Some v) w) as [[_ ->]|[Hs _]]; [|done].
  eexists. split; [done|].
  split.
  - unfold git_config_get_string, ask. cbn [config add_log with_config].
    by rewrite store_get_set_eq.
  - intros Hw1. rewrite split_assignment_key by done.
    match goal with |- context [git_config_set_gently E k None ?x] =>
      destruct (set_gently_run E k None x) as [[_ ->]|[Hs _]]; [|done] end.
    eexists. split; [done|].
    unfold git_config_get_string, ask. cbn [config add_log with_config].
    by rewrite store_get_unset_eq.
Qed.

Lemma set_config_round_trip_witness :
  let w1 := snd (set_config no_filter_env "gvfs.cache-server=https://cache/?a=b"
                   (initial_world ∅)) in
  fst (git_config_get_string "GVFS.Cache-Server" w1) = Ret (Some "https://cache/?a=b").
Proof.
  cbv zeta.
  destruct (set_config_round_trip no_filter_env "gvfs.cache-server" "https://cache/?a=b"
              (initial_world ∅) eq_refl eq_refl) as (w1 & Hset & Hget & _).
  change ("gvfs.cache-server" ++ String "=" "https://cache/?a=b")
    with "gvfs.cache-server=https://cache/?a=b" in Hset.
  rewrite Hset. cbn [snd]. unfold git_config_get_string, ask in *. cbn [fst].
  injection Hget as Hget. f_equal. exact Hget.
Defined.

(** ** [cmd_cache_server] *)

(** X12.  [cmd_cache_server] with --set stores the URL under
    gvfs.cache-server, whatever characters it holds, and returns 0, or 1
    when the configuration store refuses the write; with --get, or with
    none of the three options, it prints the URL that is configured, or
    (undefined) when none is, and returns 0. *)
Theorem cache_server_set_and_get (E : env)
  (remote_get : world → option string → option remote)
  (args : list string) (w w1 : world) (root : string) :
  setup_enlistment_directory E args w = (Ret root, w1) →
  (∀ url,
     cmd_cache_server E remote_get args false (Some url) None w
     = let status := config_write_status E (config w1) "gvfs.cache-server" (Some url) in
       if status =? 0
       then (Ret 0,
             add_log (EvConfigSet "gvfs.cache-server" (Some url) 0)
               (with_config (store_set (config w1) "gvfs.cache-server" (Some url)) w1))
       else (Ret 1, add_log (EvConfigSet "gvfs.cache-server" (Some url) status) w1))
  ∧ (∀ get,
       cmd_cache_server E remote_get args get None None w
       = (Ret 0,
          add_log (using_cache_server (store_get (config w1) "gvfs.cache-server")) w1)).
Proof.
  intros Hsetup. split.
  - intros url. unfold cmd_cache_server.
    change (1 <? 0 + 1 + 0) with false. cbv iota.
    unfold bind at 1. rewrite Hsetup. unfold bind at 1, set_config.
    change ("gvfs.cache-server=" ++ url) with ("gvfs.cache-server" ++ String "=" url).
    rewrite split_assignment_value by done. cbv zeta.
    destruct (set_gently_run E "gvfs.cache-server" (Some url) w1) as [[Hs ->]|[Hs ->]].
    + by rewrite Hs.
    + rewrite (proj2 (Z.eqb_neq _ _) Hs).
      by rewrite (proj2 (truthy_true _) Hs).
  - intros get. unfold cmd_cache_server.
    destruct get;
      [change (1 <? 1 + 0 + 0) with false|change (1 <? 0 + 0 + 0) with false];
      cbv iota; unfold bind at 1; rewrite Hsetup; reflexivity.
Qed.

Lemma cache_server_set_and_get_witness :
  let args := ["/work/repo"] in
  let w1 := snd (cmd_cache_server listing_env no_remotes args false
                   (Some "https://cache.example.com/?a=b") None (initial_world ∅)) in
  last (log (snd (cmd_cache_server listing_env no_remotes args true None None
                    (with_repository no_repository w1))))
  = Some (EvStdout ("Using cache server: https://cache.example.com/?a=b"
                    ++ String newline EmptyString)).
Proof.
  cbv zeta.
  rewrite (proj1 (cache_server_set_and_get listing_env no_remotes ["/work/repo"]
                    (initial_world ∅)
                    (snd (setup_enlistment_directory listing_env ["/work/repo"]
                            (initial_world ∅)))
                    "/work/repo/src" ltac:(vm_compute; reflexivity))
             "https://cache.example.com/?a=b").
  vm_compute. reflexivity.
Defined.

(** ** [list_cache_server_urls] *)

Lemma add_logs_app (evs1 evs2 : list event) (w : world) :
  add_logs (evs1 ++ evs2) w = add_logs evs2 (add_logs evs1 w).
Proof. unfold add_logs. by rewrite fold_left_app. Qed.

Lemma log_add_logs (evs : list event) (w : world) :
  log (add_logs evs w) = (log w ++ evs)%list.
Proof.
  revert w. induction evs as [|e evs IH]; intros w; simpl.
  - by rewrite app_nil_r.
  - unfold add_logs in *. simpl. rewrite IH. cbn [log add_log].
    by rewrite <- app_assoc.
Qed.

Lemma visit_list_cache_server_urls_run (vs : list json_iterator) (w : world) :
  visit_values list_cache_server_urls vs w
  = (0, add_logs (EvStdout <$> omap server_line vs) w).
Proof.
  revert w. induction vs as [|v vs IH]; intros w; [done|].
  simpl. unfold list_cache_server_urls at 1, server_line at 1.
  destruct (json_type_eqb (it_type v) JSON_STRING).
  - destruct (cache_server_index_of (it_key v) "].Url"); simpl; by rewrite IH.
  - simpl. by rewrite IH.
Qed.

(** X13.  [cmd_cache_server] with --list and an argument that holds a
    slash takes the argument for a URL, without looking for a remote of
    that name.  When the helper answers for it, one line #N: <url> is
    printed for every string value .CacheServers[N].Url of the reply,
    in the order of the document, and nothing else; the result is 0 for
    a well-formed reply and 1, after the parse error, for another. *)
Theorem cache_server_list_prints_servers (E : env)
  (remote_get : world → option string → option remote)
  (args : list string) (w w1 : world) (root url : string) :
  setup_enlistment_directory E args w = (Ret root, w1) →
  strchr url "/" = true →
  can_url_support_gvfs E url = true →
  fst (pipe_command E w1 (gvfs_config_argv url)) = 0 →
  let doc := json_parse E (snd (pipe_command E w1 (gvfs_config_argv url))) in
  let w2 := add_logs (EvStdout <$> listing doc)
              (add_log (EvPipe (gvfs_config_argv url) 0) w1) in
  cmd_cache_server E remote_get args false None (Some (Some url)) w
  = if doc_well_formed doc then (Ret 0, w2)
    else (Ret 1, add_log (EvError "JSON parse error") w2).
Proof.
  intros Hsetup Hslash Hcan Hst doc w2. unfold cmd_cache_server.
  change (1 <? 0 + 0 + 1) with false. cbv iota.
  unfold bind at 1. rewrite Hsetup. rewrite Hslash. cbn [negb].
  unfold bind at 1, ret at 1. unfold bind at 1.
  rewrite supports_gvfs_protocol_reply by done. cbv zeta. cbn [negb].
  unfold iterate_json. rewrite visit_list_cache_server_urls_run.
  fold doc. unfold listing in w2. fold w2. cbn [Z.eqb].
  by destruct (doc_well_formed doc).
Qed.

Lemma cache_server_list_prints_servers_witness :
  omap (λ e, match e with EvStdout text => Some text | _ => None end)
    (log (snd (cmd_cache_server listing_env no_remotes ["/work/repo"] false None
                 (Some (Some "https://example.com/org/repo")) (initial_world ∅))))
  = ["#0: https://cache0.example.com" ++ String newline EmptyString;
     "#1: https://cache1.example.com" ++ String newline EmptyString].
Proof.
  rewrite (cache_server_list_prints_servers listing_env no_remotes ["/work/repo"]
             (initial_world ∅)
             (snd (setup_enlistment_directory listing_env ["/work/repo"]
                     (initial_world ∅)))
             "/work/repo/src" "https://example.com/org/repo"
             ltac:(vm_compute; reflexivity) eq_refl eq_refl eq_refl).
  vm_compute. reflexivity.
Defined.

(** ** The index of a cache server *)

Lemma uint_value_pos (d : Decimal.uint) (acc : positive) :
  uint_value (Z.pos acc) d = Z.pos (Pos.of_uint_acc d acc).
Proof.
  revert acc. induction d; intros acc; simpl; [done|..];
    match goal with
    | |- uint_value ?a _ = Z.pos (Pos.of_uint_acc _ ?b) =>
        replace a with (Z.pos b) by lia; apply IHd
    end.
Qed.

Lemma uint_value_0 (d : Decimal.uint) : uint_value 0 d = Z.of_N (Pos.of_uint d).
Proof.
  induction d; simpl; [done|exact IHd|..]; apply uint_value_pos.
Qed.

Lemma digits_uint (d : Decimal.uint) (acc : Z) (rest : string) :
  has_digit rest = false →
  digits acc (NilEmpty.string_of_uint d ++ rest) = (uint_value acc d, rest).
Proof.
  intros Hrest. revert acc. induction d; intros acc; simpl; try apply IHd.
  destruct rest as [|c rest]; [done|]. simpl in *. by destruct (digit_of c).
Qed.

Lemma to_uint_nonnil (p : positive) : Pos.to_uint p ≠ Decimal.Nil.
Proof.
  intros H. pose proof (DecimalPos.Unsigned.of_to p) as Hof. rewrite H in Hof. done.
Qed.

Lemma strtol_digit (c : ascii) (k : Z) (s : string) :
  digit_of c = Some k →
  strtol (String c s)
  = (LONG_MAX `min` fst (digits (0 * 10 + k) s), snd (digits (0 * 10 + k) s), true).
Proof.
  intros Hc. unfold strtol.
  assert (c_isspace c = false ∧ c ≠ "-"%char ∧ c ≠ "+"%char) as (Hsp & Hm & Hp).
  { destruct c as [[] [] [] [] [] [] [] []]; try discriminate Hc; by vm_compute. }
  cbn [skip_space]. rewrite Hsp.
  assert (match String c s with
          | String "+"%char s' => (false, s')
          | String "-"%char s' => (true, s')
          | _ => (false, String c s)
          end = (false, String c s)) as ->.
  { destruct c as [[] [] [] [] [] [] [] []]; try done. }
  cbn [has_digit]. rewrite Hc. cbn [digits]. rewrite Hc.
  by destruct (digits (0 * 10 + k) s).
Qed.

Lemma strtol_digits (d : Decimal.uint) (rest : string) :
  d ≠ Decimal.Nil → has_digit rest = false →
  strtol (NilEmpty.string_of_uint d ++ rest)
  = (Z.min LONG_MAX (uint_value 0 d), rest, true).
Proof.
  intros Hd Hrest.
  destruct d; [done|..]; simpl NilEmpty.string_of_uint;
    change (String ?c ?s ++ rest) with (String c (s ++ rest));
    erewrite strtol_digit by reflexivity; rewrite digits_uint by done; reflexivity.
Qed.

Lemma strtol_minus (d : Decimal.uint) (rest : string) :
  d ≠ Decimal.Nil → has_digit rest = false →
  strtol (String "-" (NilEmpty.string_of_uint d) ++ rest)
  = (Z.max LONG_MIN (- uint_value 0 d), rest, true).
Proof.
  intros Hd Hrest. unfold strtol.
  change (String "-" (NilEmpty.string_of_uint d) ++ rest)
    with (String "-" (NilEmpty.string_of_uint d ++ rest)).
  cbn [skip_space]. change (c_isspace "-") with false. cbv iota beta.
  assert (has_digit (NilEmpty.string_of_uint d ++ rest) = true) as ->.
  { by destruct d. }
  by rewrite digits_uint.
Qed.

Lemma strtol_fmt_ld (n : Z) (rest : string) :
  0 ≤ n ≤ LONG_MAX → has_digit rest = false →
  strtol (fmt_ld n ++ rest) = (n, rest, true).
Proof.
  intros Hn Hrest. unfold fmt_ld. destruct n as [|p|p]; [|..|lia].
  - reflexivity || (destruct rest as [|c rest]; [reflexivity|];
                   simpl in Hrest; unfold strtol; simpl; destruct (digit_of c); done).
  - simpl Z.to_int. simpl NilZero.string_of_int.
    pose proof (to_uint_nonnil p) as Hnn.
    assert (NilZero.string_of_uint (Pos.to_uint p)
            = NilEmpty.string_of_uint (Pos.to_uint p)) as ->.
    { by destruct (Pos.to_uint p). }
    rewrite strtol_digits by done.
    rewrite uint_value_0, DecimalPos.Unsigned.of_to. simpl Z.of_N.
    do 2 f_equal. lia.
Qed.

Lemma strbuf_tolower_idemp (s : string) :
  strbuf_tolower (strbuf_tolower s) = strbuf_tolower s.
Proof. induction s as [|c s IH]; simpl; [done|]. by rewrite tolower_idemp, IH. Qed.

(** X14.  The key that [supports_gvfs_protocol] formats for the server of
    index N is read back as index N by the callbacks: for every N from 0
    to [LONG_MAX], and in whatever letter case the end of the key is
    written, .CacheServers[N] followed by ].Url or ].GlobalDefault is
    recognised with index N.  A negative index is not recognised. *)
Theorem cache_server_index_round_trip (n : Z) (tail tail' : string) :
  has_digit tail' = false →
  strcaseeq tail' tail = true →
  (0 ≤ n ≤ LONG_MAX →
   cache_server_index_of (".CacheServers[" ++ fmt_ld n ++ tail') tail = Some n)
  ∧ (n < 0 → cache_server_index_of (".CacheServers[" ++ fmt_ld n ++ tail') tail = None).
Proof.
  intros Hdigit Hcase. split.
  - intros Hn. unfold cache_server_index_of.
    change (skip_iprefix (".CacheServers[" ++ fmt_ld n ++ tail') ".CacheServers[")
      with (Some (fmt_ld n ++ tail')).
    cbv beta iota. rewrite strtol_fmt_ld by done. rewrite Hcase.
    by rewrite (proj2 (Z.leb_le 0 n)) by lia.
  - intros Hn. unfold cache_server_index_of.
    change (skip_iprefix (".CacheServers[" ++ fmt_ld n ++ tail') ".CacheServers[")
      with (Some (fmt_ld n ++ tail')).
    cbv beta iota. destruct n as [|p|p]; [lia|lia|].
    unfold fmt_ld. simpl Z.to_int. simpl NilZero.string_of_int.
    pose proof (to_uint_nonnil p) as Hnn.
    assert (NilZero.string_of_uint (Pos.to_uint p)
            = NilEmpty.string_of_uint (Pos.to_uint p)) as ->.
    { by destruct (Pos.to_uint p). }
    rewrite strtol_minus by done.
    rewrite uint_value_0, DecimalPos.Unsigned.of_to. simpl Z.of_N.
    assert ((0 <=? Z.max LONG_MIN (- Z.pos p)) = false) as ->.
    { apply Z.leb_gt. unfold LONG_MIN. lia. }
    done.
Qed.

Lemma cache_server_index_round_trip_witness :
  cache_server_index_of (server_url_key 12) "].Url" = Some 12
  ∧ cache_server_index_of ".CacheServers[7].GLOBALDEFAULT" "].GlobalDefault" = Some 7.
Proof.
  split.
  - apply (proj1 (cache_server_index_round_trip 12 "].Url" "].Url" eq_refl eq_refl)).
    vm_compute. split; discriminate.
  - apply (proj1 (cache_server_index_round_trip 7 "].GlobalDefault" "].GLOBALDEFAULT"
                    eq_refl eq_refl)).
    vm_compute. split; discriminate.
Defined.

(** ** The default cache server *)




(** ** What [set_recommended_config] keeps *)

Section Keeps.

Variable E : env.

Lemma set_scalar_config_keeps (cfg : scalar_config) (reconfigure : bool)
  (w : world) (z : Z) (w1 : world) (k v : string) :
  set_scalar_config E cfg reconfigure w = (Ret z, w1) →
  store_get (config w) k = Some v →
  (reconfigure && overwrite_on_reconfigure cfg = true →
   config_key (key cfg) ≠ config_key k) →
  store_get (config w1) k = Some v.
Proof.
  intros Hrun Hget Hforced.
  destruct (decide (config_key (key cfg) = config_key k)) as [Heq|Hne].
  - destruct (reconfigure && overwrite_on_reconfigure cfg) eqn:Hf.
    { by destruct (Hforced eq_refl). }
    unfold set_scalar_config, bind in Hrun. rewrite Hf in Hrun.
    unfold git_config_get_string, ask in Hrun.
    rewrite (store_get_congr _ _ _ Heq), Hget in Hrun. cbn [orb] in Hrun.
    unfold trace2_data_string, emit, ret in Hrun. by injection Hrun as <- <-.
  - by rewrite (set_scalar_config_frame E _ _ _ _ _ k Hrun Hne).
Qed.

Lemma set_scalar_configs_keeps (table : list scalar_config) (reconfigure : bool)
  (k v : string) :
  Forall (λ cfg, reconfigure && overwrite_on_reconfigure cfg = true →
                 config_key (key cfg) ≠ config_key k) table →
  ∀ w z w1, set_scalar_configs E table reconfigure w = (Ret z, w1) →
            store_get (config w) k = Some v →
            store_get (config w1) k = Some v.
Proof.
  induction 1 as [|cfg table Hk _ IH]; intros w z w1.
  - by intros [= <- <-].
  - simpl. unfold bind.
    destruct (set_scalar_config E cfg reconfigure w) as [[r|msg] w'] eqn:Hc; [|done].
    intros Hrest Hget.
    pose proof (set_scalar_config_keeps _ _ _ _ _ _ _ Hc Hget Hk) as Hget'.
    destruct (truthy r).
    + by injection Hrest as <- <-.
    + by apply (IH _ _ _ Hrest).
Qed.

Lemma configure_fsmonitor_keeps (reconfigure : bool) (w : world) (z : Z) (w1 : world)
  (k v : string) :
  configure_fsmonitor E reconfigure w = (Ret z, w1) →
  store_get (config w) k = Some v →
  store_get (config w1) k = Some v.
Proof.
  unfold configure_fsmonitor, have_fsmonitor_support, bind, ask.
  destruct (_ && _); [|by intros [= <- <-]].
  destruct (set_scalar_config E _ reconfigure w) as [[r|msg] w'] eqn:Hc; [|done].
  intros Hrun Hget.
  assert (store_get (config w') k = Some v) as Hget'.
  { eapply set_scalar_config_keeps; [exact Hc|done|].
    cbn [optional overwrite_on_reconfigure]. by rewrite andb_false_r. }
  destruct (truthy r); by injection Hrun as <- <-.
Qed.

Lemma configure_exclude_decoration_keeps (w : world) (z : Z) (w1 : world) (k v : string) :
  configure_exclude_decoration E w = (Ret z, w1) →
  store_get (config w) k = Some v →
  store_get (config w1) k = Some v.
Proof.
  intros Hrun Hget.
  destruct (decide (config_key "log.excludeDecoration" = config_key k)) as [Heq|Hne].
  - rewrite configure_exclude_decoration_run in Hrun.
    rewrite (store_get_congr _ _ _ Heq), Hget in Hrun. by injection Hrun as <- <-.
  - by rewrite (configure_exclude_decoration_frame E _ _ _ _ Hrun Hne).
Qed.

Lemma after_migration_keeps (reconfigure : bool) (w : world) (z : Z) (w1 : world)
  (k v : string) :
  after_migration E reconfigure w = (Ret z, w1) →
  (reconfigure = true → not_forced E k) →
  store_get (config w) k = Some v →
  store_get (config w1) k = Some v.
Proof.
  intros Hrun Hnf Hget. unfold after_migration, and_then, bind in Hrun.
  destruct (set_scalar_configs E _ reconfigure w) as [[zt|msg] wt] eqn:Ht; [|done].
  assert (store_get (config wt) k = Some v) as Hgett.
  { eapply set_scalar_configs_keeps; [|exact Ht|done].
    destruct reconfigure.
    - specialize (Hnf eq_refl). eapply Forall_impl; [exact Hnf|]. by intros cfg H.
    - apply Forall_forall. by intros cfg _ [=]. }
  destruct (truthy zt); [by injection Hrun as <- <-|].
  destruct (configure_fsmonitor E reconfigure wt) as [[zf|msg] wf] eqn:Hf; [|done].
  pose proof (configure_fsmonitor_keeps _ _ _ _ _ _ Hf Hgett) as Hgetf.
  destruct (truthy zf); [by injection Hrun as <- <-|].
  by eapply configure_exclude_decoration_keeps.
Qed.

Lemma migrate_keeps (w : world) (z : Z) (w1 : world) (k v : string) :
  migrate_usebuiltinfsmonitor E w = (Ret z, w1) →
  config_key k ≠ config_key legacy_key →
  store_get (config w) k = Some v →
  store_get (config w1) k = Some v.
Proof.
  intros Hrun Hk Hget. rewrite migrate_run in Hrun.
  destruct (store_get (config w) legacy_key) as [old|]; [|by injection Hrun as <- <-].
  cbv zeta in Hrun.
  destruct (store_get (config w) "core.fsmonitor") eqn:Hnew.
  - repeat match type of Hrun with context [if ?b then _ else _] => destruct b end;
      injection Hrun as <- <-; cbn [config add_log with_config];
      rewrite ?store_get_set_ne; done.
  - assert (config_key "core.fsmonitor" ≠ config_key k) as Hne.
    { intros Heq. rewrite (store_get_congr _ _ _ Heq) in Hnew. congruence. }
    repeat match type of Hrun with context [if ?b then _ else _] => destruct b end;
      injection Hrun as <- <-; cbn [config add_log with_config];
      rewrite ?store_get_set_ne; done.
Qed.

End Keeps.

(** The first-time mode, as the commands that register use it. *)
Lemma first_time_keeps (E : env) (w : world) (z : Z) (w1 : world) (k v : string) :
  set_recommended_config E false w = (Ret z, w1) →
  store_get (config w) k = Some v →
  config_key k ≠ config_key legacy_key →
  store_get (config w1) k = Some v.
Proof.
  intros Hrun Hget Hk.
  rewrite set_recommended_config_split in Hrun. unfold and_then at 1, bind in Hrun.
  destruct (migrate_usebuiltinfsmonitor E w) as [[zm|msg] wm] eqn:Hm; [|done].
  pose proof (migrate_keeps E _ _ _ _ _ Hm Hk Hget) as Hgetm.
  destruct (truthy zm); [by injection Hrun as <- <-|].
  eapply after_migration_keeps; [exact Hrun|done|done].
Qed.

(** X16.  [set_recommended_config] does not overwrite what is
    configured: a key that has a value keeps it through a first-time run,
    whether the run succeeds or not, and through a bulk run unless the
    key is one of the entries that are forced.  The one exception is the
    deprecated core.usebuiltinfsmonitor, which the migration removes. *)
Theorem existing_values_are_kept (E : env) (reconfigure : bool) (w : world) (z : Z)
  (w1 : world) (k v : string) :
  set_recommended_config E reconfigure w = (Ret z, w1) →
  store_get (config w) k = Some v →
  config_key k ≠ config_key legacy_key →
  (reconfigure = true → not_forced E k) →
  store_get (config w1) k = Some v.
Proof.
  intros Hrun Hget Hk Hnf.
  rewrite set_recommended_config_split in Hrun. unfold and_then at 1, bind in Hrun.
  destruct (migrate_usebuiltinfsmonitor E w) as [[zm|msg] wm] eqn:Hm; [|done].
  pose proof (migrate_keeps E _ _ _ _ _ Hm Hk Hget) as Hgetm.
  destruct (truthy zm); [by injection Hrun as <- <-|].
  by eapply after_migration_keeps.
Qed.

Lemma existing_values_are_kept_witness :
  let w := initial_world (<["core.autocrlf" := ["true"]]> (<["gc.auto" := ["1"]]> ∅)) in
  let w1 := snd (set_recommended_config no_filter_env true w) in
  store_get (config w1) "core.autoCRLF" = Some "true"
  ∧ store_get (config w1) "gc.auto" = Some "0".
Proof.
  cbv zeta. split; [|vm_compute; reflexivity].
  apply (existing_values_are_kept no_filter_env true
           (initial_world (<["core.autocrlf" := ["true"]]> (<["gc.auto" := ["1"]]> ∅)))
           0 _ "core.autoCRLF" "true").
  - vm_compute. reflexivity.
  - vm_compute. reflexivity.
  - by vm_compute.
  - intros _. unfold not_forced.
    repeat (constructor; [intros Ho; first [discriminate Ho|by vm_compute]|]).
    constructor.
Defined.

(** ** What a successful [set_recommended_config] leaves *)

Section Completes.

Variable E : env.

Lemma set_scalar_config_present (cfg : scalar_config) (reconfigure : bool)
  (w : world) (z : Z) (w1 : world) (k : string) :
  set_scalar_config E cfg reconfigure w = (Ret z, w1) →
  present (config w) k → present (config w1) k.
Proof.
  intros Hrun Hk.
  destruct (set_scalar_config_cases E cfg reconfigure w) as [[e He]|[e He]];
    rewrite He in Hrun.
  - by injection Hrun as <- <-.
  - destruct (set_gently_run E (key cfg) (Some (value cfg)) (add_log e w))
      as [[_ Hset]|[_ Hset]]; rewrite Hset in Hrun; injection Hrun as <- <-; [|done].
    cbn [config add_log with_config]. by apply present_set.
Qed.

Lemma set_scalar_config_sets (cfg : scalar_config) (reconfigure : bool)
  (w w1 : world) :
  set_scalar_config E cfg reconfigure w = (Ret 0, w1) →
  present (config w1) (key cfg).
Proof.
  unfold set_scalar_config, bind, git_config_get_string, ask, ret, trace2_data_string, emit.
  destruct (reconfigure && overwrite_on_reconfigure cfg); cbn [orb].
  - match goal with |- context [git_config_set_gently E ?k ?v ?x] =>
      destruct (set_gently_run E k v x) as [[_ ->]|[Hs ->]] end;
      [|by intros [= ? _]].
    intros [= <-]. cbn [config add_log with_config]. unfold present.
    rewrite store_get_set_eq. by eexists.
  - destruct (store_get (config w) (key cfg)) eqn:Hget.
    + intros [= <-]. cbn [config add_log]. unfold present. rewrite Hget. by eexists.
    + match goal with |- context [git_config_set_gently E ?k ?v ?x] =>
        destruct (set_gently_run E k v x) as [[_ ->]|[Hs ->]] end;
        [|by intros [= ? _]].
      intros [= <-]. cbn [config add_log with_config]. unfold present.
      rewrite store_get_set_eq. by eexists.
Qed.

Lemma set_scalar_configs_present (table : list scalar_config) (reconfigure : bool)
  (k : string) (w : world) (z : Z) (w1 : world) :
  set_scalar_configs E table reconfigure w = (Ret z, w1) →
  present (config w) k → present (config w1) k.
Proof.
  revert w. induction table as [|cfg table IH]; intros w.
  - by intros [= <- <-].
  - simpl. unfold bind.
    destruct (set_scalar_config E cfg reconfigure w) as [[r|msg] w'] eqn:Hc; [|done].
    intros Hrest Hk.
    pose proof (set_scalar_config_present _ _ _ _ _ _ Hc Hk) as Hk'.
    destruct (truthy r).
    + by injection Hrest as <- <-.
    + by apply (IH _ Hrest).
Qed.

Lemma set_scalar_configs_sets (table : list scalar_config) (reconfigure : bool)
  (w w1 : world) :
  set_scalar_configs E table reconfigure w = (Ret 0, w1) →
  Forall (λ cfg, present (config w1) (key cfg)) table.
Proof.
  revert w. induction table as [|cfg table IH]; intros w; [by constructor|].
  simpl. unfold bind.
  destruct (set_scalar_config E cfg reconfigure w) as [[r|msg] w'] eqn:Hc; [|done].
  destruct (truthy r) eqn:Hr; [by intros [= ? ?]|].
  apply truthy_false in Hr. subst r. intros Hrest. constructor; [|by eapply IH].
  eapply set_scalar_configs_present; [exact Hrest|]. by eapply set_scalar_config_sets.
Qed.

Lemma configure_fsmonitor_present (reconfigure : bool) (w : world) (z : Z) (w1 : world)
  (k : string) :
  configure_fsmonitor E reconfigure w = (Ret z, w1) →
  present (config w) k → present (config w1) k.
Proof.
  unfold configure_fsmonitor, have_fsmonitor_support, bind, ask.
  destruct (_ && _); [|by intros [= <- <-]].
  destruct (set_scalar_config E _ reconfigure w) as [[r|msg] w'] eqn:Hc; [|done].
  intros Hrun Hk. pose proof (set_scalar_config_present _ _ _ _ _ _ Hc Hk) as Hk'.
  destruct (truthy r); by injection Hrun as <- <-.
Qed.

Lemma configure_exclude_decoration_present (w : world) (z : Z) (w1 : world) (k : string) :
  configure_exclude_decoration E w = (Ret z, w1) →
  present (config w) k → present (config w1) k.
Proof.
  rewrite configure_exclude_decoration_run.
  destruct store_get; [by intros [= <- <-]|]. cbv zeta.
  destruct (_ =? 0); intros [= <- <-]; [|done].
  cbn [config add_log with_config]. apply present_append.
Qed.

Lemma configure_exclude_decoration_sets (w w1 : world) :
  configure_exclude_decoration E w = (Ret 0, w1) →
  present (config w1) "log.excludeDecoration".
Proof.
  rewrite configure_exclude_decoration_run.
  destruct store_get eqn:Hget.
  - intros [= <-]. cbn [config add_log]. unfold present. rewrite Hget. by eexists.
  - cbv zeta. destruct (_ =? 0); [|done]. intros [= <-].
    cbn [config add_log with_config]. unfold present.
    rewrite store_get_append_eq. by eexists.
Qed.

Lemma not_forced_fsmonitor : not_forced E "core.fsmonitor".
Proof.
  unfold not_forced. eapply Forall_impl; [apply recommended_config_not_special|].
  intros cfg [H _] _. by intros Heq.
Qed.

(** A migration that returns 0, with a store that refuses no write with
    a positive status: the deprecated key is gone, and its value has
    gone to core.fsmonitor if that had none. *)
Lemma migrate_moves (w w1 : world) :
  (∀ c k v, config_write_status E c k v ≤ 0) →
  migrate_usebuiltinfsmonitor E w = (Ret 0, w1) →
  store_get (config w1) legacy_key = None
  ∧ (∀ v, store_get (config w) legacy_key = Some v →
          store_get (config w) "core.fsmonitor" = None →
          store_get (config w1) "core.fsmonitor" = Some v).
Proof.
  intros Hneg. rewrite migrate_run.
  destruct (store_get (config w) legacy_key) as [old|] eqn:Hget.
  2:{ intros [= <-]. split; [done|]. intros v Hv. congruence. }
  cbv zeta. destruct (store_get (config w) "core.fsmonitor") eqn:Hnew.
  - pose proof (Hneg (config w) legacy_key None) as H1.
    destruct (Z.eqb_spec (config_write_status E (config w) legacy_key None) 0).
    + intros [= <-]. cbn [config add_log with_config].
      split; [apply store_get_unset_eq|]. intros v _ Hv. congruence.
    + destruct (Z.ltb_spec (config_write_status E (config w) legacy_key None) 0);
        [by intros [= ?]|lia].
  - pose proof (Hneg (config w) "core.fsmonitor" (Some old)) as H1.
    destruct (Z.eqb_spec (config_write_status E (config w) "core.fsmonitor" (Some old)) 0).
    2:{ destruct (Z.ltb_spec (config_write_status E (config w) "core.fsmonitor" (Some old)) 0);
          [by intros [= ?]|lia]. }
    cbn [config add_log with_config].
    match goal with |- context [config_write_status E ?c legacy_key None] =>
      pose proof (Hneg c legacy_key None) as H2;
      destruct (Z.eqb_spec (config_write_status E c legacy_key None) 0);
      [|destruct (Z.ltb_spec (config_write_status E c legacy_key None) 0);
        [by intros [= ?]|lia]] end.
    intros [= <-]. cbn [config add_log with_config].
    split; [apply store_get_unset_eq|]. intros v [= <-] _.
    rewrite store_get_set_ne by (by vm_compute). apply store_get_set_eq.
Qed.

End Completes.

(** X17.  After a run of [set_recommended_config] that returns 0, in
    either mode, every key of the table has a value and so has
    log.excludeDecoration.  If moreover the store refuses no write with
    a positive status, which the migration lets pass, the deprecated
    core.usebuiltinfsmonitor is gone, and if it had a value and
    core.fsmonitor had none, core.fsmonitor now has that value. *)
Theorem successful_run_completes (E : env) (reconfigure : bool) (w w1 : world) :
  set_recommended_config E reconfigure w = (Ret 0, w1) →
  Forall (λ cfg, present (config w1) (key cfg)) (recommended_config E)
  ∧ present (config w1) "log.excludeDecoration"
  ∧ ((∀ c k v, config_write_status E c k v ≤ 0) →
     store_get (config w1) legacy_key = None
     ∧ (∀ v, store_get (config w) legacy_key = Some v →
             store_get (config w) "core.fsmonitor" = None →
             store_get (config w1) "core.fsmonitor" = Some v)).
Proof.
  intros Hrun. rewrite set_recommended_config_split in Hrun.
  unfold and_then at 1, bind in Hrun.
  destruct (migrate_usebuiltinfsmonitor E w) as [[zm|msg] wm] eqn:Hm; [|done].
  destruct (truthy zm) eqn:Hzm; [injection Hrun as -> _; discriminate|].
  apply truthy_false in Hzm. subst zm.
  pose proof Hrun as Hafter.
  unfold after_migration, and_then, bind in Hrun.
  destruct (set_scalar_configs E _ reconfigure wm) as [[zt|msg] wt] eqn:Ht; [|done].
  destruct (truthy zt) eqn:Hzt; [injection Hrun as -> _; discriminate|].
  apply truthy_false in Hzt. subst zt.
  destruct (configure_fsmonitor E reconfigure wt) as [[zf|msg] wf] eqn:Hf; [|done].
  destruct (truthy zf) eqn:Hzf; [injection Hrun as -> _; discriminate|].
  split_and!.
  - eapply Forall_impl; [exact (set_scalar_configs_sets E _ _ _ _ Ht)|].
    intros cfg Hp. cbv beta in *.
    eapply configure_exclude_decoration_present; [exact Hrun|].
    eapply configure_fsmonitor_present; [exact Hf|done].
  - by eapply configure_exclude_decoration_sets.
  - intros Hneg. destruct (migrate_moves E w wm Hneg Hm) as [Hgone Hmoved]. split.
    + rewrite (configure_exclude_decoration_frame E _ _ _ legacy_key Hrun)
        by (by vm_compute).
      rewrite (configure_fsmonitor_frame E _ _ _ _ legacy_key Hf) by (by vm_compute).
      by rewrite (set_scalar_configs_frame E _ _ legacy_key
                    (recommended_config_not_legacy E) _ _ _ Ht).
    + intros v Hold Hnew.
      eapply after_migration_keeps; [exact Hafter|intros _; apply not_forced_fsmonitor|].
      by apply Hmoved.
Qed.

Lemma successful_run_completes_witness :
  let w1 := snd (set_recommended_config no_filter_env false legacy_world) in
  store_get (config w1) legacy_key = None
  ∧ store_get (config w1) "core.fsmonitor" = Some "true".
Proof.
  cbv zeta.
  destruct (successful_run_completes no_filter_env false legacy_world
              (snd (set_recommended_config no_filter_env false legacy_world))
              ltac:(vm_compute; reflexivity)) as (_ & _ & Hstore).
  destruct Hstore as [Hgone Hmoved]; [intros c k v; vm_compute; discriminate|].
  split; [exact Hgone|]. apply (Hmoved "true"); reflexivity.
Defined.

(** ** A helper that cannot be reached *)

(** X18.  [supports_gvfs_protocol] does not run the helper for a URL
    that is not https (or http, under GIT_TEST_ALLOW_GVFS_VIA_HTTP) and
    answers 0.  When the helper is run and fails, the negotiation of a
    clone quietly goes on without acceleration: nothing is reported.
    The listing of servers reports the same failure as an error. *)
Theorem unreachable_helper_is_quiet (E : env) (url : string) (w : world) :
  (can_url_support_gvfs E url = false →
   ∀ want_url, supports_gvfs_protocol E url want_url w = (Ret (0, None), w))
  ∧ (can_url_support_gvfs E url = true →
     fst (pipe_command E w (gvfs_config_argv url)) ≠ 0 →
     let w1 := add_log (EvPipe (gvfs_config_argv url)
                          (fst (pipe_command E w (gvfs_config_argv url)))) w in
     clone_negotiate E None url w = (Ret (false, None), w1)
     ∧ supports_gvfs_protocol E url false w
       = (Ret (-1, None),
          add_log (EvError "Could not access gvfs/config endpoint") w1)).
Proof.
  split.
  - intros Hcan want_url. unfold supports_gvfs_protocol. by rewrite Hcan.
  - intros Hcan Hst w1. subst w1. unfold gvfs_config_argv in *.
    rewrite clone_negotiate_run. unfold supports_gvfs_protocol, bind, pipe.
    rewrite Hcan. cbn [negb].
    destruct (pipe_command E w _) as [status out]. cbn [fst] in *.
    by rewrite (proj2 (truthy_true status) Hst).
Qed.

Lemma unreachable_helper_is_quiet_witness :
  clone_negotiate no_filter_env None "ssh://example.com/org/repo" (initial_world ∅)
  = (Ret (false, None), initial_world ∅)
  ∧ log (snd (clone_negotiate no_filter_env None "https://example.com/org/repo"
                (initial_world ∅)))
    = [EvPipe (gvfs_config_argv "https://example.com/org/repo") 1].
Proof.
  split.
  - rewrite clone_negotiate_run.
    by rewrite (proj1 (unreachable_helper_is_quiet no_filter_env
                         "ssh://example.com/org/repo" (initial_world ∅)) eq_refl true).
  - destruct (proj2 (unreachable_helper_is_quiet no_filter_env
                       "https://example.com/org/repo" (initial_world ∅))
                eq_refl ltac:(vm_compute; discriminate)) as [-> _].
    reflexivity.
Defined.

(** ** A clone without a cache root *)

(** X19.  Without --local-cache-path, a clone that is not unattended on
    a system other than Windows finds its cache root through HOME (and,
    first, XDG_CACHE_HOME where that is used); when these are unset or
    empty it ends before the repository is initialised: nothing has been
    run or created. *)
Theorem clone_without_cache_root (E : env) (o : clone_options) (w : world)
  (url enlistment : string) :
  clone_target E (clone_args o) w = (Ret (url, enlistment), w) →
  is_directory E w enlistment = false →
  opt_local_cache_root o = None →
  is_unattended E = false →
  target E ≠ WIN32 →
  getenv E "HOME" = None ∨ getenv E "HOME" = Some EmptyString →
  (target E = OTHER_UNIX →
   getenv E "XDG_CACHE_HOME" = None ∨ getenv E "XDG_CACHE_HOME" = Some EmptyString) →
  cmd_clone E o w = (Exit "could not determine local cache root", w).
Proof.
  intros Htarget Hdir Hroot Hatt Hwin Hhome Hxdg.
  assert (∀ root, default_cache_root E root = None) as Hnone.
  { intros root. unfold default_cache_root. rewrite Hatt.
    destruct (target E); [done| |].
    - by destruct Hhome as [-> | ->].
    - destruct (Hxdg eq_refl) as [-> | ->]; by destruct Hhome as [-> | ->]. }
  unfold cmd_clone, bind at 1. rewrite Htarget. unfold bind at 1, ask. rewrite Hdir.
  unfold bind at 1. rewrite ensure_absolute_path_run. rewrite Hroot.
  unfold bind at 1, ret at 1. by rewrite Hnone.
Qed.

Lemma clone_without_cache_root_witness :
  cmd_clone homeless_env (clone_of ["https://example.com/org/repo"] None) (initial_world ∅)
  = (Exit "could not determine local cache root", initial_world ∅).
Proof.
  apply (clone_without_cache_root homeless_env _ _ "https://example.com/org/repo" "repo");
    try reflexivity; try discriminate; by left.
Defined.

(** ** The name of the enlistment *)

Section Names.

Variable is_sep : ascii → bool.

Lemma trim_trailing_seps (s slashes : string) :
  all_chars is_sep slashes = true →
  trim_trailing is_sep (s ++ slashes) = trim_trailing is_sep s.
Proof.
  intros Hs.
  assert (trim_trailing is_sep slashes = EmptyString) as Hnil.
  { induction slashes as [|c t IH]; [done|]. simpl in *.
    apply andb_true_iff in Hs as [Hc Ht]. by rewrite IH, Hc. }
  induction s as [|c s IH]; simpl; [done|]. by rewrite IH.
Qed.

Lemma trim_trailing_app (s t : string) :
  trim_trailing is_sep t ≠ EmptyString →
  trim_trailing is_sep (s ++ t) = s ++ trim_trailing is_sep t.
Proof.
  intros Ht. induction s as [|c s IH]; simpl; [done|]. rewrite IH.
  destruct (s ++ trim_trailing is_sep t) eqn:Heq; [|done].
  destruct s; simpl in Heq; [done|discriminate].
Qed.

Lemma trim_trailing_nonsep (name : string) :
  all_chars (λ c, negb (is_sep c)) name = true →
  trim_trailing is_sep name = name.
Proof.
  induction name as [|c name IH]; [done|]. simpl.
  intros H. apply andb_true_iff in H as [Hc Hn]. rewrite IH by done.
  apply negb_true_iff in Hc. rewrite Hc. by destruct name.
Qed.

Lemma after_last_sep_nonsep (name : string) :
  all_chars (λ c, negb (is_sep c)) name = true →
  after_last_sep is_sep name = None.
Proof.
  induction name as [|c name IH]; [done|]. simpl.
  intros H. apply andb_true_iff in H as [Hc Hn]. rewrite IH by done.
  apply negb_true_iff in Hc. by rewrite Hc.
Qed.

Lemma after_last_sep_app (base : string) (sep : ascii) (name : string) :
  is_sep sep = true →
  all_chars (λ c, negb (is_sep c)) name = true →
  after_last_sep is_sep (base ++ String sep name) = Some name.
Proof.
  intros Hsep Hname. induction base as [|c base IH]; simpl.
  - by rewrite after_last_sep_nonsep, Hsep.
  - by rewrite IH.
Qed.

Lemma all_chars_take (p : ascii → bool) (n : nat) (s : string) :
  all_chars p s = true → all_chars p (take_chars n s) = true.
Proof.
  revert n. induction s as [|c s IH]; intros [|n]; simpl; try done.
  intros H. apply andb_true_iff in H as [Hc Hs]. by rewrite Hc, IH.
Qed.

End Names.

Lemma strip_git_suffix_app (x : string) : strip_git_suffix (x ++ ".git") = x.
Proof. unfold strip_git_suffix. by rewrite strip_suffix_app. Qed.

Lemma strip_git_suffix_all (p : ascii → bool) (s : string) :
  all_chars p s = true → all_chars p (strip_git_suffix s) = true.
Proof.
  intros H. unfold strip_git_suffix, strip_suffix.
  destruct (_ && _); [|done]. by apply all_chars_take.
Qed.

Lemma all_chars_app (p : ascii → bool) (s t : string) :
  all_chars p (s ++ t) = all_chars p s && all_chars p t.
Proof. induction s as [|c s IH]; simpl; [done|]. by rewrite IH, andb_assoc. Qed.

(** A suffix without separators lies within the last component. *)
Lemma suffix_within_name (is_sep : ascii → bool) (a : string) (sep : ascii)
  (name x s : string) :
  is_sep sep = true →
  all_chars (λ c, negb (is_sep c)) s = true →
  a ++ String sep name = x ++ s →
  ∃ y, name = y ++ s.
Proof.
  intros Hsep Hs. revert x. induction a as [|c a IH]; intros x Heq.
  - destruct x as [|c' x]; simpl in Heq.
    + subst s. simpl in Hs. by rewrite Hsep in Hs.
    + injection Heq as _ ->. by eexists.
  - destruct x as [|c' x]; simpl in Heq.
    + subst s. simpl in Hs. apply andb_true_iff in Hs as [_ Hs].
      rewrite all_chars_app in Hs. apply andb_true_iff in Hs as [_ Hs].
      simpl in Hs. by rewrite Hsep in Hs.
    + injection Heq as _ Heq. by apply (IH x).
Qed.

(** X20.  With the URL as its only argument, [cmd_clone] names the
    enlistment after the last component of the URL, once the trailing
    separators and a final .git are taken off: <base>/<name>.git gives
    <name>, also when separators follow, and so does <base>/<name>;
    a URL without any separator has no name and ends the command. *)
Theorem clone_target_names_enlistment (E : env) (base name slashes : string)
  (w : world) :
  all_chars (λ c, negb (is_dir_sep E c)) name = true →
  all_chars (is_dir_sep E) slashes = true →
  clone_target E [base ++ "/" ++ name ++ ".git" ++ slashes] w
    = (Ret (base ++ "/" ++ name ++ ".git" ++ slashes, name), w)
  ∧ (name ≠ EmptyString → strip_suffix name ".git" = None →
     clone_target E [base ++ "/" ++ name ++ slashes] w
     = (Ret (base ++ "/" ++ name ++ slashes, name), w))
  ∧ clone_target E [name] w
    = (Exit ("cannot deduce worktree name from '" ++ name ++ "'"), w).
Proof.
  intros Hname Hslashes.
  assert (is_dir_sep E "/" = true) as Hsep by reflexivity.
  assert (is_dir_sep E "t" = false) as Ht.
  { unfold is_dir_sep. by destruct (target E). }
  assert (all_chars (λ c, negb (is_dir_sep E c)) ".git" = true) as Hgit.
  { unfold is_dir_sep. by destruct (target E). }
  split_and!.
  - assert (after_last_sep (is_dir_sep E)
              (strip_git_suffix
                 (trim_trailing (is_dir_sep E) (base ++ "/" ++ name ++ ".git" ++ slashes)))
            = Some name) as Hd.
    { replace (base ++ "/" ++ name ++ ".git" ++ slashes)
        with (((base ++ "/" ++ name ++ ".gi") ++ "t") ++ slashes)
        by (by rewrite !append_assoc).
      rewrite trim_trailing_seps by done.
      rewrite trim_trailing_app by (simpl; by rewrite Ht).
      simpl trim_trailing. rewrite Ht.
      replace ((base ++ "/" ++ name ++ ".gi") ++ "t")
        with ((base ++ "/" ++ name) ++ ".git") by (by rewrite !append_assoc).
      rewrite strip_git_suffix_app.
      change (base ++ "/" ++ name) with (base ++ String "/" name).
      by rewrite after_last_sep_app. }
    unfold clone_target. by rewrite Hd.
  - intros Hne Hnogit.
    assert (after_last_sep (is_dir_sep E)
              (strip_git_suffix
                 (trim_trailing (is_dir_sep E) (base ++ "/" ++ name ++ slashes)))
            = Some name) as Hd.
    { replace (base ++ "/" ++ name ++ slashes) with (((base ++ "/") ++ name) ++ slashes)
        by (by rewrite !append_assoc).
      rewrite trim_trailing_seps by done.
      rewrite trim_trailing_app; rewrite trim_trailing_nonsep by done; [|done].
      assert (strip_git_suffix ((base ++ "/") ++ name) = (base ++ "/") ++ name) as ->.
      { unfold strip_git_suffix.
        destruct (strip_suffix ((base ++ "/") ++ name) ".git") as [x|] eqn:Hx; [|done].
        exfalso. apply strip_suffix_Some in Hx. rewrite append_assoc in Hx.
        change ("/" ++ name) with (String "/" name) in Hx.
        destruct (suffix_within_name (is_dir_sep E) _ _ _ _ _ Hsep Hgit Hx) as [y ->].
        by rewrite strip_suffix_app in Hnogit. }
      rewrite append_assoc. change ("/" ++ name) with (String "/" name).
      by rewrite after_last_sep_app. }
    unfold clone_target. by rewrite Hd.
  - unfold clone_target. rewrite trim_trailing_nonsep by done.
    rewrite after_last_sep_nonsep; [done|]. by apply strip_git_suffix_all.
Qed.

Lemma clone_target_names_enlistment_witness :
  clone_target no_filter_env ["https://example.com/org/repo.git//"] (initial_world ∅)
  = (Ret ("https://example.com/org/repo.git//", "repo"), initial_world ∅)
  ∧ clone_target no_filter_env ["https://example.com/org/repository"] (initial_world ∅)
    = (Ret ("https://example.com/org/repository", "repository"), initial_world ∅).
Proof.
  split.
  - apply (proj1 (clone_target_names_enlistment no_filter_env "https://example.com/org"
                    "repo" "//" (initial_world ∅) eq_refl eq_refl)).
  - apply (proj1 (proj2 (clone_target_names_enlistment no_filter_env
                           "https://example.com/org" "repository" EmptyString
                           (initial_world ∅) eq_refl eq_refl))).
    + done.
    + reflexivity.
Defined.

(** ** [setup_enlistment_directory] *)

Lemma bind_Exit_or_Ret {A B : Type} (m : M A) (k : A → M B) (w : world) :
  bind m k w = match m w with
               | (Ret a, w1) => k a w1
               | (Exit msg, w1) => (Exit msg, w1)
               end.
Proof. reflexivity. Qed.



(** ** [init_shared_object_cache] *)

Lemma get_cache_key_returns (E : env) (url : string) (w : world) :
  ∃ key w1,
    get_cache_key E url w = (Ret key, w1)
    ∧ config w1 = config w
    ∧ (starts_with key "id_" = true ∨ starts_with key "url_" = true).
Proof.
  unfold get_cache_key, bind at 1.
  destruct (negb (git_env_bool E "SCALAR_TEST_SKIP_VSTS_INFO") && can_url_support_gvfs E url).
  - unfold bind at 1, pipe. destruct (pipe_command E w _) as [status out].
    destruct (negb (truthy status)).
    + destruct (iterate_json get_repository_id (json_parse E out) None) as [r id].
      destruct (r <? 0).
      * eexists _, _. split; [reflexivity|]. split; [done|]. by right.
      * destruct id; eexists _, _; (split; [reflexivity|]); (split; [done|]);
          [by left|by right].
    + eexists _, _. split; [reflexivity|]. split; [done|]. by right.
  - eexists _, _. split; [reflexivity|]. split; [done|]. by right.
Qed.

(** X22.  [init_shared_object_cache] always has a cache key, which
    starts with id_ or with url_, and the shared cache is the directory
    of that name under the local cache root.  It records the directory
    as gvfs.sharedCache and, when the store accepts that write, creates
    it with its pack subdirectory and then writes it to the alternates
    file.  When the directories cannot be created it returns -1 without
    writing the alternates file, and gvfs.sharedCache stays set. *)
Theorem init_shared_object_cache_steps (E : env) (url local_cache_root : string)
  (w : world) :
  ∃ key w1,
    get_cache_key E url w = (Ret key, w1)
    ∧ (starts_with key "id_" = true ∨ starts_with key "url_" = true)
    ∧ let shared := local_cache_root ++ "/" ++ key in
      let w2 := add_log (EvConfigSet "gvfs.sharedCache" (Some shared) 0)
                  (with_config (store_set (config w1) "gvfs.sharedCache" (Some shared)) w1) in
      let created := safe_create_leading_directories E w2 (shared ++ "/pack") in
      let w3 := add_log (EvCreateLeadingDirs (shared ++ "/pack") created) w2 in
      (config_write_status E (config w) "gvfs.sharedCache" (Some shared) = 0 →
       init_shared_object_cache E url local_cache_root w
       = (if created
          then (Ret 0,
                add_log (EvWriteFile (git_path E w3 "objects/info/alternates")
                           (shared ++ String newline EmptyString)) w3)
          else (Ret (-1),
                add_log (EvError ("could not initialize '" ++ shared ++ "/pack'")) w3))
       ∧ store_get (config (snd (init_shared_object_cache E url local_cache_root w)))
           "gvfs.sharedCache" = Some shared).
Proof.
  destruct (get_cache_key_returns E url w) as (key & w1 & Hkey & Hcfg & Hprefix).
  exists key, w1. split; [done|]. split; [done|]. cbv zeta. intros Hw.
  match goal with |- ?L = ?R ∧ _ => assert (L = R) as Hrun end;
    [|rewrite Hrun; split; [done|]].
  { unfold init_shared_object_cache, bind at 1. rewrite Hkey.
    unfold bind at 1, set_config.
    change ("gvfs.sharedCache=" ++ local_cache_root ++ "/" ++ key)
      with ("gvfs.sharedCache" ++ String "=" (local_cache_root ++ "/" ++ key)).
    rewrite split_assignment_value by done.
    unfold git_config_set_gently. cbv zeta. rewrite Hcfg, Hw.
    change (0 =? 0) with true. cbv iota. rewrite truthy_0.
    unfold bind at 1.
    destruct (safe_create_leading_directories E _ _) eqn:Hc; cbn [negb].
    - reflexivity.
    - rewrite append_assoc. reflexivity. }
  destruct (safe_create_leading_directories E _ _); cbn [snd config add_log with_config];
    apply store_get_set_eq.
Qed.

Lemma init_shared_object_cache_steps_witness :
  let run := init_shared_object_cache src_enlistment_env "https://example.com/org/repo"
               "/home/user/.cache/scalar" (initial_world ∅) in
  fst run = Ret (-1)
  ∧ Forall (λ e, match e with EvWriteFile _ _ => False | _ => True end) (log (snd run)).
Proof.
  cbv zeta.
  destruct (init_shared_object_cache_steps src_enlistment_env "https://example.com/org/repo"
              "/home/user/.cache/scalar" (initial_world ∅))
    as (key & w1 & Hkey & _ & H).
  vm_compute in Hkey. injection Hkey as <- <-.
  destruct (H eq_refl) as [-> _].
  split; [vm_compute; reflexivity|].
  vm_compute. repeat constructor.
Defined.

(** ** What a command keeps of the configuration *)

Section KeepsFramework.

Variable E : env.
Variables k v : string.

Lemma keeps_ret {A : Type} (a : A) : keeps k v (ret a).
Proof. by intros w o w' [= <- <-]. Qed.

Lemma keeps_ask {A : Type} (f : world → A) : keeps k v (ask f).
Proof. by intros w o w' [= <- <-]. Qed.

Lemma keeps_die {A : Type} (msg : string) : keeps k v (@die A msg).
Proof. by intros w o w' [= <- <-]. Qed.

Lemma keeps_emit (e : event) : keeps k v (emit e).
Proof. by intros w o w' [= <- <-]. Qed.

Lemma keeps_bind {A B : Type} (f : M A) (g : A → M B) :
  keeps k v f → (∀ a, keeps k v (g a)) → keeps k v (bind f g).
Proof.
  intros Hf Hg w o w'. unfold bind.
  destruct (f w) as [[a|msg] w1] eqn:Hw.
  - intros Hgw Hget. eapply Hg; [exact Hgw|]. by eapply Hf.
  - intros [= <- <-] Hget. by eapply Hf.
Qed.

Lemma keeps_warning (msg : string) : keeps k v (warning msg).
Proof. apply keeps_emit. Qed.

Lemma keeps_error (msg : string) : keeps k v (error msg).
Proof. apply keeps_bind; [apply keeps_emit|]. intros _. apply keeps_ret. Qed.

Lemma keeps_trace2 (key value : string) : keeps k v (trace2_data_string key value).
Proof. apply keeps_emit. Qed.

Lemma keeps_run_git (argv : list string) : keeps k v (run_git E argv).
Proof.
  intros w o w'. unfold run_git. destruct run_git_loop as [res sts].
  by intros [= <- <-].
Qed.

Lemma keeps_pipe (argv : list string) : keeps k v (pipe E argv).
Proof.
  intros w o w'. unfold pipe. destruct pipe_command as [status out].
  by intros [= <- <-].
Qed.

Lemma keeps_push_parameter (parameter : string) :
  keeps k v (git_config_push_parameter parameter).
Proof. apply keeps_emit. Qed.

Lemma keeps_set_gently (key : string) (value : option string) :
  config_key key ≠ config_key k → keeps k v (git_config_set_gently E key value).
Proof.
  intros Hne w o w'. unfold git_config_set_gently. cbv zeta.
  destruct (_ =? 0); intros [= <- <-]; [|done].
  cbn [config add_log with_config]. by rewrite store_get_set_ne.
Qed.

Lemma keeps_set_config (assignment : string) :
  config_key (fst (split_assignment assignment)) ≠ config_key k →
  keeps k v (set_config E assignment).
Proof.
  intros Hne. unfold set_config. destruct (split_assignment assignment) as [key value].
  by apply keeps_set_gently.
Qed.

Lemma keeps_set_recommended_config :
  config_key k ≠ config_key legacy_key → keeps k v (set_recommended_config E false).
Proof.
  intros Hk w o w' Hrun Hget. destruct o as [z|msg].
  - by eapply first_time_keeps.
  - destruct (returns_set_recommended_config E false w) as (z & w1 & Hz). congruence.
Qed.

Lemma keeps_toggle_maintenance (enable : bool) : keeps k v (toggle_maintenance E enable).
Proof.
  unfold toggle_maintenance, git_config_get_ulong, git_config_get_string.
  apply keeps_bind; [apply keeps_ask|]. intros ul.
  apply keeps_bind; [destruct ul; [apply keeps_ret|apply keeps_push_parameter]|].
  intros _. apply keeps_run_git.
Qed.

Lemma keeps_add_or_remove_enlistment (add : bool) :
  keeps k v (add_or_remove_enlistment E add).
Proof.
  unfold add_or_remove_enlistment, require_worktree, git_config_get_ulong,
    git_config_get_string.
  apply keeps_bind.
  { apply keeps_bind; [apply keeps_ask|]. intros r.
    destruct (worktree r); [apply keeps_ret|apply keeps_die]. }
  intros wt. apply keeps_bind; [apply keeps_ask|]. intros ul.
  apply keeps_bind; [destruct ul; [apply keeps_ret|apply keeps_push_parameter]|].
  intros _. apply keeps_bind; [apply keeps_run_git|]. intros res.
  destruct (_ || _); [apply keeps_ret|apply keeps_run_git].
Qed.

Lemma keeps_register_dir :
  config_key k ≠ config_key legacy_key → keeps k v (register_dir E).
Proof.
  intros Hk. unfold register_dir.
  apply keeps_bind; [apply keeps_add_or_remove_enlistment|]. intros r.
  destruct (truthy r); [apply keeps_error|].
  apply keeps_bind; [by apply keeps_set_recommended_config|]. intros r1.
  destruct (truthy r1); [apply keeps_error|].
  apply keeps_bind; [apply keeps_toggle_maintenance|]. intros r2.
  apply keeps_bind; [destruct (truthy r2); [apply keeps_warning|apply keeps_ret]|].
  intros _. unfold have_fsmonitor_support.
  apply keeps_bind; [apply keeps_ask|]. intros fsm.
  apply keeps_bind.
  { destruct fsm; [|apply keeps_ret]. unfold start_fsmonitor_daemon.
    apply keeps_bind; [apply keeps_ask|]. intros l.
    destruct (negb l); [apply keeps_run_git|apply keeps_ret]. }
  intros r3. destruct (truthy r3); [apply keeps_error|apply keeps_ret].
Qed.

End KeepsFramework.

(** ** What a successful clone has configured *)

Lemma strchr_app (s t : string) (c : ascii) :
  strchr (s ++ t) c = strchr s c || strchr t c.
Proof. induction s as [|d s IH]; simpl; [done|]. by rewrite IH, orb_assoc. Qed.

Lemma config_key_length (s : string) : String.length (config_key s) = String.length s.
Proof.
  assert (∀ t, String.length (canon_after_section t) = String.length t) as Hc.
  { induction t as [|c t IH]; simpl; [done|]. destruct (_ || _); simpl; by rewrite IH. }
  induction s as [|c s IH]; simpl; [done|].
  destruct (Ascii.eqb c "."); simpl; by rewrite ?Hc, ?IH.
Qed.

Lemma branch_key_head (s : string) :
  ∃ t, config_key (fst (split_assignment ("branch." ++ s))) = String "b" t.
Proof.
  change ("branch." ++ s)
    with (String "b" (String "r" (String "a" (String "n" (String "c" (String "h"
            (String "." s))))))).
  cbn [split_assignment Ascii.eqb Bool.eqb]. cbv iota.
  destruct (split_assignment s) as [key value]. cbn [fst]. by eexists.
Qed.

Lemma branch_config_key_head (s : string) :
  ∃ t, config_key ("branch." ++ s) = String "b" t.
Proof. by eexists. Qed.

Lemma set_config_sets (E : env) (key value : string) (w w1 : world) :
  strchr key "=" = false →
  set_config E (key ++ String "=" value) w = (Ret 0, w1) →
  store_get (config w1) key = Some value.
Proof.
  intros Hk. unfold set_config. rewrite split_assignment_value by done.
  destruct (set_gently_run E key (Some value) w) as [[_ ->]|[Hs ->]];
    [|by intros [= ? _]].
  intros [= <-]. cbn [config add_log with_config]. apply store_get_set_eq.
Qed.

Section CloneKeeps.

Variable E : env.
Variables k v : string.

(** The key is one of the two remote settings that [cmd_clone] writes
    first. *)
Hypothesis remote_key :
  config_key k = "remote.origin.url" ∨ config_key k = "remote.origin.fetch".

Ltac other_key :=
  let H := fresh in
  destruct remote_key as [H|H]; rewrite H; by vm_compute.

Lemma remote_key_not_branch (s : string) :
  config_key (fst (split_assignment ("branch." ++ s))) ≠ config_key k.
Proof.
  destruct (branch_key_head s) as [t ->].
  destruct remote_key as [-> | ->]; discriminate.
Qed.

Lemma keeps_clone_finish (branch : string) : keeps k v (clone_finish E branch).
Proof.
  unfold clone_finish.
  apply keeps_bind; [apply keeps_set_config, remote_key_not_branch|]. intros r1.
  destruct (truthy r1); [apply keeps_ret|].
  apply keeps_bind; [apply keeps_set_config, remote_key_not_branch|]. intros r2.
  destruct (truthy r2); [apply keeps_ret|].
  apply keeps_bind; [apply keeps_run_git|]. intros r3.
  destruct (truthy r3); [apply keeps_ret|].
  apply keeps_register_dir. other_key.
Qed.

Lemma keeps_clone_fetch (gvfs_protocol show_progress : bool) (f : M Z) :
  keeps k v f → keeps k v (clone_fetch E gvfs_protocol show_progress f).
Proof.
  intros Hf. unfold clone_fetch.
  apply keeps_bind; [apply keeps_run_git|]. intros res.
  destruct (truthy res); [|done].
  destruct gvfs_protocol; [apply keeps_error|].
  apply keeps_bind; [apply keeps_warning|]. intros _.
  apply keeps_bind; [apply keeps_set_config; other_key|]. intros r1.
  apply keeps_bind.
  { destruct (truthy r1); [apply keeps_ret|apply keeps_set_config; other_key]. }
  intros r2. destruct (truthy r2); [apply keeps_error|].
  apply keeps_bind; [apply keeps_run_git|]. intros res2.
  destruct (truthy res2); [apply keeps_ret|done].
Qed.

Lemma keeps_set_config_all (assignments : list string) :
  Forall (λ a, config_key (fst (split_assignment a)) ≠ config_key k) assignments →
  keeps k v (set_config_all E assignments).
Proof.
  induction 1 as [|a rest Ha _ IH]; simpl; [apply keeps_ret|].
  apply keeps_bind; [by apply keeps_set_config|]. intros r.
  destruct (truthy r); [apply keeps_ret|done].
Qed.

Lemma keeps_init_shared_object_cache (url root : string) :
  keeps k v (init_shared_object_cache E url root).
Proof.
  unfold init_shared_object_cache.
  apply keeps_bind.
  { intros w o w' Hrun Hget.
    destruct (get_cache_key_returns E url w) as (key & w1 & Hkey & Hcfg & _).
    rewrite Hkey in Hrun. injection Hrun as <- <-. by rewrite Hcfg. }
  intros key. apply keeps_bind.
  { apply keeps_set_config.
    change ("gvfs.sharedCache=" ++ root ++ "/" ++ key)
      with ("gvfs.sharedCache" ++ String "=" (root ++ "/" ++ key)).
    rewrite split_assignment_value by done. other_key. }
  intros r. destruct (truthy r); [apply keeps_error|].
  apply keeps_bind; [by intros w o w' [= <- <-]|]. intros ok.
  destruct (negb ok); [apply keeps_error|].
  apply keeps_bind; [apply keeps_ask|]. intros path.
  apply keeps_bind; [apply keeps_emit|]. intros _. apply keeps_ret.
Qed.

Lemma keeps_clone_negotiate (cache_server_url : option string) (url : string) :
  keeps k v (clone_negotiate E cache_server_url url).
Proof.
  unfold clone_negotiate. destruct cache_server_url; [apply keeps_ret|].
  apply keeps_bind; [|intros [res stored]; apply keeps_ret].
  unfold supports_gvfs_protocol.
  destruct (negb (can_url_support_gvfs E url)); [apply keeps_ret|].
  apply keeps_bind; [apply keeps_pipe|]. intros [status out].
  destruct (negb (truthy status)); [|apply keeps_ret]. cbn [negb]. cbv zeta.
  destruct (iterate_json get_cache_server_index _ 0) as [r l].
  destruct (r <? 0).
  { apply keeps_bind; [apply keeps_error|]. intros e. apply keeps_ret. }
  destruct (values_shown get_cache_server_index _ 0) as [shown ended].
  destruct (iterate_json get_cache_server_url _ _) as [r' data].
  destruct (r' <? 0); [|apply keeps_ret].
  apply keeps_bind; [apply keeps_error|]. intros e. apply keeps_ret.
Qed.

Lemma keeps_clone_configure_and_fetch (o : clone_options)
  (url dir root branch : string) :
  keeps k v (clone_configure_and_fetch E o url dir root branch).
Proof.
  unfold clone_configure_and_fetch.
  apply keeps_bind; [apply keeps_clone_negotiate|]. intros [gvfs_protocol dflt].
  apply keeps_bind.
  { destruct gvfs_protocol.
    - apply keeps_bind; [apply keeps_init_shared_object_cache|]. intros res.
      destruct (truthy res); [apply keeps_ret|].
      apply keeps_bind.
      { apply keeps_set_config_all. repeat (constructor; [other_key|]). constructor. }
      intros r. destruct (truthy r); [apply keeps_error|].
      destruct (match opt_cache_server_url o with
                | Some u => Some u
                | None => dflt
                end) as [u|]; [|apply keeps_ret].
      apply keeps_bind.
      { apply keeps_set_config.
        change ("gvfs.cache-server=" ++ u) with ("gvfs.cache-server" ++ String "=" u).
        rewrite split_assignment_value by done. other_key. }
      intros r'. destruct (truthy r'); [apply keeps_error|].
      apply keeps_bind; [apply keeps_emit|]. intros _. apply keeps_ret.
    - apply keeps_bind.
      { apply keeps_set_config_all. repeat (constructor; [other_key|]). constructor. }
      intros r. destruct (truthy r); [apply keeps_error|apply keeps_ret]. }
  intros res. destruct (truthy res); [apply keeps_ret|].
  apply keeps_bind.
  { destruct (negb (opt_full_clone o)); [apply keeps_run_git|apply keeps_ret]. }
  intros res2. destruct (truthy res2); [apply keeps_ret|].
  apply keeps_bind; [apply keeps_set_recommended_config; other_key|]. intros r.
  destruct (truthy r); [apply keeps_error|].
  apply keeps_clone_fetch, keeps_clone_finish.
Qed.

End CloneKeeps.

Section CloneSucceeds.

Variable E : env.

Lemma clone_fetch_Ret0 (gvfs_protocol show_progress : bool) (f : M Z) (w w' : world) :
  clone_fetch E gvfs_protocol show_progress f w = (Ret 0, w') →
  ∃ w0, f w0 = (Ret 0, w').
Proof.
  unfold clone_fetch. intros H.
  apply bind_Ret in H as (res & w1 & _ & H).
  destruct (truthy res) eqn:Hres; [|by eexists].
  destruct gvfs_protocol; [by apply error_not_0 in H|].
  apply bind_Ret in H as (u & w2 & _ & H).
  apply bind_Ret in H as (r1 & w3 & _ & H).
  apply bind_Ret in H as (r2 & w4 & _ & H).
  destruct (truthy r2); [by apply error_not_0 in H|].
  apply bind_Ret in H as (res2 & w5 & _ & H).
  destruct (truthy res2) eqn:Hres2; [|by eexists].
  injection H as -> _. done.
Qed.

Lemma clone_configure_and_fetch_Ret0 (o : clone_options) (url dir root branch : string)
  (w w' : world) :
  clone_configure_and_fetch E o url dir root branch w = (Ret 0, w') →
  ∃ w0, clone_finish E branch w0 = (Ret 0, w').
Proof.
  unfold clone_configure_and_fetch. intros H.
  apply bind_Ret in H as ([gvfs_protocol dflt] & w1 & _ & H).
  apply bind_Ret in H as (res & w2 & _ & H).
  destruct (truthy res) eqn:Hres; [injection H as -> _; done|].
  apply bind_Ret in H as (res2 & w3 & _ & H).
  destruct (truthy res2) eqn:Hres2; [injection H as -> _; done|].
  apply bind_Ret in H as (r & w4 & _ & H).
  destruct (truthy r); [by apply error_not_0 in H|].
  by apply clone_fetch_Ret0 in H.
Qed.

Lemma clone_finish_Ret0 (branch : string) (w w' : world) :
  strchr branch "=" = false →
  clone_finish E branch w = (Ret 0, w') →
  store_get (config w') ("branch." ++ branch ++ ".remote") = Some "origin"
  ∧ store_get (config w') ("branch." ++ branch ++ ".merge") = Some ("refs/heads/" ++ branch).
Proof.
  intros Hb H. unfold clone_finish in H.
  assert (strchr ("branch." ++ branch ++ ".remote") "=" = false) as Hk1.
  { rewrite !strchr_app, Hb. reflexivity. }
  assert (strchr ("branch." ++ branch ++ ".merge") "=" = false) as Hk2.
  { rewrite !strchr_app, Hb. reflexivity. }
  assert (config_key ("branch." ++ branch ++ ".merge")
          ≠ config_key ("branch." ++ branch ++ ".remote")) as Hne.
  { intros Heq. apply (f_equal String.length) in Heq.
    rewrite !config_key_length, !length_append in Heq. simpl in Heq. lia. }
  assert (∀ s, config_key ("branch." ++ s) ≠ config_key legacy_key) as Hleg.
  { intros s. destruct (branch_config_key_head s) as [t ->]. by vm_compute. }
  apply bind_Ret in H as (r1 & w1 & H1 & H).
  destruct (truthy r1) eqn:Hr1; [injection H as -> _; done|].
  apply truthy_false in Hr1. subst r1.
  replace ("branch." ++ branch ++ ".remote=origin")
    with (("branch." ++ branch ++ ".remote") ++ String "=" "origin") in H1
    by (by rewrite !append_assoc).
  pose proof (set_config_sets E _ _ _ _ Hk1 H1) as Hremote.
  apply bind_Ret in H as (r2 & w2 & H2 & H).
  destruct (truthy r2) eqn:Hr2; [injection H as -> _; done|].
  apply truthy_false in Hr2. subst r2.
  replace ("branch." ++ branch ++ ".merge=refs/heads/" ++ branch)
    with (("branch." ++ branch ++ ".merge") ++ String "=" ("refs/heads/" ++ branch)) in H2
    by (by rewrite !append_assoc).
  pose proof (set_config_sets E _ _ _ _ Hk2 H2) as Hmerge.
  assert (store_get (config w2) ("branch." ++ branch ++ ".remote") = Some "origin")
    as Hremote2.
  { eapply (keeps_set_config E); [|exact H2|exact Hremote].
    by rewrite split_assignment_value. }
  apply bind_Ret in H as (r3 & w3 & H3 & H).
  destruct (truthy r3) eqn:Hr3; [injection H as -> _; done|].
  assert (config w3 = config w2) as Hc3.
  { unfold run_git in H3. destruct run_git_loop. by injection H3 as _ <-. }
  split.
  - eapply keeps_register_dir; [apply Hleg|exact H|]. by rewrite Hc3.
  - eapply keeps_register_dir; [apply Hleg|exact H|]. by rewrite Hc3.
Qed.

Lemma set_config_all_two (a1 a2 : string) (w w2 : world) :
  set_config_all E [a1; a2] w = (Ret 0, w2) →
  ∃ w1, set_config E a1 w = (Ret 0, w1) ∧ set_config E a2 w1 = (Ret 0, w2).
Proof.
  simpl. intros H. apply bind_Ret in H as (r1 & w1 & H1 & H).
  destruct (truthy r1) eqn:Hr1; [injection H as -> _; done|].
  apply truthy_false in Hr1. subst r1.
  apply bind_Ret in H as (r2 & w1' & H2 & H).
  destruct (truthy r2) eqn:Hr2; [injection H as -> _; done|].
  apply truthy_false in Hr2. subst r2. injection H as <-. by exists w1.
Qed.

Lemma clone_in_repository_Ret0 (o : clone_options) (url enlistment dir root : string)
  (w w' : world) :
  clone_in_repository E o url enlistment dir root w = (Ret 0, w') →
  ∃ branch,
    (∀ b, opt_branch o = Some b → branch = b)
    ∧ store_get (config w') "remote.origin.url" = Some url
    ∧ store_get (config w') "remote.origin.fetch"
      = Some (origin_refspec (opt_single_branch o) branch)
    ∧ ∃ w0, clone_finish E branch w0 = (Ret 0, w').
Proof.
  unfold clone_in_repository. intros H.
  apply bind_Ret in H as (u & w1 & _ & H).
  apply bind_Ret in H as (u' & w2 & _ & H).
  apply bind_Ret in H as (found & w3 & Hbranch & H).
  destruct found as [branch|]; [|by apply error_not_0 in H].
  apply bind_Ret in H as (r & w4 & Hset & H).
  destruct (truthy r) eqn:Hr; [by apply error_not_0 in H|].
  apply truthy_false in Hr. subst r.
  apply bind_Ret in H as (r' & w5 & Hcred & H).
  destruct (truthy r') eqn:Hr'; [by apply error_not_0 in H|].
  apply set_config_all_two in Hset as (w34 & Hurl & Hfetch).
  change ("remote.origin.url=" ++ url)
    with ("remote.origin.url" ++ String "=" url) in Hurl.
  change ("remote.origin.fetch=+refs/heads/"
          ++ (if opt_single_branch o then branch else "*")
          ++ ":refs/remotes/origin/" ++ (if opt_single_branch o then branch else "*"))
    with ("remote.origin.fetch"
          ++ String "=" (origin_refspec (opt_single_branch o) branch)) in Hfetch.
  pose proof (set_config_sets E "remote.origin.url" _ _ _ eq_refl Hurl) as Hu.
  pose proof (set_config_sets E "remote.origin.fetch" _ _ _ eq_refl Hfetch) as Hf.
  assert (store_get (config w4) "remote.origin.url" = Some url) as Hu4.
  { eapply (keeps_set_config E "remote.origin.url" url); [|exact Hfetch|exact Hu].
    rewrite (split_assignment_value "remote.origin.fetch") by done. by vm_compute. }
  exists branch. split_and!.
  - intros b Hb. rewrite Hb in Hbranch. by injection Hbranch as <- _.
  - eapply (keeps_clone_configure_and_fetch E "remote.origin.url"); [by left|exact H|].
    eapply (keeps_set_config E); [|exact Hcred|exact Hu4]. by vm_compute.
  - eapply (keeps_clone_configure_and_fetch E "remote.origin.fetch"); [by right|exact H|].
    eapply (keeps_set_config E); [|exact Hcred|exact Hf]. by vm_compute.
  - by apply clone_configure_and_fetch_Ret0 in H.
Qed.

End CloneSucceeds.

(** X23.  A clone that returns 0 has configured the repository for its
    remote: remote.origin.url is the URL that was given and
    remote.origin.fetch is the refspec of all branches, or of the one
    branch with --single-branch; and the branch, which is the one given
    with --branch if there is one, tracks origin: branch.<name>.remote
    is origin and branch.<name>.merge is refs/heads/<name> (for a name
    without an equals sign, at which [set_config] would split it). *)
Theorem successful_clone_is_configured (E : env) (o : clone_options) (w w' : world)
  (url enlistment dir root : string) :
  clone_plan E o w = Some (url, enlistment, dir, root) →
  cmd_clone E o w = (Ret 0, w') →
  ∃ branch,
    (∀ b, opt_branch o = Some b → branch = b)
    ∧ store_get (config w') "remote.origin.url" = Some url
    ∧ store_get (config w') "remote.origin.fetch"
      = Some (origin_refspec (opt_single_branch o) branch)
    ∧ (strchr branch "=" = false →
       store_get (config w') ("branch." ++ branch ++ ".remote") = Some "origin"
       ∧ store_get (config w') ("branch." ++ branch ++ ".merge")
         = Some ("refs/heads/" ++ branch)).
Proof.
  intros Hplan Hrun. pose proof (cmd_clone_run E o w) as Hc. rewrite Hplan in Hc.
  rewrite Hc in Hrun. clear Hc. unfold clone_into in Hrun.
  apply bind_Ret in Hrun as (buf & w1 & _ & H).
  apply bind_Ret in H as (res & w2 & _ & H).
  destruct (truthy res) eqn:Hres; [injection H as -> _; done|].
  apply bind_Ret in H as (cd & w3 & _ & H).
  destruct (chdir_failed cd); [by apply error_not_0 in H|].
  apply bind_Ret in H as (u & w4 & _ & H).
  apply bind_Ret in H as (u' & w5 & _ & H).
  apply clone_in_repository_Ret0 in H as (branch & Hb & Hurl & Hfetch & w0 & Hfin).
  exists branch. split_and!; try done.
  intros Heq. by apply (clone_finish_Ret0 E branch w0 w').
Qed.

Lemma successful_clone_is_configured_witness :
  let o := clone_of ["https://example.com/org/repo"] None in
  let w' := snd (cmd_clone cooperative_env o (initial_world ∅)) in
  store_get (config w') "remote.origin.url" = Some "https://example.com/org/repo"
  ∧ store_get (config w') "branch.main.merge" = Some "refs/heads/main".
Proof.
  cbv zeta.
  destruct (successful_clone_is_configured cooperative_env
              (clone_of ["https://example.com/org/repo"] None) (initial_world ∅)
              (snd (cmd_clone cooperative_env (clone_of ["https://example.com/org/repo"] None)
                      (initial_world ∅)))
              "https://example.com/org/repo" "/work/repo" "/work/repo/src"
              "/home/user/.cache/scalar"
              ltac:(vm_compute; reflexivity) ltac:(vm_compute; reflexivity))
    as (branch & _ & Hurl & _ & _).
  split; [exact Hurl|]. vm_compute. reflexivity.
Defined.
